(** * Subscription and billing ledger: a shallow embedding and its properties

    The development follows the source units of the ledger:
    - [stores/subscription.js]  (trial counter, paid-until, redeem codes),
    - [stores/billing.js]       (pricing profiles, tiered cost, usage recorder),
    - [services/store.service.js] (the persistence sink [createWriteStore],
      the start-up [initStores]),
    - [services/billing.service.js] and [controllers/billing.controller.js]
      (plans, orders, the code handler),
    - [volcengineClient.js]     (the duration of a recognition result).

    Modelling conventions.
    - JavaScript maps keyed by strings are [gmap string _]; arrays are lists.
    - Epoch-millisecond timestamps, plan durations and the trial counter are
      integers ([Z]).  The paid-until map keeps the integer whose text
      [String(n)] the code stores, and [getPaidUntil] reads it through
      [parseInt_String]: the integer itself below [1e21], the sign and the
      first digit of the exponent notation from [1e21] on.
    - Minutes and money are exact rationals ([Q]); the boundary [+Infinity]
      of a terminal tier is [None].  Binary floating-point rounding is not
      part of the model.
    - A value that does not coerce to a finite number ([undefined], [NaN],
      a missing property) is [None] in an [option].
    - Every store operation runs to completion synchronously; the model
      hands it one clock reading [now] for the calls of [Date.now()]. *)

From Stdlib Require Import ZArith QArith Qround Qminmax Lqa String Ascii List Lia.
From stdpp Require Import base option list gmap strings.

Local Open Scope Z_scope.

(** ** Shared helpers *)

Module Js.

(** White space removed by [String.prototype.trim] (ASCII range). *)
Definition is_space (c : ascii) : bool :=
  let n := nat_of_ascii c in
  ((9 <=? n)%nat && (n <=? 13)%nat) || (n =? 32)%nat.

Fixpoint drop_space (l : list ascii) : list ascii :=
  match l with
  | [] => []
  | c :: r => if is_space c then drop_space r else l
  end.

Definition trim (s : string) : string :=
  string_of_list_ascii
    (rev (drop_space (rev (drop_space (list_ascii_of_string s))))).

(** A text that [trim] leaves alone at its front. *)
Definition no_leading_space (l : list ascii) : Prop :=
  match l with
  | [] => True
  | c :: _ => is_space c = false
  end.

(** [normalizeBaseId]: a value that is not a string gives the empty key. *)
Definition normalizeBaseId (value : option string) : string :=
  match value with
  | None => EmptyString
  | Some v => trim v
  end.

(** Truthiness of a string and of an integer. *)
Definition truthy_str (s : string) : bool :=
  match s with EmptyString => false | _ => true end.

Definition truthy_Z (n : Z) : bool := negb (n =? 0).

Definition truthy_optZ (n : option Z) : bool :=
  match n with Some v => truthy_Z v | None => false end.

(** Comparisons on rationals as the code writes them. *)
Definition Qleb (x y : Q) : bool := Qle_bool x y.
Definition Qgtb (x y : Q) : bool := negb (Qle_bool x y).

End Js.

(** ** The billing store ([stores/billing.js]) *)

Module Billing.
Import Js.

(** A normalized tier [{ upToMinutes, unitPrice }]. *)
Record Tier := mkTier {
  upToMinutes : option Q;   (* None is Number.POSITIVE_INFINITY *)
  unitPrice : Q
}.

(** [resolveCurrentTierUnitPrice]: the [for] loop returns at the first tier
    whose boundary reaches [totalMinutes]. *)
Definition tier_reaches (totalMinutes : Q) (tier : Tier) : bool :=
  match upToMinutes tier with
  | Some limit => Qleb totalMinutes limit
  | None => true
  end.

Fixpoint first_reaching (tieredPrices : list Tier) (totalMinutes : Q)
  : option Tier :=
  match tieredPrices with
  | [] => None
  | tier :: rest =>
      if tier_reaches totalMinutes tier then Some tier
      else first_reaching rest totalMinutes
  end.

(** [x || fallback] on a number: zero is falsy. *)
Definition or_fallback (x fallback : Q) : Q :=
  if Qeq_bool x 0 then fallback else x.

Definition resolveCurrentTierUnitPrice
    (tieredPrices : list Tier) (totalMinutes fallbackUnitPrice : Q) : Q :=
  match tieredPrices with
  | [] => fallbackUnitPrice
  | _ =>
      match first_reaching tieredPrices totalMinutes with
      | Some tier => unitPrice tier
      | None =>
          match last tieredPrices with
          | Some t => or_fallback (unitPrice t) fallbackUnitPrice
          | None => fallbackUnitPrice
          end
      end
  end.

(** The three loop variables of [calculateTieredCost]. *)
Record Walk := mkWalk { remaining : Q; cost : Q; cursor : Q }.

(** One pass of the [for (const tier of tieredPrices)] loop; [break] leaves
    the loop with the current variables, [continue] goes to the next tier. *)
Fixpoint tier_loop (tieredPrices : list Tier) (w : Walk) : Walk :=
  match tieredPrices with
  | [] => w
  | tier :: rest =>
      if Qleb (remaining w) 0 then w
      else
        let available :=
          match upToMinutes tier with
          | Some limit => Qmax 0 (limit - cursor w)
          | None => remaining w
          end in
        if Qleb available 0 then tier_loop rest w
        else
          let used := Qmin (remaining w) available in
          tier_loop rest
            {| remaining := remaining w - used;
               cost := cost w + used * unitPrice tier;
               cursor := cursor w + used |}
  end.

Definition calculateTieredCost
    (tieredPrices : list Tier) (prevMinutes addMinutes fallbackUnitPrice : Q)
  : Q :=
  match tieredPrices with
  | [] => addMinutes * fallbackUnitPrice
  | _ =>
      let w := tier_loop tieredPrices
                 {| remaining := addMinutes; cost := 0; cursor := prevMinutes |} in
      if Qgtb (remaining w) 0
      then cost w + remaining w * fallbackUnitPrice
      else cost w
  end.

(** *** The reference algorithm, written after the specification

    [available] is the room left below the boundary, or unbounded. *)
Inductive Room := Bounded (q : Q) | Unbounded.

Definition spec_available (tier : Tier) (cursor : Q) : Room :=
  match upToMinutes tier with
  | Some boundary => Bounded (boundary - cursor)
  | None => Unbounded
  end.

Definition room_exhausted (a : Room) : bool :=
  match a with Bounded q => Qleb q 0 | Unbounded => false end.

Definition room_min (remaining : Q) (a : Room) : Q :=
  match a with Bounded q => Qmin remaining q | Unbounded => remaining end.

Fixpoint spec_walk (tiers : list Tier) (w : Walk) : Walk :=
  match tiers with
  | [] => w
  | tier :: rest =>
      if Qleb (remaining w) 0 then w
      else
        let available := spec_available tier (cursor w) in
        if room_exhausted available then spec_walk rest w
        else
          let used := room_min (remaining w) available in
          spec_walk rest
            {| remaining := remaining w - used;
               cost := cost w + used * unitPrice tier;
               cursor := cursor w + used |}
  end.

Definition tier_crossing_cost_spec
    (tiers : list Tier) (prev add fallbackUnitPrice : Q) : Q :=
  let w := spec_walk tiers {| remaining := add; cost := 0; cursor := prev |} in
  if Qgtb (remaining w) 0
  then cost w + remaining w * fallbackUnitPrice
  else cost w.

(** Boundaries in ascending order, the infinite one last. *)
Definition boundary_leb (a b : option Q) : bool :=
  match a, b with
  | _, None => true
  | None, Some _ => false
  | Some x, Some y => Qleb x y
  end.

Fixpoint tiers_ascending (tiers : list Tier) : bool :=
  match tiers with
  | [] => true
  | a :: rest =>
      match rest with
      | [] => true
      | b :: _ => boundary_leb (upToMinutes a) (upToMinutes b)
      end && tiers_ascending rest
  end.

(** *** The cost band by band

    On an ascending schedule the tier of boundary [b] prices the minutes of
    the day above the boundary before it and up to [b].  [Lower] is the
    boundary before a tier: none for the first tier. *)
Inductive Lower := NoLower | LowerAt (b : option Q).

Definition band_bottom (below : Lower) (lo hi : Q) : Q :=
  match below with
  | NoLower => lo
  | LowerAt (Some b) => Qmax lo b
  | LowerAt None => hi
  end.

Definition band_top (upTo : option Q) (hi : Q) : Q :=
  match upTo with
  | Some b => Qmin hi b
  | None => hi
  end.

(** The minutes of the span from [lo] to [hi] that lie in the band. *)
Definition band_overlap (below : Lower) (upTo : option Q) (lo hi : Q) : Q :=
  Qmax 0 (band_top upTo hi - band_bottom below lo hi).

Fixpoint band_cost (tiers : list Tier) (below : Lower) (lo hi : Q) : Q :=
  match tiers with
  | [] => 0
  | t :: rest =>
      band_overlap below (upToMinutes t) lo hi * unitPrice t
      + band_cost rest (LowerAt (upToMinutes t)) lo hi
  end.

Fixpoint last_lower (below : Lower) (tiers : list Tier) : Lower :=
  match tiers with
  | [] => below
  | t :: rest => last_lower (LowerAt (upToMinutes t)) rest
  end.

(** Every band at its tier's price, and the minutes above the last boundary
    at the fallback price. *)
Definition cost_by_band (tiers : list Tier) (prev add fallbackUnitPrice : Q) : Q :=
  band_cost tiers NoLower prev (prev + add)
  + band_overlap (last_lower NoLower tiers) None prev (prev + add)
    * fallbackUnitPrice.

Definition lower_leb (below : Lower) (upTo : option Q) : bool :=
  match below with
  | NoLower => true
  | LowerAt b => boundary_leb b upTo
  end.

Fixpoint ascending_from (below : Lower) (tiers : list Tier) : bool :=
  match tiers with
  | [] => true
  | t :: rest =>
      lower_leb below (upToMinutes t)
      && ascending_from (LowerAt (upToMinutes t)) rest
  end.

(** The schedule of the repository's tiered-pricing test. *)
Definition example_tiers : list Tier :=
  [ mkTier (Some (2 # 1)) (2 # 10);
    mkTier (Some (5 # 1)) (1 # 10);
    mkTier None (5 # 100) ]%Q.

(** A schedule whose only tier is bounded and free of charge. *)
Definition free_terminal_tier : list Tier := [ mkTier (Some (5 # 1)%Q) 0%Q ].

(** The boundary of the tier is at least the total. *)
Definition boundary_reaches (totalMinutes : Q) (tier : Tier) : Prop :=
  match upToMinutes tier with
  | Some limit => (totalMinutes <= limit)%Q
  | None => True
  end.

Definition first_reaching_at (tiers : list Tier) (totalMinutes : Q)
    (i : nat) (t : Tier) : Prop :=
  tiers !! i = Some t /\ boundary_reaches totalMinutes t /\
  forall j t', (j < i)%nat -> tiers !! j = Some t' ->
               ~ boundary_reaches totalMinutes t'.

Definition none_reaching (tiers : list Tier) (totalMinutes : Q) : Prop :=
  forall j t', tiers !! j = Some t' -> ~ boundary_reaches totalMinutes t'.

(** The reading of [resolveCurrentTierUnitPrice] under which the fallback
    price comes back for an empty list only: when no boundary qualifies the
    result is the unit price of the last tier. *)
Definition terminal_price_when_none_reaches
    (tiers : list Tier) (totalMinutes fallbackUnitPrice : Q) : Prop :=
  none_reaching tiers totalMinutes ->
  forall t, last tiers = Some t ->
    resolveCurrentTierUnitPrice tiers totalMinutes fallbackUnitPrice
    = unitPrice t.

(** *** Pricing profiles

    A tier item as it is found in a pricing object.  Each field is the
    finite number the property coerces to under [Number], when there is one. *)
Record RawTier := mkRawTier {
  raw_upToMinutes : option Q;
  raw_upToHours : option Q;
  raw_upTo : option Q;
  raw_unitPrice : option Q;
  raw_unitPricePerMinute : option Q;
  raw_unitPricePerHour : option Q
}.

(** A pricing object of [pricingByBaseId]; an item of [tieredPrices] that is
    not an object is [None]. *)
Record RawPricing := mkRawPricing {
  raw_planPriceById : option (gmap string Q);
  raw_modelUnitPrice : option Q;
  raw_modelUnitLabel : string;
  raw_tieredPrices : option (list (option RawTier))
}.

Definition empty_pricing : RawPricing :=
  {| raw_planPriceById := None; raw_modelUnitPrice := None;
     raw_modelUnitLabel := EmptyString; raw_tieredPrices := None |}.

Record DefaultPricing := mkDefaultPricing {
  def_modelUnitPrice : Q;
  def_modelUnitLabel : string;
  def_tieredPrices : option (list (option RawTier))
}.

Record Pricing := mkPricing {
  planPriceById : gmap string Q;
  modelUnitPrice : Q;
  modelUnitLabel : string;
  tieredPrices : list Tier
}.

Definition normalize_tier (fallbackPrice : Q) (item : option RawTier)
  : option Tier :=
  match item with
  | None => None
  | Some it =>
      let upTo :=
        match raw_upToMinutes it with
        | Some m => Some m
        | None =>
            match raw_upToHours it with
            | Some h => Some (h * 60)%Q
            | None => raw_upTo it
            end
        end in
      let price :=
        match raw_unitPrice it with
        | Some p => p
        | None =>
            match raw_unitPricePerMinute it with
            | Some p => p
            | None =>
                match raw_unitPricePerHour it with
                | Some p => (p / 60)%Q
                | None => fallbackPrice
                end
            end
        end in
      if Qgtb 0 price then None
      else Some {| upToMinutes := upTo; unitPrice := price |}
  end.

(** The comparator of [normalized.sort] answers [<= 0]. *)
Definition tier_cmp_le (a b : Tier) : bool :=
  match upToMinutes a, upToMinutes b with
  | Some x, Some y => Qleb x y
  | Some _, None => true
  | None, Some _ => false
  | None, None => true
  end.

(** [Array.prototype.sort] is stable: an item goes behind the items that do
    not compare greater. *)
Fixpoint insert_tier (t : Tier) (sorted : list Tier) : list Tier :=
  match sorted with
  | [] => [t]
  | h :: r => if tier_cmp_le h t then h :: insert_tier t r else t :: sorted
  end.

Definition sort_tiers (l : list Tier) : list Tier :=
  foldl (fun acc t => insert_tier t acc) [] l.

Definition normalizeTieredPrices
    (tiered : option (list (option RawTier))) (fallbackPrice : Q) : list Tier :=
  match tiered with
  | None => []
  | Some items => sort_tiers (omap (normalize_tier fallbackPrice) items)
  end.

Definition normalizePricing (defaultPricing : DefaultPricing)
    (pricing : RawPricing) : Pricing :=
  let fallbackUnitPrice :=
    match raw_modelUnitPrice pricing with
    | Some p => p
    | None => def_modelUnitPrice defaultPricing
    end in
  {| planPriceById := default ∅ (raw_planPriceById pricing);
     modelUnitPrice := fallbackUnitPrice;
     modelUnitLabel :=
       if truthy_str (raw_modelUnitLabel pricing)
       then raw_modelUnitLabel pricing
       else def_modelUnitLabel defaultPricing;
     tieredPrices :=
       normalizeTieredPrices
         (match raw_tieredPrices pricing with
          | Some l => Some l
          | None => def_tieredPrices defaultPricing
          end)
         fallbackUnitPrice |}.

(** *** Usage totals *)

(** A stored usage object; a field that is not a finite number is [None]. *)
Record RawUsage := mkRawUsage {
  u_count : option Q;
  u_minutes : option Q;
  u_cost : option Q
}.

Record RawDaily := mkRawDaily {
  d_minutes : option Q;
  d_cost : option Q
}.

(** [getDateKey]: the UTC calendar day of a timestamp.  The day is kept as
    the number of days since the epoch, which determines the text
    [YYYY-MM-DD] that [toISOString().slice(0, 10)] gives. *)
Definition getDateKey (timestamp : Z) : Z := timestamp / 86400000.

Record Store := mkStore {
  pricingMap : gmap string RawPricing;
  usageMap : gmap string RawUsage;
  dailyUsageMap : gmap string (gmap Z RawDaily)
}.

Definition getPricing (defaultPricing : DefaultPricing)
    (baseId : string) (s : Store) : Pricing :=
  if truthy_str baseId
  then normalizePricing defaultPricing
         (default empty_pricing (pricingMap s !! baseId))
  else normalizePricing defaultPricing empty_pricing.

Record Usage := mkUsage { count : Q; minutes : Q; total_cost : Q }.

Definition getUsage (baseId : option string) (s : Store) : Usage :=
  let normalized := normalizeBaseId baseId in
  if truthy_str normalized then
    let usage := default (mkRawUsage None None None) (usageMap s !! normalized) in
    let c := match u_count usage with
             | Some c => c
             | None => default 0%Q (u_minutes usage)
             end in
    {| count := c; minutes := c; total_cost := default 0%Q (u_cost usage) |}
  else {| count := 0; minutes := 0; total_cost := 0 |}.

Record Daily := mkDaily { date : Z; daily_minutes : Q; daily_cost : Q }.

Definition getDailyUsage (baseId : option string) (dateKey : Z) (s : Store)
  : Daily :=
  let normalized := normalizeBaseId baseId in
  if truthy_str normalized then
    let dailyByDate := default ∅ (dailyUsageMap s !! normalized) in
    let daily := default (mkRawDaily None None) (dailyByDate !! dateKey) in
    {| date := dateKey;
       daily_minutes := default 0%Q (d_minutes daily);
       daily_cost := default 0%Q (d_cost daily) |}
  else {| date := dateKey; daily_minutes := 0; daily_cost := 0 |}.

(** [Number(x.toFixed(4))]: the nearest multiple of 1/10000, a tie going
    away from zero. *)
Definition toFixed4 (x : Q) : Q :=
  if Qgtb 0 x
  then (- (inject_Z (Qfloor (- x * 10000 + (1 # 2))) / 10000))%Q
  else (inject_Z (Qfloor (x * 10000 + (1 # 2))) / 10000)%Q.

(** A number that is finite and [> 0]. *)
Definition positive_num (x : option Q) : option Q :=
  match x with
  | Some v => if Qgtb v 0 then Some v else None
  | None => None
  end.

Record UsageArgs := mkUsageArgs {
  arg_baseId : option string;
  arg_units : option Q;
  arg_minutes : option Q;
  arg_durationMs : option Q;
  arg_occurredAt : option Z
}.

Definition resolveMinutes (a : UsageArgs) : Q :=
  match positive_num (arg_minutes a) with
  | Some m => m
  | None =>
      match positive_num (arg_durationMs a) with
      | Some d => Qmax 1 (inject_Z (Qceiling (d / 60000)))
      | None =>
          match positive_num (arg_units a) with
          | Some u => u
          | None => 1%Q
          end
      end
  end.

(** What [recordUsage] returns: [{ count: 0, cost: 0 }] for a missing
    tenant, the full record otherwise. *)
Inductive UsageResult :=
| NoTenant
| Recorded (r_count r_cost r_dailyMinutes r_dailyCost r_unitPrice : Q)
           (r_unitLabel : string).

Definition recordUsage (defaultPricing : DefaultPricing) (now : Z)
    (a : UsageArgs) (s : Store) : UsageResult * Store :=
  let normalized := normalizeBaseId (arg_baseId a) in
  if negb (truthy_str normalized) then (NoTenant, s)
  else
    let pricing := getPricing defaultPricing normalized s in
    let prev := getUsage (Some normalized) s in
    let resolvedMinutes := resolveMinutes a in
    let dateKey := getDateKey (default now (arg_occurredAt a)) in
    let dailyPrev := getDailyUsage (Some normalized) dateKey s in
    let dailyCostDelta :=
      calculateTieredCost (tieredPrices pricing) (daily_minutes dailyPrev)
        resolvedMinutes (modelUnitPrice pricing) in
    let nextDailyMinutes := (daily_minutes dailyPrev + resolvedMinutes)%Q in
    let nextDailyCost := toFixed4 (daily_cost dailyPrev + dailyCostDelta) in
    let dailyByDate := default ∅ (dailyUsageMap s !! normalized) in
    let dailyByDate' :=
      <[dateKey := mkRawDaily (Some nextDailyMinutes) (Some nextDailyCost)]>
        dailyByDate in
    let nextCount := (count prev + resolvedMinutes)%Q in
    let nextCost := toFixed4 (total_cost prev + dailyCostDelta) in
    (Recorded nextCount nextCost nextDailyMinutes nextDailyCost
       (resolveCurrentTierUnitPrice (tieredPrices pricing) nextDailyMinutes
          (modelUnitPrice pricing))
       (modelUnitLabel pricing),
     {| pricingMap := pricingMap s;
        usageMap :=
          <[normalized :=
              mkRawUsage (Some nextCount) (Some nextCount) (Some nextCost)]>
            (usageMap s);
        dailyUsageMap := <[normalized := dailyByDate']> (dailyUsageMap s) |}).

(** *** The charge bridge ([createUsageRecorder]) *)

(** An entry of [billingTasks]. *)
Record Task := mkTask {
  baseId : option string;
  charged : bool;
  durationMs : option Q
}.

(** The registration block of [submitTask]: the entry is stored when both
    the normalized tenant and the task id are present. *)
Definition register (taskId : string) (rawBaseId : option string)
    (parsedDuration : option Q) (billingTasks : gmap string Task)
  : gmap string Task :=
  let normalizedBaseId := normalizeBaseId rawBaseId in
  if truthy_str normalizedBaseId && truthy_str taskId
  then <[taskId := {| baseId := Some normalizedBaseId; charged := false;
                      durationMs := parsedDuration |}]> billingTasks
  else billingTasks.

(** What the registration block guarantees of every pending entry. *)
Definition registered (billingTasks : gmap string Task) : Prop :=
  forall taskId t, billingTasks !! taskId = Some t ->
    truthy_str taskId = true /\
    truthy_str (normalizeBaseId (baseId t)) = true.

(** The function returned by [createUsageRecorder], which the service names
    [recordUsageOnce] and the specification [chargeOnce]; [None] is [null]. *)
Definition recordUsageOnce (defaultPricing : DefaultPricing) (now : Z)
    (taskId : string) (passedDurationMs : option Q)
    (billingTasks : gmap string Task) (s : Store)
  : option UsageResult * (gmap string Task * Store) :=
  if negb (truthy_str taskId) then (None, (billingTasks, s))
  else
    match billingTasks !! taskId with
    | None => (None, (billingTasks, s))
    | Some cached =>
        if charged cached then (None, (billingTasks, s))
        else
          let normalized := normalizeBaseId (baseId cached) in
          if negb (truthy_str normalized)
          then (None, (delete taskId billingTasks, s))
          else
            let resolvedDurationMs :=
              match positive_num (durationMs cached) with
              | Some d => Some d
              | None => positive_num passedDurationMs
              end in
            let '(r, s') :=
              recordUsage defaultPricing now
                {| arg_baseId := Some normalized; arg_units := None;
                   arg_minutes := None; arg_durationMs := resolvedDurationMs;
                   arg_occurredAt := None |} s in
            (Some r, (delete taskId billingTasks, s'))
    end.

(** The two uses of the pending map: the registration in [submitTask] and
    the charge in [queryTask], in the order in which they happen. *)
Inductive BridgeCall :=
| CallRegister (taskId : string) (rawBaseId : option string)
               (parsedDuration : option Q)
| CallCharge (now : Z) (taskId : string) (observedDurationMs : option Q).

Fixpoint bridge_run (defaultPricing : DefaultPricing) (calls : list BridgeCall)
    (billingTasks : gmap string Task) (s : Store) : gmap string Task * Store :=
  match calls with
  | [] => (billingTasks, s)
  | CallRegister taskId raw d :: rest =>
      bridge_run defaultPricing rest (register taskId raw d billingTasks) s
  | CallCharge now taskId observed :: rest =>
      let r := recordUsageOnce defaultPricing now taskId observed billingTasks s in
      bridge_run defaultPricing rest r.2.1 r.2.2
  end.

(** The call that the bridge makes on the billing store, and the duration
    it bills: the registered one when it is present and positive, the
    observed one otherwise. *)
Definition charge_args (tenant : string) (d : option Q) : UsageArgs :=
  {| arg_baseId := Some tenant; arg_units := None; arg_minutes := None;
     arg_durationMs := d; arg_occurredAt := None |}.

Definition billed_duration (t : Task) (observedDurationMs : option Q)
  : option Q :=
  match positive_num (durationMs t) with
  | Some d => Some d
  | None => observedDurationMs
  end.

(** The store, the pricing and the pending task of the repository's
    usage-recorder test. *)
Definition test_pricing : DefaultPricing :=
  {| def_modelUnitPrice := (5 # 10)%Q; def_modelUnitLabel := "minute";
     def_tieredPrices := None |}.

Definition empty_store : Store :=
  {| pricingMap := ∅; usageMap := ∅; dailyUsageMap := ∅ |}.

(** The fixtures of the repository's billing-store tests: a flat price per
    tenant, and a default schedule with three tiers used on 2025-01-01. *)
Definition flat_test_pricing : DefaultPricing :=
  {| def_modelUnitPrice := (1 # 10)%Q; def_modelUnitLabel := "minute";
     def_tieredPrices := None |}.

Definition flat_test_store : Store :=
  {| pricingMap :=
       {[ "base-1" := {| raw_planPriceById := None;
                         raw_modelUnitPrice := Some (3 # 10)%Q;
                         raw_modelUnitLabel := "call";
                         raw_tieredPrices := None |} ]};
     usageMap := ∅; dailyUsageMap := ∅ |}.

Definition raw_tier (upTo : option Q) (price : Q) : option RawTier :=
  Some (mkRawTier upTo None None (Some price) None None).

Definition tiered_test_pricing : DefaultPricing :=
  {| def_modelUnitPrice := (1 # 10)%Q; def_modelUnitLabel := "minute";
     def_tieredPrices :=
       Some [ raw_tier (Some (2 # 1)%Q) (2 # 10)%Q;
              raw_tier (Some (5 # 1)%Q) (1 # 10)%Q;
              raw_tier None (5 # 100)%Q ] |}.

Definition minutes_args (tenant : string) (m : Q) (occurredAt : option Z)
  : UsageArgs :=
  {| arg_baseId := Some tenant; arg_units := None; arg_minutes := Some m;
     arg_durationMs := None; arg_occurredAt := occurredAt |}.

Definition new_year_2025 : Z := 1735689600000.

Definition test_calls : list BridgeCall :=
  [CallRegister "task-1" (Some " base-1 ") (Some (120000 # 1)%Q)].

Definition test_task : Task :=
  {| baseId := Some "base-1"; charged := false;
     durationMs := Some (120000 # 1)%Q |}.

End Billing.

(** ** The subscription store ([stores/subscription.js]) *)

Module Subscription.
Import Js.

Definition MAX_SAFE_INTEGER : Z := 9007199254740991.

(** A redeem-code record; [usedAt = 0] and [usedBy] empty mean unused, a
    [durationMs] that is missing or not a number is [None]. *)
Record RedeemCode := mkCode {
  codeHash : string;
  durationMs : option Z;
  usedAt : Z;
  usedBy : string
}.

(** [Map.prototype.set] on a map kept in insertion order: an existing key
    keeps its place and takes the new value. *)
Fixpoint map_set (k : string) (v : RedeemCode)
    (m : list (string * RedeemCode)) : list (string * RedeemCode) :=
  match m with
  | [] => [(k, v)]
  | (k', v') :: r =>
      if String.eqb k' k then (k', v) :: r else (k', v') :: map_set k v r
  end.

Definition mergeRedeemCodes (baseList extraList : list RedeemCode)
  : list RedeemCode :=
  (foldl
     (fun m item =>
        if truthy_str (codeHash item)
        then map_set (codeHash item)
               {| codeHash := codeHash item; durationMs := durationMs item;
                  usedAt := usedAt item; usedBy := usedBy item |} m
        else m)
     [] (baseList ++ extraList)).*2.

(** The construction parameters that stay fixed. *)
Record Config := mkConfig {
  trialLimit : Z;
  paidBaseIds : gset string;
  allowBypass : bool
}.

(** The mutable state captured by the closures of the store. *)
Record Store := mkStore {
  usage : gmap string Z;
  paidUntilMap : gmap string Z;
  adminSet : gset string;
  redeemList : list RedeemCode
}.

(** [createSubscriptionStore]: the state right after construction. *)
Definition createSubscriptionStore (adminBaseIds : gset string)
    (paidUntilByBaseId : gmap string Z) (redeemCodes : list RedeemCode)
  : Store :=
  {| usage := ∅; paidUntilMap := paidUntilByBaseId;
     adminSet := adminBaseIds; redeemList := redeemCodes |}.

(** The texts of the [message] field. *)
Inductive Message :=
| MsgMissingBaseId           (* 缺少 baseId *)
| MsgBypass                  (* 开发环境已放行 *)
| MsgAdmin                   (* 管理员免付 *)
| MsgPaid                    (* 已开通 *)
| MsgTrialLeft (n : Z)       (* 剩余试用 n 次 *)
| MsgTrialUsedUp.            (* 试用已用完 *)

Record Status := buildStatus {
  baseId : string;
  isPaid : bool;
  freeRemaining : Z;
  allowed : bool;
  message : Message;
  paidUntil : option Z
}.

(** The paid-until map holds texts: [setPaidUntil] stores [String(until)]
    and [getPaidUntil] reads [Number.parseInt(text, 10)].  In the model the
    map keeps the number whose text is stored, and [parseInt_String] is what
    [parseInt] reads back from that text.  Below [1e21] the text is the
    plain decimal numeral and the number comes back; from [1e21] on the text
    is in exponent notation ([1e+21], [1.5e+24]) and [parseInt] stops at the
    point or at the [e], so only the sign and the first digit come back.
    The digits are those of the exact integer. *)
Fixpoint leading_digit (fuel : nat) (n : Z) : Z :=
  match fuel with
  | O => n
  | S fuel' => if n <? 10 then n else leading_digit fuel' (n / 10)
  end.

Definition parseInt_String (n : Z) : Z :=
  if Z.abs n <? 10 ^ 21 then n
  else Z.sgn n * leading_digit (Z.to_nat (Z.log2 (Z.abs n))) (Z.abs n).

(** [getPaidUntil]: a stored text is never empty, so [until ? ... : 0] is 0
    only for a tenant without an entry. *)
Definition getPaidUntil (baseId : string) (s : Store) : Z :=
  match paidUntilMap s !! baseId with
  | Some until => parseInt_String until
  | None => 0
  end.

Definition setPaidUntil (baseId : string) (until : Z) (s : Store) : Store :=
  if truthy_str baseId
  then {| usage := usage s;
          paidUntilMap := <[baseId := until]> (paidUntilMap s);
          adminSet := adminSet s; redeemList := redeemList s |}
  else s.

Definition setAdmin (baseId : option string) (enabled : bool) (s : Store)
  : bool * Store :=
  let normalized := normalizeBaseId baseId in
  if truthy_str normalized
  then (true,
        {| usage := usage s; paidUntilMap := paidUntilMap s;
           adminSet := if enabled then {[normalized]} ∪ adminSet s
                       else adminSet s ∖ {[normalized]};
           redeemList := redeemList s |})
  else (false, s).

Record PaidInfo := mkPaidInfo {
  paid : bool;
  info_paidUntil : Z;
  admin : bool
}.

(** [isPaid] of the store; in the model the name belongs to the field of
    [Status]. *)
Definition isPaidInfo (cfg : Config) (now : Z) (baseId : string) (s : Store)
  : PaidInfo :=
  if decide (baseId ∈ adminSet s)
  then mkPaidInfo true MAX_SAFE_INTEGER true
  else if decide (baseId ∈ paidBaseIds cfg)
  then mkPaidInfo true MAX_SAFE_INTEGER false
  else
    let until := getPaidUntil baseId s in
    if negb (truthy_Z until) then mkPaidInfo false 0 false
    else if now <=? until then mkPaidInfo true until false
    else mkPaidInfo false until false.

Definition getFreeRemaining (cfg : Config) (baseId : string) (s : Store) : Z :=
  let used := default 0 (usage s !! baseId) in
  Z.max 0 (trialLimit cfg - used).

Definition trial_message (n : Z) : Message :=
  if 0 <? n then MsgTrialLeft n else MsgTrialUsedUp.

Definition getStatus (cfg : Config) (now : Z) (rawBaseId : option string)
    (s : Store) : Status :=
  let baseId := normalizeBaseId rawBaseId in
  if negb (truthy_str baseId)
  then buildStatus baseId false 0 false MsgMissingBaseId None
  else if allowBypass cfg
  then buildStatus baseId true (trialLimit cfg) true MsgBypass
         (Some MAX_SAFE_INTEGER)
  else
    let paidInfo := isPaidInfo cfg now baseId s in
    if paid paidInfo
    then buildStatus baseId true (trialLimit cfg) true
           (if admin paidInfo then MsgAdmin else MsgPaid)
           (Some (info_paidUntil paidInfo))
    else
      let freeRemaining := getFreeRemaining cfg baseId s in
      buildStatus baseId false freeRemaining (0 <? freeRemaining)
        (trial_message freeRemaining) (Some (info_paidUntil paidInfo)).

Definition consume (cfg : Config) (now : Z) (rawBaseId : option string)
    (s : Store) : Status * Store :=
  let baseId := normalizeBaseId rawBaseId in
  if negb (truthy_str baseId)
  then (buildStatus baseId false 0 false MsgMissingBaseId None, s)
  else if allowBypass cfg
  then (buildStatus baseId true (trialLimit cfg) true MsgBypass
          (Some MAX_SAFE_INTEGER), s)
  else
    let paidInfo := isPaidInfo cfg now baseId s in
    if paid paidInfo
    then (buildStatus baseId true (trialLimit cfg) true
            (if admin paidInfo then MsgAdmin else MsgPaid)
            (Some (info_paidUntil paidInfo)), s)
    else
      let freeRemaining := getFreeRemaining cfg baseId s in
      if freeRemaining <=? 0
      then (buildStatus baseId false 0 false MsgTrialUsedUp
              (Some (info_paidUntil paidInfo)), s)
      else
        let s' :=
          {| usage := <[baseId := default 0 (usage s !! baseId) + 1]> (usage s);
             paidUntilMap := paidUntilMap s; adminSet := adminSet s;
             redeemList := redeemList s |} in
        let nextRemaining := getFreeRemaining cfg baseId s' in
        (buildStatus baseId false nextRemaining true
           (trial_message nextRemaining) (Some (info_paidUntil paidInfo)), s').

(** [activatePlan]; [paidAt || Date.now()] takes the clock when [paidAt] is
    missing or zero. *)
Definition activatePlan (now : Z) (baseId : option string)
    (durationMs : option Z) (paidAt : option Z) (s : Store)
  : option Z * Store :=
  let normalized := normalizeBaseId baseId in
  match durationMs with
  | Some d =>
      if truthy_str normalized && truthy_Z d then
        let paidAt' := if truthy_optZ paidAt then default now paidAt else now in
        let start := Z.max (Z.max now paidAt') (getPaidUntil normalized s) in
        let nextUntil := start + d in
        (Some nextUntil, setPaidUntil normalized nextUntil s)
      else (None, s)
  | None => (None, s)
  end.

Section Codes.

(** [hashCode] is the SHA-256 digest in hexadecimal; the store only
    compares digests. *)
Variable hashCode : string -> string.

Definition addRedeemCode (code : string) (durationMs : option Z) (s : Store)
  : bool * Store :=
  if truthy_str code && truthy_optZ durationMs
  then (true,
        {| usage := usage s; paidUntilMap := paidUntilMap s;
           adminSet := adminSet s;
           redeemList :=
             redeemList s ++ [mkCode (hashCode code) durationMs 0 EmptyString] |})
  else (false, s).

Inductive RedeemError :=
| MissingBaseIdOrCode        (* 缺少 baseId 或兑换码 *)
| InvalidCode                (* 兑换码无效 *)
| CodeAlreadyUsed.           (* 兑换码已使用 *)

Inductive RedeemResult :=
| RedeemFailed (e : RedeemError)
| RedeemOk (paidUntil : option Z).

(** [item.usedAt && item.usedBy] *)
Definition is_used (item : RedeemCode) : bool :=
  truthy_Z (usedAt item) && truthy_str (usedBy item).

(** [redeemList.find]: the first record with the digest, and its place, so
    that the assignments to [item] update the list in place. *)
Definition find_code (h : string) (l : list RedeemCode)
  : option (nat * RedeemCode) :=
  list_find (fun x => codeHash x = h) l.

Definition redeem (now : Z) (baseId : option string) (code : string)
    (s : Store) : RedeemResult * Store :=
  let normalized := normalizeBaseId baseId in
  if negb (truthy_str normalized && truthy_str code)
  then (RedeemFailed MissingBaseIdOrCode, s)
  else
    match find_code (hashCode code) (redeemList s) with
    | None => (RedeemFailed InvalidCode, s)
    | Some (i, item) =>
        if is_used item then (RedeemFailed CodeAlreadyUsed, s)
        else
          let '(paidUntil, s1) :=
            activatePlan now (Some normalized) (durationMs item) (Some now) s in
          (RedeemOk paidUntil,
           {| usage := usage s1; paidUntilMap := paidUntilMap s1;
              adminSet := adminSet s1;
              redeemList :=
                <[i := {| codeHash := codeHash item;
                          durationMs := durationMs item;
                          usedAt := now; usedBy := normalized |}]>
                  (redeemList s1) |})
    end.

(** The calls a client can make on the store, and a run of them, each with
    the clock reading of its call. *)
Inductive Op :=
| OpGetStatus (rawBaseId : option string)
| OpConsume (rawBaseId : option string)
| OpActivatePlan (baseId : option string) (durationMs paidAt : option Z)
| OpSetAdmin (baseId : option string) (enabled : bool)
| OpAddRedeemCode (code : string) (durationMs : option Z)
| OpRedeem (baseId : option string) (code : string).

Inductive Reply :=
| ReplyStatus (st : Status)
| ReplyPaidUntil (r : option Z)
| ReplyBool (b : bool)
| ReplyRedeem (r : RedeemResult).

Definition step (cfg : Config) (now : Z) (op : Op) (s : Store)
  : Reply * Store :=
  match op with
  | OpGetStatus raw => (ReplyStatus (getStatus cfg now raw s), s)
  | OpConsume raw =>
      let '(st, s') := consume cfg now raw s in (ReplyStatus st, s')
  | OpActivatePlan b d p =>
      let '(r, s') := activatePlan now b d p s in (ReplyPaidUntil r, s')
  | OpSetAdmin b e =>
      let '(r, s') := setAdmin b e s in (ReplyBool r, s')
  | OpAddRedeemCode c d =>
      let '(r, s') := addRedeemCode c d s in (ReplyBool r, s')
  | OpRedeem b c =>
      let '(r, s') := redeem now b c s in (ReplyRedeem r, s')
  end.

Fixpoint run (cfg : Config) (ops : list (Z * Op)) (s : Store)
  : list Reply * Store :=
  match ops with
  | [] => ([], s)
  | (now, op) :: rest =>
      let '(r, s1) := step cfg now op s in
      let '(rs, s2) := run cfg rest s1 in
      (r :: rs, s2)
  end.

End Codes.

(** *** Statements about the store *)

(** Two activations in succession at one instant, the second one later than
    the first by exactly [D]. *)
Definition stacks_by (now : Z) (baseId : option string) (D : Z) (s : Store)
  : Prop :=
  exists first second s1 s2,
    activatePlan now baseId (Some D) (Some now) s = (Some first, s1) /\
    activatePlan now baseId (Some D) (Some now) s1 = (Some second, s2) /\
    second = first + D /\ first < second.

(** A tenant that only the trial can let in: no bypass, not an administrator,
    not on the static paid list, no unexpired paid period. *)
Definition uncovered (cfg : Config) (now : Z) (tenant : string) (s : Store)
  : Prop :=
  allowBypass cfg = false /\
  (tenant ∉ adminSet s) /\
  (tenant ∉ paidBaseIds cfg) /\
  ~ (getPaidUntil tenant s <> 0 /\ now <= getPaidUntil tenant s).

(** [consume] called again and again, once per clock reading. *)
Fixpoint consume_repeat (cfg : Config) (nows : list Z)
    (rawBaseId : option string) (s : Store) : list Status * Store :=
  match nows with
  | [] => ([], s)
  | now :: rest =>
      let '(st, s1) := consume cfg now rawBaseId s in
      let '(sts, s2) := consume_repeat cfg rest rawBaseId s1 in
      (st :: sts, s2)
  end.

(** The trial counters only count. *)
Definition counters_nonneg (s : Store) : Prop :=
  map_Forall (fun _ n => 0 <= n) (usage s).

(** The earliest record with digest [h] is marked used. *)
Definition first_used (h : string) (s : Store) : Prop :=
  exists i item, find_code h (redeemList s) = Some (i, item) /\
                 is_used item = true.

(** A store constructed without administrators, paid periods or codes, and
    the configuration of the repository's trial test. *)
Definition fresh_store : Store := createSubscriptionStore ∅ ∅ [].

Definition trial_config : Config :=
  {| trialLimit := 1; paidBaseIds := ∅; allowBypass := false |}.

(** The store after tenant [t] bought 1000 ms at clock reading 1000. *)
Definition paid_store : Store :=
  (activatePlan 1000 (Some "t") (Some 1000) (Some 1000) fresh_store).2.

(** The store after the one trial use of tenant [base-1] is consumed, and
    the status of that call. *)
Definition used_up_store : Store :=
  (consume trial_config 0 (Some "base-1") fresh_store).2.

Definition used_up_status : Status :=
  buildStatus "base-1" false 0 true MsgTrialUsedUp (Some 0).

Definition trial_run : list (Z * Op) :=
  [(0, OpConsume (Some "base-1")); (5, OpGetStatus (Some "base-1"));
   (9, OpConsume (Some "base-1"))].

(** A stand-in digest for worked examples: the code itself. *)
Definition plain_hash (code : string) : string := code.

(** A store to which the same plaintext code was added twice, and the
    store after tenant [a] redeemed it at clock reading 5. *)
Definition promo_store : Store :=
  (addRedeemCode plain_hash "PROMO" (Some 1000)
     (addRedeemCode plain_hash "PROMO" (Some 1000) fresh_store).2).2.

Definition promo_redeemed : Store :=
  (redeem plain_hash 5 (Some "a") "PROMO" promo_store).2.

(** A store built from a persisted snapshot whose only code record has no
    [durationMs]. *)
Definition gift_record : RedeemCode := mkCode "GIFT" None 0 EmptyString.

Definition gift_store : Store :=
  createSubscriptionStore ∅ ∅ (mergeRedeemCodes [gift_record] []).

End Subscription.

(** ** The persistence sink ([createWriteStore] of [services/store.service.js]) *)

Module Persist.
Import Js.

(** The persisted snapshot.  The argument [data] of the write function and
    the cache object have the same six properties; a property that is
    [undefined] or [null] is [None]. *)
Record Snapshot := mkSnapshot {
  paidUntilByBaseId : option (gmap string Z);
  adminBaseIdList : option (list string);
  redeemCodes : option (list Subscription.RedeemCode);
  pricingByBaseId : option (gmap string Billing.RawPricing);
  usageByBaseId : option (gmap string Billing.RawUsage);
  dailyUsageByBaseId : option (gmap string (gmap Z Billing.RawDaily))
}.

(** [readStore]: every property is filled in, from the parsed file when it
    has the property, with an empty value otherwise ([parsed] is [None] when
    there is no file or it does not parse). *)
Definition readStore (parsed : option Snapshot) : Snapshot :=
  match parsed with
  | None => mkSnapshot (Some ∅) (Some []) (Some []) (Some ∅) (Some ∅) (Some ∅)
  | Some p =>
      mkSnapshot (Some (default ∅ (paidUntilByBaseId p)))
        (Some (default [] (adminBaseIdList p)))
        (Some (default [] (redeemCodes p)))
        (Some (default ∅ (pricingByBaseId p)))
        (Some (default ∅ (usageByBaseId p)))
        (Some (default ∅ (dailyUsageByBaseId p)))
  end.

(** [a ?? b ?? c] *)
Definition coalesce {A} (a b : option A) (c : A) : A :=
  match a with
  | Some v => v
  | None => default c b
  end.

(** The six assignments to [cache] in the write function. *)
Definition merge (data cache : Snapshot) : Snapshot :=
  {| paidUntilByBaseId :=
       Some (coalesce (paidUntilByBaseId data) (paidUntilByBaseId cache) ∅);
     adminBaseIdList :=
       Some (coalesce (adminBaseIdList data) (adminBaseIdList cache) []);
     redeemCodes :=
       Some (coalesce (redeemCodes data) (redeemCodes cache) []);
     pricingByBaseId :=
       Some (coalesce (pricingByBaseId data) (pricingByBaseId cache) ∅);
     usageByBaseId :=
       Some (coalesce (usageByBaseId data) (usageByBaseId cache) ∅);
     dailyUsageByBaseId :=
       Some (coalesce (dailyUsageByBaseId data) (dailyUsageByBaseId cache) ∅) |}.

(** The state of the sink: the cache object and the chain of writes, oldest
    first, each with the path and the payload it writes. *)
Record Sink := mkSink {
  cache : Snapshot;
  pendingWrite : list (string * string)
}.

Section Write.

(** [JSON.stringify(_, null, 2)] *)
Variable stringify : Snapshot -> string.

(** The function returned by [createWriteStore storePath cache]. *)
Definition writeStore (storePath : string) (data : Snapshot) (k : Sink) : Sink :=
  if negb (truthy_str storePath) then k
  else
    let cache' := merge data (cache k) in
    let payload := stringify cache' in
    {| cache := cache'; pendingWrite := pendingWrite k ++ [(storePath, payload)] |}.

End Write.

(** A field after a write, as the specification reads it: the snapshot's
    value when the snapshot has the field, the cached value otherwise. *)
Definition field_merged {A} (data before after : option A) : Prop :=
  match data with
  | Some v => after = Some v
  | None => after = before
  end.

Definition merged_fieldwise (data before after : Snapshot) : Prop :=
  field_merged (paidUntilByBaseId data) (paidUntilByBaseId before)
    (paidUntilByBaseId after) /\
  field_merged (adminBaseIdList data) (adminBaseIdList before)
    (adminBaseIdList after) /\
  field_merged (redeemCodes data) (redeemCodes before) (redeemCodes after) /\
  field_merged (pricingByBaseId data) (pricingByBaseId before)
    (pricingByBaseId after) /\
  field_merged (usageByBaseId data) (usageByBaseId before)
    (usageByBaseId after) /\
  field_merged (dailyUsageByBaseId data) (dailyUsageByBaseId before)
    (dailyUsageByBaseId after).

(** Every field of the cache is present, as after [readStore] and after
    every write. *)
Definition complete (c : Snapshot) : Prop :=
  is_Some (paidUntilByBaseId c) /\ is_Some (adminBaseIdList c) /\
  is_Some (redeemCodes c) /\ is_Some (pricingByBaseId c) /\
  is_Some (usageByBaseId c) /\ is_Some (dailyUsageByBaseId c).

(** The sink that [initStores] builds, after a number of writes: the cache
    starts as [readStore] returns it, and the path is the one the sink was
    created with. *)
Definition sink_after (stringify : Snapshot -> string) (storePath : string)
    (parsed : option Snapshot) (writes : list Snapshot) : Sink :=
  foldl (fun k data => writeStore stringify storePath data k)
    {| cache := readStore parsed; pendingWrite := [] |} writes.

(** One call of the write function merges field by field and queues the
    serialized merged cache. *)
Definition write_merges (stringify : Snapshot -> string) (storePath : string)
    (data : Snapshot) (k : Sink) : Prop :=
  let k' := writeStore stringify storePath data k in
  merged_fieldwise data (cache k) (cache k') /\
  pendingWrite k' = pendingWrite k ++ [(storePath, stringify (cache k'))].

(** A snapshot as the subscription store passes it, with three fields. *)
Definition admin_snapshot : Snapshot :=
  {| paidUntilByBaseId := Some ∅; adminBaseIdList := Some ["admin-base"];
     redeemCodes := Some []; pricingByBaseId := None; usageByBaseId := None;
     dailyUsageByBaseId := None |}.

(** The store path when [SUBSCRIPTION_STORE_PATH] is not set. *)
Definition no_path : string := EmptyString.

(** A stand-in serializer for worked examples. *)
Definition count_admins (c : Snapshot) : string :=
  match adminBaseIdList c with
  | Some (_ :: _) => "admins"
  | _ => "none"
  end.

End Persist.

(** ** More of the subscription store *)

Module SubscriptionMore.
Import Js Subscription.

(** [String.prototype.split(",")]: the pieces between the commas; a text
    without a comma is its own single piece. *)
Fixpoint split_comma (s : string) : list string :=
  match s with
  | EmptyString => [EmptyString]
  | String c r =>
      if Ascii.eqb c ","%char then EmptyString :: split_comma r
      else
        match split_comma r with
        | h :: t => String c h :: t
        | [] => [String c EmptyString]
        end
  end.

(** [parsePaidBaseIds]: the pieces, trimmed, without the empty ones, as a
    set. *)
Definition parsePaidBaseIds (value : string) : gset string :=
  list_to_set (List.filter truthy_str (List.map trim (split_comma value))).

(** [Array.prototype.join(",")] *)
Fixpoint join_comma (l : list string) : string :=
  match l with
  | [] => EmptyString
  | [x] => x
  | x :: rest => append x (String ","%char (join_comma rest))
  end.

Fixpoint comma_free (s : string) : bool :=
  match s with
  | EmptyString => true
  | String c r => negb (Ascii.eqb c ","%char) && comma_free r
  end.

(** A tenant key as the stores use it: not empty and left alone by [trim]. *)
Definition tenant_key (x : string) : Prop :=
  x <> EmptyString /\ trim x = x.

(** The calls of a run that were let through. *)
Definition allowed_count (sts : list Status) : nat :=
  length (List.filter allowed sts).

(** A reply that reports a refusal: a status that is not allowed, [null],
    [false], or [{ ok: false }]. *)
Definition reply_failed (r : Reply) : bool :=
  match r with
  | ReplyStatus st => negb (allowed st)
  | ReplyPaidUntil None => true
  | ReplyPaidUntil (Some _) => false
  | ReplyBool b => negb b
  | ReplyRedeem (RedeemFailed _) => true
  | ReplyRedeem (RedeemOk _) => false
  end.

(** Reading the insertion-ordered map of [mergeRedeemCodes] by key, and
    what one round of its [forEach] does to the map. *)
Fixpoint alookup (k : string) (m : list (string * RedeemCode))
  : option RedeemCode :=
  match m with
  | [] => None
  | (k', v) :: r => if String.eqb k' k then Some v else alookup k r
  end.

Definition merge_step (m : list (string * RedeemCode)) (item : RedeemCode)
  : list (string * RedeemCode) :=
  if truthy_str (codeHash item)
  then map_set (codeHash item)
         {| codeHash := codeHash item; durationMs := durationMs item;
            usedAt := usedAt item; usedBy := usedBy item |} m
  else m.

(** The map of [mergeRedeemCodes] has one entry per key, each entry is
    filed under the digest of its record, and no key is empty. *)
Definition well_keyed (m : list (string * RedeemCode)) : Prop :=
  NoDup m.*1 /\
  Forall (fun kv => codeHash kv.2 = kv.1 /\ truthy_str kv.1 = true) m.

(** The digests of a list of code records. *)
Definition hashes (l : list RedeemCode) : list string := List.map codeHash l.

(** [r] is the last record of [l] with its digest. *)
Definition last_with_hash (r : RedeemCode) (l : list RedeemCode) : Prop :=
  exists before after,
    l = before ++ r :: after /\
    Forall (fun x => codeHash x <> codeHash r) after.

(** A persisted code that was used, and the seed record of the same code. *)
Definition used_seed : RedeemCode := mkCode "FREE-1M" (Some 2592000000) 7 "a".
Definition fresh_seed : RedeemCode := mkCode "FREE-1M" (Some 2592000000) 0 EmptyString.

Definition trial_config3 : Config :=
  {| trialLimit := 3; paidBaseIds := ∅; allowBypass := false |}.

End SubscriptionMore.


(** ** More of the billing store *)

Module BillingMore.
Import Js Billing.

(** What [pricingMap] holds after [setPricing]: the normalized pricing
    object, read again as a raw one.  A boundary of [Infinity] is not a
    finite number, so it reads as a missing [upToMinutes]. *)
Definition stored_tier (t : Tier) : option RawTier :=
  Some {| raw_upToMinutes := upToMinutes t; raw_upToHours := None;
          raw_upTo := None; raw_unitPrice := Some (unitPrice t);
          raw_unitPricePerMinute := None; raw_unitPricePerHour := None |}.

Definition stored_pricing (p : Pricing) : RawPricing :=
  {| raw_planPriceById := Some (planPriceById p);
     raw_modelUnitPrice := Some (modelUnitPrice p);
     raw_modelUnitLabel := modelUnitLabel p;
     raw_tieredPrices := Some (List.map stored_tier (tieredPrices p)) |}.

Definition setPricing (defaultPricing : DefaultPricing)
    (baseId : option string) (nextPricing : option RawPricing) (s : Store)
  : bool * Store :=
  let normalized := normalizeBaseId baseId in
  if negb (truthy_str normalized) then (false, s)
  else
    let pricing :=
      normalizePricing defaultPricing (default empty_pricing nextPricing) in
    (true,
     {| pricingMap := <[normalized := stored_pricing pricing]> (pricingMap s);
        usageMap := usageMap s;
        dailyUsageMap := dailyUsageMap s |}).

(** Every price of the schedule is a price one can be charged. *)
Definition prices_nonneg (tiers : list Tier) : Prop :=
  Forall (fun t => (0 <= unitPrice t)%Q) tiers.

(** No price of the schedule is above [cap]. *)
Definition prices_at_most (cap : Q) (tiers : list Tier) : Prop :=
  Forall (fun t => (unitPrice t <= cap)%Q) tiers.

(** A pricing profile with two tiers given out of order, one of them by the
    hour. *)
Definition unordered_pricing : RawPricing :=
  {| raw_planPriceById := None; raw_modelUnitPrice := Some (1 # 10)%Q;
     raw_modelUnitLabel := "min";
     raw_tieredPrices :=
       Some [ Some (mkRawTier None None None (Some (5 # 100)%Q) None None);
              Some (mkRawTier None (Some (1 # 1)%Q) None (Some (2 # 10)%Q) None
                      None) ] |}.

End BillingMore.

(** ** Constants, services and controllers
    ([config/constants.js], [services/billing.service.js],
    [services/store.service.js], [controllers/billing.controller.js]) *)

Module Services.
Import Js.

Definition seedAdminBaseIds : list string := ["Caasb9qNgaJ6jgskH7OcAkMOnaf"].

Definition seedRedeemCodeList : list string :=
  ["FREE-1M-H0K4-3N8Q"; "FREE-1M-T9R2-5J6P"; "FREE-1M-X7M1-8V2C"].

(** The text of [usageNote]. *)
Inductive UsageNote :=
| NoteSeparate                               (* 模型调用费用另计 *)
| NoteTiered                                 (* 模型调用费用按阶梯计费 *)
| NotePerUnit (price : Q) (label : string).  (* 模型调用费用 p元/label *)

(** A plan of [billingPlans]; the display [label] is left out. *)
Record Plan := mkPlan {
  plan_id : string;
  plan_price : Q;
  plan_durationMs : Z;
  usageNote : UsageNote
}.

Definition billingPlans : list Plan :=
  [ mkPlan "monthly" (99 # 10) (30 * 24 * 60 * 60 * 1000) NoteSeparate;
    mkPlan "quarterly" (199 # 10) (90 * 24 * 60 * 60 * 1000) NoteSeparate;
    mkPlan "halfyear" (499 # 10) (180 * 24 * 60 * 60 * 1000) NoteSeparate ].

Definition formatUsageNote (pricing : Billing.Pricing) : UsageNote :=
  match Billing.tieredPrices pricing with
  | _ :: _ => NoteTiered
  | [] =>
      if Qleb (Billing.modelUnitPrice pricing) 0 then NoteSeparate
      else NotePerUnit (Billing.modelUnitPrice pricing)
             (Billing.modelUnitLabel pricing)
  end.

(** [{ ...plan, price: ..., usageNote: ... }] *)
Definition priced (pricing : Billing.Pricing) (plan : Plan) : Plan :=
  {| plan_id := plan_id plan;
     plan_price :=
       default (plan_price plan)
         (Billing.planPriceById pricing !! plan_id plan);
     plan_durationMs := plan_durationMs plan;
     usageNote := formatUsageNote pricing |}.

(** [billingPlans.find((item) => item.id === planId)] *)
Definition find_plan (planId : string) : option Plan :=
  List.find (fun item => String.eqb (plan_id item) planId) billingPlans.

Definition resolvePlan (defaultPricing : Billing.DefaultPricing)
    (baseId planId : string) (billingStore : Billing.Store) : option Plan :=
  match find_plan planId with
  | None => None
  | Some plan =>
      Some (priced (Billing.getPricing defaultPricing baseId billingStore) plan)
  end.

Definition getPlansForBaseId (defaultPricing : Billing.DefaultPricing)
    (baseId : string) (billingStore : Billing.Store) : list Plan :=
  List.map (priced (Billing.getPricing defaultPricing baseId billingStore))
    billingPlans.

(** An order of [billingOrders]. *)
Inductive OrderStatus := Pending | Paid.

Record Order := mkOrder {
  orderId : string;
  baseId : string;
  planId : string;
  price : Q;
  status : OrderStatus;
  createdAt : Z;
  paidAt : option Z;
  paidUntil : option Z
}.

(** [checkout]: [uuid] is the value of [crypto.randomUUID()]; the payment
    address of the response is left out. *)
Inductive CheckoutResult :=
| CheckoutError (httpStatus : Z)
| CheckoutOk (orderId : string).

Definition checkout (defaultPricing : Billing.DefaultPricing) (uuid : string)
    (now : Z) (rawBaseId : option string) (rawPlanId : string)
    (billingStore : Billing.Store) (billingOrders : gmap string Order)
  : CheckoutResult * gmap string Order :=
  let normalized := normalizeBaseId rawBaseId in
  if negb (truthy_str normalized) then (CheckoutError 400, billingOrders)
  else
    match resolvePlan defaultPricing normalized rawPlanId billingStore with
    | None => (CheckoutError 400, billingOrders)
    | Some plan =>
        (CheckoutOk uuid,
         <[uuid := {| orderId := uuid; baseId := normalized;
                      planId := plan_id plan; price := plan_price plan;
                      status := Pending; createdAt := now;
                      paidAt := None; paidUntil := None |}]> billingOrders)
    end.

Inductive FinalizeResult :=
| FinalizeFailed (httpStatus : Z)
| FinalizeOk (paidUntil : option Z).

(** [finalizePaidOrder]; the state is the order map and the subscription
    store. *)
Definition finalizePaidOrder (now : Z) (oid : string) (paidAtArg : option Z)
    (billingOrders : gmap string Order) (s : Subscription.Store)
  : FinalizeResult * gmap string Order * Subscription.Store :=
  match billingOrders !! oid with
  | None => (FinalizeFailed 404, billingOrders, s)
  | Some order =>
      match find_plan (planId order) with
      | None => (FinalizeFailed 400, billingOrders, s)
      | Some plan =>
          let paidAt' :=
            if truthy_optZ paidAtArg then default now paidAtArg else now in
          let '(until, s') :=
            Subscription.activatePlan now (Some (baseId order))
              (Some (plan_durationMs plan)) (Some paidAt') s in
          (FinalizeOk until,
           <[oid := {| orderId := orderId order; baseId := baseId order;
                       planId := planId order; price := price order;
                       status := Paid; createdAt := createdAt order;
                       paidAt := Some paidAt'; paidUntil := until |}]>
             billingOrders,
           s')
      end
  end.

(** The handler [addRedeemCode] of the controller: [authorized] is the
    answer of [allowAdmin], [parsedDays] the value of
    [Number.parseInt(durationDays || "30", 10)], [None] when it is [NaN].
    The result is the HTTP status. *)
Definition addRedeemCodeHandler (hashCode : string -> string)
    (authorized : bool) (code : string) (parsedDays : option Z)
    (s : Subscription.Store) : Z * Subscription.Store :=
  if negb authorized then (401, s)
  else
    match parsedDays with
    | None => (400, s)
    | Some days =>
        if days <=? 0 then (400, s)
        else
          let durationMs := days * 24 * 60 * 60 * 1000 in
          let '(ok, s') :=
            Subscription.addRedeemCode hashCode code (Some durationMs) s in
          if ok then (200, s') else (400, s')
    end.

(** The environment that [initStores] reads.  [trial_limit] is the value
    of [Number.parseInt(TRIAL_LIMIT || "2", 10)]; a variable that is not
    set is the empty text. *)
Record Env := mkEnv {
  node_env : string;
  subscription_store_path : string;
  trial_limit : Z;
  subscription_bypass : string;
  paid_base_ids : string;
  admin_base_ids : string
}.

Record Stores := mkStores {
  config : Subscription.Config;
  subscriptionStore : Subscription.Store;
  billingStore : Billing.Store;
  sink : Persist.Sink
}.

Definition seedRedeemCodes (hashCode : string -> string)
  : list Subscription.RedeemCode :=
  List.map
    (fun code =>
       Subscription.mkCode (hashCode code) (Some (30 * 24 * 60 * 60 * 1000)) 0
         EmptyString)
    seedRedeemCodeList.

(** [initStores]; [parsed] is the content of the store file as [readStore]
    parses it. *)
Definition initStores (hashCode : string -> string) (e : Env)
    (parsed : option Persist.Snapshot) : Stores :=
  let env := if truthy_str (node_env e) then node_env e else "development" in
  let allowBypass :=
    negb (String.eqb env "production")
    && String.eqb (subscription_bypass e) "true" in
  let paidBaseIds := SubscriptionMore.parsePaidBaseIds (paid_base_ids e) in
  let adminBaseIds := SubscriptionMore.parsePaidBaseIds (admin_base_ids e) in
  let storeData :=
    Persist.readStore
      (if truthy_str (subscription_store_path e) then parsed else None) in
  let mergedAdminBaseIds : gset string :=
    adminBaseIds
    ∪ list_to_set (default [] (Persist.adminBaseIdList storeData))
    ∪ list_to_set seedAdminBaseIds in
  let mergedRedeemCodes :=
    Subscription.mergeRedeemCodes (default [] (Persist.redeemCodes storeData))
      (seedRedeemCodes hashCode) in
  {| config :=
       {| Subscription.trialLimit := trial_limit e;
          Subscription.paidBaseIds := paidBaseIds;
          Subscription.allowBypass := allowBypass |};
     subscriptionStore :=
       Subscription.createSubscriptionStore mergedAdminBaseIds
         (default ∅ (Persist.paidUntilByBaseId storeData)) mergedRedeemCodes;
     billingStore :=
       {| Billing.pricingMap := default ∅ (Persist.pricingByBaseId storeData);
          Billing.usageMap := default ∅ (Persist.usageByBaseId storeData);
          Billing.dailyUsageMap :=
            default ∅ (Persist.dailyUsageByBaseId storeData) |};
     sink := {| Persist.cache := storeData; Persist.pendingWrite := [] |} |}.

(** A stored snapshot in which the first seed code is marked used, and an
    environment for worked examples. *)
Definition used_seed_snapshot : Persist.Snapshot :=
  {| Persist.paidUntilByBaseId := None;
     Persist.adminBaseIdList := None;
     Persist.redeemCodes :=
       Some [Subscription.mkCode "FREE-1M-H0K4-3N8Q" (Some 2592000000) 7 "a"];
     Persist.pricingByBaseId := None; Persist.usageByBaseId := None;
     Persist.dailyUsageByBaseId := None |}.

Definition test_env : Env :=
  {| node_env := "test"; subscription_store_path := "store.json";
     trial_limit := 2; subscription_bypass := EmptyString;
     paid_base_ids := EmptyString; admin_base_ids := EmptyString |}.

Definition monthly_order : Order :=
  {| orderId := "o-1"; baseId := "base-1"; planId := "monthly";
     price := 99 # 10; status := Pending; createdAt := 1000;
     paidAt := None; paidUntil := None |}.

End Services.

(** ** The write chain and the recognition result
    ([createWriteStore] of [services/store.service.js],
    [extractDurationMs] of [volcengineClient.js]) *)

Module More.
Import Js.

(** The value of a snapshot field after a run of writes: the value of the
    last write that carries the field, and the starting value when no write
    carries it. *)
Fixpoint last_written {A} (field : Persist.Snapshot -> option A)
    (writes : list Persist.Snapshot) (start : A) : A :=
  match writes with
  | [] => start
  | w :: rest => last_written field rest (default start (field w))
  end.

(** A recognition result.  [duration] is [Number(result.duration)] when it
    is finite; [utterances] is there when [result.utterances] is an array,
    and holds for each item [Number(item?.end_time)] when it is finite. *)
Record AsrResult := mkAsrResult {
  duration : option Q;
  utterances : option (list (option Q))
}.

(** [Math.round]: the nearest integer, a tie going up. *)
Definition round (x : Q) : Z := Qfloor (x + (1 # 2)).

(** The [reduce] over the utterances. *)
Definition max_end (items : list (option Q)) : Q :=
  foldl (fun max item =>
           match item with
           | None => max
           | Some e => Qmax max e
           end) 0%Q items.

Definition extractDurationMs (result : option AsrResult) : Z :=
  match result with
  | None => 0
  | Some r =>
      match Billing.positive_num (duration r) with
      | Some durationValue =>
          if Qgtb 1000 durationValue then round (durationValue * 1000)
          else round durationValue
      | None =>
          match utterances r with
          | Some items =>
              let maxEnd := max_end items in
              if Qgtb maxEnd 0 then round maxEnd else 0
          | None => 0
          end
      end
  end.

(** Two writes of the subscription store and one of the billing store, as
    they follow each other after a purchase and a charge. *)
Definition purchase_writes : list Persist.Snapshot :=
  [ Persist.admin_snapshot;
    {| Persist.paidUntilByBaseId := Some {[ "base-1" := 2000 ]};
       Persist.adminBaseIdList := Some []; Persist.redeemCodes := Some [];
       Persist.pricingByBaseId := None; Persist.usageByBaseId := None;
       Persist.dailyUsageByBaseId := None |} ].

Definition spoken_result : AsrResult :=
  {| duration := None;
     utterances := Some [Some (1200 # 1)%Q; None; Some (61500 # 1)%Q] |}.

End More.
(** * Properties *)

(** ** Tenant keys *)

Module JsFacts.
Import Js.

Lemma drop_space_no_leading (l : list ascii) : no_leading_space (drop_space l).
Proof.
  induction l as [|c r IH]; simpl; [exact I|].
  destruct (is_space c) eqn:E; [exact IH | exact E].
Qed.

Lemma drop_space_id (l : list ascii) : no_leading_space l -> drop_space l = l.
Proof.
  destruct l as [|c r]; simpl; [reflexivity|]. intros ->. reflexivity.
Qed.

Lemma drop_space_suffix (l : list ascii) : exists sp, l = sp ++ drop_space l.
Proof.
  induction l as [|c r [sp IH]]; simpl.
  - exists []. reflexivity.
  - destruct (is_space c).
    + exists (c :: sp). simpl. f_equal. exact IH.
    + exists []. reflexivity.
Qed.

Lemma strip_end_no_leading (l : list ascii) :
  no_leading_space l -> no_leading_space (rev (drop_space (rev l))).
Proof.
  intros H. destruct (drop_space_suffix (rev l)) as [sp Hsp].
  assert (Hl : l = rev (drop_space (rev l)) ++ rev sp).
  { rewrite <- rev_app_distr, <- Hsp, rev_involutive. reflexivity. }
  destruct (rev (drop_space (rev l))) as [|c r]; [exact I|].
  rewrite Hl in H. exact H.
Qed.

Lemma trim_idempotent (s : string) : trim (trim s) = trim s.
Proof.
  unfold trim. rewrite list_ascii_of_string_of_list_ascii.
  set (l := drop_space (list_ascii_of_string s)).
  assert (Hl : no_leading_space l) by apply drop_space_no_leading.
  rewrite (drop_space_id (rev (drop_space (rev l)))
             (strip_end_no_leading l Hl)).
  rewrite rev_involutive.
  rewrite (drop_space_id (drop_space (rev l)) (drop_space_no_leading _)).
  reflexivity.
Qed.

Lemma normalizeBaseId_idempotent (v : option string) :
  normalizeBaseId (Some (normalizeBaseId v)) = normalizeBaseId v.
Proof.
  destruct v as [v|]; simpl; [apply trim_idempotent | reflexivity].
Qed.

Lemma truthy_str_nonempty (s : string) : truthy_str s = true <-> s <> EmptyString.
Proof.
  destruct s; simpl; split; intros H; congruence.
Qed.

End JsFacts.

(** ** Tiered cost *)

Module BillingFacts.
Import Js Billing.

Lemma Qmax_zero_room (x : Q) : Qle_bool x 0 = false -> Qmax 0 x = x.
Proof.
  intros H. unfold Qmax, GenericMinMax.gmax.
  destruct (0 ?= x)%Q eqn:E; try reflexivity.
  - apply Qeq_alt in E. assert (Hle : (x <= 0)%Q) by (rewrite <- E; apply Qle_refl).
    apply Qle_bool_iff in Hle. congruence.
  - apply Qgt_alt in E. apply Qlt_le_weak, Qle_bool_iff in E. congruence.
Qed.

Lemma Qmax_zero_full (x : Q) : Qle_bool x 0 = true -> Qle_bool (Qmax 0 x) 0 = true.
Proof.
  intros H. unfold Qmax, GenericMinMax.gmax.
  destruct (0 ?= x)%Q; auto.
Qed.

Lemma Qmin_same (x : Q) : Qmin x x = x.
Proof.
  unfold Qmin, GenericMinMax.gmin.
  destruct (x ?= x)%Q eqn:E; try reflexivity.
Qed.

Lemma Qplus_zero_l (x : Q) : (0 + x)%Q = x.
Proof.
  destruct x as [n d]. unfold Qplus. simpl. f_equal. lia.
Qed.

(** The loop of the code and the walk of the specification go through the
    same variables, tier after tier. *)
Lemma tier_loop_spec_walk (tiers : list Tier) (w : Walk) :
  tier_loop tiers w = spec_walk tiers w.
Proof.
  revert w. induction tiers as [|tier rest IH]; intros w; simpl; [reflexivity|].
  unfold Qleb. destruct (Qle_bool (remaining w) 0) eqn:Hrem; [reflexivity|].
  unfold spec_available. destruct (upToMinutes tier) as [limit|]; simpl.
  - unfold Qleb.
    destruct (Qle_bool (limit - cursor w) 0) eqn:Hroom.
    + rewrite (Qmax_zero_full _ Hroom). apply IH.
    + rewrite (Qmax_zero_room _ Hroom), Hroom. apply IH.
  - rewrite Hrem, Qmin_same. apply IH.
Qed.

Lemma calculateTieredCost_refines (tiers : list Tier) (prev add fallback : Q) :
  (0 < add)%Q ->
  calculateTieredCost tiers prev add fallback
  = tier_crossing_cost_spec tiers prev add fallback.
Proof.
  intros Hadd. unfold calculateTieredCost, tier_crossing_cost_spec.
  destruct tiers as [|tier rest].
  - simpl. unfold Qgtb.
    assert (Hb : Qle_bool add 0 = false).
    { destruct (Qle_bool add 0) eqn:E; [|reflexivity].
      apply Qle_bool_iff in E. exfalso. exact (Qlt_not_le _ _ Hadd E). }
    rewrite Hb. simpl. symmetry. apply Qplus_zero_l.
  - rewrite tier_loop_spec_walk. reflexivity.
Qed.

(** *** The walk bills band by band *)

Ltac qminmax_abstract :=
  repeat match goal with
  | |- context [Qmin ?a ?b] =>
      let m := fresh "m" in
      generalize (Q.min_spec a b); generalize (Qmin a b); intro m
  | |- context [Qmax ?a ?b] =>
      let m := fresh "m" in
      generalize (Q.max_spec a b); generalize (Qmax a b); intro m
  end.

Ltac qminmax :=
  qminmax_abstract; intros;
  repeat match goal with
         | H : _ \/ _ |- _ => destruct H
         | H : _ /\ _ |- _ => destruct H
         end;
  lra.

Lemma Qle_bool_false (x y : Q) : Qle_bool x y = false -> (y < x)%Q.
Proof.
  intros H. apply Qnot_le_lt. intros Hle. apply Qle_bool_iff in Hle. congruence.
Qed.

Lemma tiers_ascending_from (tiers : list Tier) :
  tiers_ascending tiers = ascending_from NoLower tiers.
Proof.
  destruct tiers as [|a rest]; [reflexivity|]. cbn [ascending_from lower_leb andb].
  revert a. induction rest as [|b rest IH]; intros a; [reflexivity|].
  cbn [tiers_ascending ascending_from lower_leb]. f_equal. apply IH.
Qed.

(** Above the span nothing is billed. *)
Lemma band_cost_above (tiers : list Tier) (below : Lower) (lo hi : Q) :
  ascending_from below tiers = true -> (lo <= hi)%Q ->
  (hi <= band_bottom below lo hi)%Q ->
  (band_cost tiers below lo hi == 0)%Q
  /\ (hi <= band_bottom (last_lower below tiers) lo hi)%Q.
Proof.
  revert below. induction tiers as [|t rest IH]; intros below Hasc Hlh Hbot.
  - split; [reflexivity | exact Hbot].
  - cbn [ascending_from] in Hasc. apply andb_prop in Hasc as [Hle Hasc].
    assert (Hnext : (hi <= band_bottom (LowerAt (upToMinutes t)) lo hi)%Q).
    { destruct below as [|[b0|]]; destruct (upToMinutes t) as [l|];
        cbn in *; try discriminate; try apply Qle_refl.
      - revert Hbot. qminmax.
      - apply Qle_bool_iff in Hle. revert Hbot Hle. qminmax. }
    destruct (IH _ Hasc Hlh Hnext) as [IHc IHb].
    split; [|exact IHb]. cbn [band_cost]. rewrite IHc.
    assert (Hov : (band_overlap below (upToMinutes t) lo hi == 0)%Q).
    { unfold band_overlap, band_top. revert Hbot.
      generalize (band_bottom below lo hi). intros bot Hbot.
      destruct (upToMinutes t); revert Hbot; qminmax. }
    rewrite Hov. lra.
Qed.

Lemma tier_loop_by_band (tiers : list Tier) :
  forall (w : Walk) (below : Lower) (lo hi : Q),
    ascending_from below tiers = true ->
    (lo <= hi)%Q -> (0 <= remaining w)%Q ->
    (cursor w + remaining w == hi)%Q ->
    (cursor w == Qmin hi (band_bottom below lo hi))%Q ->
    (cost (tier_loop tiers w) == cost w + band_cost tiers below lo hi)%Q
    /\ (remaining (tier_loop tiers w)
        == band_overlap (last_lower below tiers) None lo hi)%Q.
Proof.
  induction tiers as [|t rest IH]; intros w below lo hi Hasc Hlh Hrem Hsum Hcur.
  - cbn. split; [lra|]. unfold band_overlap, band_top.
    revert Hcur. generalize (band_bottom below lo hi). intros bot.
    revert Hrem Hsum. qminmax.
  - cbn [tier_loop]. unfold Qleb.
    destruct (Qle_bool (remaining w) 0) eqn:Hbreak.
    + apply Qle_bool_iff in Hbreak.
      assert (Hbot : (hi <= band_bottom below lo hi)%Q).
      { revert Hcur. generalize (band_bottom below lo hi). intros bot.
        revert Hrem Hsum Hbreak. qminmax. }
      destruct (band_cost_above _ _ _ _ Hasc Hlh Hbot) as [Hc Hb].
      split; [rewrite Hc; lra|]. unfold band_overlap, band_top.
      revert Hb. generalize (band_bottom (last_lower below (t :: rest)) lo hi).
      intros bot. revert Hrem Hbreak. qminmax.
    + pose proof Hbreak as Hgo. apply Qle_bool_false in Hbreak.
      cbn [ascending_from] in Hasc. apply andb_prop in Hasc as [Hle Hasc].
      assert (Hbot : (cursor w == band_bottom below lo hi)%Q).
      { revert Hcur. generalize (band_bottom below lo hi). intros bot.
        revert Hsum Hbreak. qminmax. }
      assert (Hlo : (lo <= cursor w)%Q).
      { rewrite Hbot. destruct below as [|[b0|]]; cbn; [lra| |lra].
        qminmax. }
      cbn [band_cost last_lower].
      destruct (upToMinutes t) as [l|] eqn:Hup.
      * destruct (Qle_bool (Qmax 0 (l - cursor w)) 0) eqn:Hroom.
        -- apply Qle_bool_iff in Hroom.
           assert (Hl : (l <= cursor w)%Q) by (revert Hroom; qminmax).
           assert (Hcur' : (cursor w
                            == Qmin hi (band_bottom (LowerAt (Some l)) lo hi))%Q).
           { cbn. destruct below as [|[b0|]]; cbn in Hle, Hbot.
             - revert Hbot Hl Hsum Hbreak. qminmax.
             - apply Qle_bool_iff in Hle. revert Hbot Hl Hle Hsum Hbreak. qminmax.
             - discriminate. }
           destruct (IH w _ lo hi Hasc Hlh Hrem Hsum Hcur') as [IHc IHr].
           split; [|exact IHr]. rewrite IHc.
           assert (Hov : (band_overlap below (Some l) lo hi == 0)%Q).
           { unfold band_overlap, band_top. rewrite <- Hbot.
             revert Hl. qminmax. }
           rewrite Hov. lra.
        -- apply Qle_bool_false in Hroom.
           assert (Hl : (cursor w < l)%Q) by (revert Hroom; qminmax).
           set (used := Qmin (remaining w) (Qmax 0 (l - cursor w))).
           assert (Hused : (used == Qmin hi l - cursor w)%Q).
           { unfold used. revert Hl Hsum Hbreak. qminmax. }
           assert (Hov : (band_overlap below (Some l) lo hi == used)%Q).
           { rewrite Hused. unfold band_overlap, band_top. rewrite <- Hbot.
             revert Hl Hsum Hbreak. qminmax. }
           destruct (IH {| remaining := remaining w - used;
                           cost := cost w + used * unitPrice t;
                           cursor := cursor w + used |}
                       (LowerAt (Some l)) lo hi Hasc Hlh) as [IHc IHr].
           { cbn. rewrite Hused. revert Hl Hsum Hbreak. qminmax. }
           { cbn. lra. }
           { cbn. rewrite Hused. revert Hl Hlo Hsum Hbreak. qminmax. }
           split; [|exact IHr]. rewrite IHc. cbn [cost]. rewrite Hov. lra.
      * rewrite Hgo.
        set (used := Qmin (remaining w) (remaining w)).
        assert (Hused : (used == remaining w)%Q)
          by (unfold used; rewrite Qmin_same; reflexivity).
        assert (Hov : (band_overlap below None lo hi == used)%Q).
        { rewrite Hused. unfold band_overlap, band_top. rewrite <- Hbot.
          revert Hsum Hbreak. qminmax. }
        destruct (IH {| remaining := remaining w - used;
                        cost := cost w + used * unitPrice t;
                        cursor := cursor w + used |}
                    (LowerAt None) lo hi Hasc Hlh) as [IHc IHr].
        { cbn. lra. }
        { cbn. lra. }
        { cbn. rewrite Hused. revert Hsum. qminmax. }
        split; [|exact IHr]. rewrite IHc. cbn [cost]. rewrite Hov. lra.
Qed.

(** On an ascending schedule [calculateTieredCost] bills every minute of the
    added span at the price of the band it falls in, and the minutes above
    the last boundary at the fallback price. *)
Lemma calculateTieredCost_by_band (tiers : list Tier) (prev add fallback : Q) :
  tiers_ascending tiers = true -> (0 < add)%Q ->
  (calculateTieredCost tiers prev add fallback
   == cost_by_band tiers prev add fallback)%Q.
Proof.
  intros Hasc Hadd. rewrite tiers_ascending_from in Hasc.
  unfold cost_by_band. destruct tiers as [|t rest].
  - cbn [calculateTieredCost band_cost last_lower].
    unfold band_overlap. cbn [band_top band_bottom].
    assert (Hspan : (Qmax 0 (prev + add - prev) == add)%Q)
      by (revert Hadd; qminmax).
    rewrite Hspan. lra.
  - unfold calculateTieredCost.
    destruct (tier_loop_by_band (t :: rest)
                {| remaining := add; cost := 0; cursor := prev |}
                NoLower prev (prev + add) Hasc) as [Hc Hr].
    { lra. } { cbn. lra. } { cbn. lra. } { cbn. revert Hadd. qminmax. }
    cbn [cost] in Hc. unfold Qgtb.
    destruct (Qle_bool _ 0) eqn:E; cbn [negb].
    + apply Qle_bool_iff in E. rewrite Hc.
      assert (Hz : (band_overlap (last_lower NoLower (t :: rest)) None prev
                      (prev + add) == 0)%Q).
      { rewrite <- Hr. unfold band_overlap in Hr. revert Hr E. qminmax. }
      rewrite Hz. lra.
    + rewrite Hc, Hr. lra.
Qed.

(** C1. On every ascending tier list, for [prev >= 0] and [add > 0], the
    cost that [calculateTieredCost] computes is the cost of the reference
    walk of the specification, which splits the added minutes across the
    tier boundaries: every minute at the price of the band it falls in, the
    minutes above the last boundary at the fallback price.  On an empty tier
    list the cost is [add * fallbackUnitPrice].  At daily cursor 1 of the
    schedule [<=2 @0.2, <=5 @0.1, inf @0.05] two more minutes cost
    0.2 + 0.1 = 0.3, and three more minutes are billed one at 0.2 and two
    at 0.1. *)
Theorem calculateTieredCost_matches_reference
    (tiers : list Tier) (prev add fallback : Q) :
  tiers_ascending tiers = true -> (0 <= prev)%Q -> (0 < add)%Q ->
  calculateTieredCost tiers prev add fallback
  = tier_crossing_cost_spec tiers prev add fallback
  /\ (tier_crossing_cost_spec tiers prev add fallback
      == cost_by_band tiers prev add fallback)%Q
  /\ calculateTieredCost [] prev add fallback = (add * fallback)%Q
  /\ (calculateTieredCost example_tiers 1 2 fallback == (2 # 10) + (1 # 10))%Q
  /\ (calculateTieredCost example_tiers 1 2 fallback == 3 # 10)%Q
  /\ (calculateTieredCost example_tiers 1 3 fallback
      == 1 * (2 # 10) + 2 * (1 # 10))%Q.
Proof.
  intros Hasc _ Hadd. split; [|split; [|split; [|split; [|split]]]].
  - apply calculateTieredCost_refines, Hadd.
  - rewrite <- (calculateTieredCost_refines tiers prev add fallback Hadd).
    apply calculateTieredCost_by_band; assumption.
  - reflexivity.
  - reflexivity.
  - reflexivity.
  - reflexivity.
Qed.

Lemma calculateTieredCost_matches_reference_witness :
  tiers_ascending example_tiers = true /\
  calculateTieredCost example_tiers 1 2 (1 # 10)
  = tier_crossing_cost_spec example_tiers 1 2 (1 # 10).
Proof.
  split; [reflexivity|].
  apply (calculateTieredCost_matches_reference example_tiers 1 2 (1 # 10)).
  - reflexivity.
  - unfold Qle; simpl; lia.
  - unfold Qlt; simpl; lia.
Defined.

(** ** The current tier's unit price *)

Lemma tier_reaches_iff (total : Q) (t : Tier) :
  tier_reaches total t = true <-> boundary_reaches total t.
Proof.
  unfold tier_reaches, boundary_reaches, Qleb.
  destruct (upToMinutes t); [apply Qle_bool_iff | tauto].
Qed.

Lemma first_reaching_at_found (tiers : list Tier) (total : Q) (i : nat) (t : Tier) :
  first_reaching_at tiers total i t -> first_reaching tiers total = Some t.
Proof.
  revert i. induction tiers as [|h r IH]; intros i (Hi & Hadm & Hmin).
  - destruct i; discriminate.
  - simpl. destruct i as [|i].
    + injection Hi as ->. apply tier_reaches_iff in Hadm. rewrite Hadm. reflexivity.
    + destruct (tier_reaches total h) eqn:E.
      * apply tier_reaches_iff in E. exfalso.
        apply (Hmin 0%nat h); [lia | reflexivity | exact E].
      * apply (IH i). split; [exact Hi|]. split; [exact Hadm|].
        intros j t' Hj Hl. apply (Hmin (S j) t'); [lia | exact Hl].
Qed.

Lemma none_reaching_found (tiers : list Tier) (total : Q) :
  none_reaching tiers total -> first_reaching tiers total = None.
Proof.
  induction tiers as [|h r IH]; intros Hnone; [reflexivity|].
  simpl. destruct (tier_reaches total h) eqn:E.
  - apply tier_reaches_iff in E. exfalso. exact (Hnone 0%nat h eq_refl E).
  - apply IH. intros j t' Hl. exact (Hnone (S j) t' Hl).
Qed.

Lemma or_fallback_zero (x fallback : Q) : (x == 0)%Q -> or_fallback x fallback = fallback.
Proof.
  intros H. unfold or_fallback. apply Qeq_bool_iff in H. rewrite H. reflexivity.
Qed.

Lemma or_fallback_nonzero (x fallback : Q) : ~ (x == 0)%Q -> or_fallback x fallback = x.
Proof.
  intros H. unfold or_fallback. destruct (Qeq_bool x 0) eqn:E; [|reflexivity].
  apply Qeq_bool_iff in E. contradiction.
Qed.

(** C6, as the code has it.  The price of the first tier whose boundary is
    at least the total is returned; when no boundary qualifies the terminal
    tier's price is returned if it is not zero, and the fallback price if it
    is zero; an empty list gives the fallback price. *)
Theorem resolveCurrentTierUnitPrice_cases
    (tiers : list Tier) (total fallback : Q) :
  (tiers = [] -> resolveCurrentTierUnitPrice tiers total fallback = fallback)
  /\ (forall i t, first_reaching_at tiers total i t ->
        resolveCurrentTierUnitPrice tiers total fallback = unitPrice t)
  /\ (none_reaching tiers total -> forall t, last tiers = Some t ->
        (~ (unitPrice t == 0)%Q ->
           resolveCurrentTierUnitPrice tiers total fallback = unitPrice t)
        /\ ((unitPrice t == 0)%Q ->
           resolveCurrentTierUnitPrice tiers total fallback = fallback)).
Proof.
  split; [|split].
  - intros ->. reflexivity.
  - intros i t H. pose proof (first_reaching_at_found _ _ _ _ H) as Hf.
    unfold resolveCurrentTierUnitPrice. destruct tiers as [|h r].
    + destruct H as (Hl & _). destruct i; discriminate.
    + rewrite Hf. reflexivity.
  - intros Hnone t Hlast. pose proof (none_reaching_found _ _ Hnone) as Hf.
    unfold resolveCurrentTierUnitPrice. destruct tiers as [|h r]; [discriminate|].
    rewrite Hf, Hlast. split; intros Hz.
    + apply or_fallback_nonzero, Hz.
    + apply or_fallback_zero, Hz.
Qed.

Lemma free_terminal_none_reaching : none_reaching free_terminal_tier (10 # 1).
Proof.
  intros j t' Hl. destruct j as [|j]; [|destruct j; discriminate].
  injection Hl as <-. unfold boundary_reaches, Qle. simpl. lia.
Qed.

Lemma resolveCurrentTierUnitPrice_cases_witness :
  resolveCurrentTierUnitPrice free_terminal_tier (10 # 1) (1 # 10) = (1 # 10)%Q
  /\ resolveCurrentTierUnitPrice example_tiers (3 # 1) (1 # 10) = (1 # 10)%Q.
Proof.
  split.
  - apply (proj2 (proj2 (resolveCurrentTierUnitPrice_cases
                           free_terminal_tier (10 # 1) (1 # 10)))
             free_terminal_none_reaching (mkTier (Some (5 # 1)%Q) 0%Q) eq_refl).
    reflexivity.
  - apply (proj1 (proj2 (resolveCurrentTierUnitPrice_cases
                           example_tiers (3 # 1) (1 # 10)))
             1%nat (mkTier (Some (5 # 1)%Q) (1 # 10)%Q)).
    split; [reflexivity|]. split.
    + unfold boundary_reaches, Qle. simpl. lia.
    + intros j t' Hj Hl. destruct j as [|j]; [|lia].
      injection Hl as <-. unfold boundary_reaches, Qle. simpl. lia.
Defined.

(** C6 as stated fails: with the single tier [<=5 min @0] and a total of 10
    minutes no boundary qualifies, and the result is the fallback price 0.1,
    not the terminal tier's price 0. *)
Lemma resolveCurrentTierUnitPrice_zero_terminal_price :
  ~ terminal_price_when_none_reaches free_terminal_tier (10 # 1) (1 # 10).
Proof.
  intros H.
  specialize (H free_terminal_none_reaching (mkTier (Some (5 # 1)%Q) 0%Q) eq_refl).
  discriminate H.
Qed.

(** ** The model on the repository's billing tests *)

(** "records usage cost": 2 minutes at 0.3 cost 0.6, one more makes 0.9. *)
Example recordUsage_flat_test :
  (recordUsage flat_test_pricing 0 (minutes_args "base-1" (2 # 1) None)
     flat_test_store).1
  = Recorded (2 # 1) (6000 # 10000) (2 # 1) (6000 # 10000) (3 # 10) "call"
  /\ (recordUsage flat_test_pricing 0 (minutes_args "base-1" (1 # 1) None)
        (recordUsage flat_test_pricing 0 (minutes_args "base-1" (2 # 1) None)
           flat_test_store).2).1
     = Recorded (3 # 1) (9000 # 10000) (3 # 1) (9000 # 10000) (3 # 10) "call".
Proof. split; vm_compute; reflexivity. Qed.

(** "applies tiered pricing per day": 1 minute costs 0.2, two more minutes
    bring the day to 3 minutes and 0.5. *)
Example recordUsage_tiered_test :
  (recordUsage tiered_test_pricing 0
     (minutes_args "base-tier" (1 # 1) (Some new_year_2025)) empty_store).1
  = Recorded (1 # 1) (2000 # 10000) (1 # 1) (2000 # 10000) (2 # 10) "minute"
  /\ (recordUsage tiered_test_pricing 0
        (minutes_args "base-tier" (2 # 1) (Some new_year_2025))
        (recordUsage tiered_test_pricing 0
           (minutes_args "base-tier" (1 # 1) (Some new_year_2025))
           empty_store).2).1
     = Recorded (3 # 1) (5000 # 10000) (3 # 1) (5000 # 10000) (1 # 10) "minute".
Proof. split; vm_compute; reflexivity. Qed.

(** ** The charge bridge *)

Lemma positive_num_idempotent (x : option Q) :
  positive_num (positive_num x) = positive_num x.
Proof.
  destruct x as [v|]; simpl; [|reflexivity].
  destruct (Qgtb v 0) eqn:E; simpl; [rewrite E|]; reflexivity.
Qed.

(** [recordUsage] reads the duration through the test "finite and > 0"
    only, so a duration that fails the test counts as a missing one. *)
Lemma recordUsage_duration_filtered
    (dp : DefaultPricing) (now : Z) (tenant : string) (d : option Q) (s : Store) :
  recordUsage dp now (charge_args tenant (positive_num d)) s
  = recordUsage dp now (charge_args tenant d) s.
Proof.
  unfold recordUsage, resolveMinutes, charge_args. simpl.
  rewrite positive_num_idempotent. reflexivity.
Qed.

Lemma register_registered (taskId : string) (raw : option string)
    (d : option Q) (tasks : gmap string Task) :
  registered tasks -> registered (register taskId raw d tasks).
Proof.
  intros Hreg. unfold register.
  destruct (truthy_str (normalizeBaseId raw)) eqn:Hb; simpl; [|exact Hreg].
  destruct (truthy_str taskId) eqn:Hid; simpl; [|exact Hreg].
  intros id t Hl. destruct (decide (taskId = id)) as [<-|Hne].
  - rewrite lookup_insert_eq in Hl. injection Hl as <-. cbn [baseId].
    rewrite JsFacts.normalizeBaseId_idempotent. auto.
  - rewrite lookup_insert_ne in Hl by exact Hne. exact (Hreg id t Hl).
Qed.

Lemma empty_registered : registered ∅.
Proof. intros id t Hl. rewrite lookup_empty in Hl. discriminate. Qed.

Lemma delete_registered (taskId : string) (tasks : gmap string Task) :
  registered tasks -> registered (delete taskId tasks).
Proof.
  intros Hreg id t Hl. apply lookup_delete_Some in Hl as [_ Hl].
  exact (Hreg id t Hl).
Qed.

(** The pending map stays as the registration block leaves it. *)
Lemma recordUsageOnce_registered (dp : DefaultPricing) (now : Z) (taskId : string)
    (observed : option Q) (tasks : gmap string Task) (s : Store) :
  registered tasks ->
  registered (recordUsageOnce dp now taskId observed tasks s).2.1.
Proof.
  intros Hreg. unfold recordUsageOnce.
  destruct (truthy_str taskId); simpl; [|exact Hreg].
  destruct (tasks !! taskId) as [cached|]; simpl; [|exact Hreg].
  destruct (charged cached); simpl; [exact Hreg|].
  destruct (truthy_str (normalizeBaseId (baseId cached))); simpl.
  - destruct (recordUsage _ _ _ _). simpl. apply delete_registered, Hreg.
  - apply delete_registered, Hreg.
Qed.

Lemma recordUsageOnce_absent (dp : DefaultPricing) (now : Z) (taskId : string)
    (observed : option Q) (tasks : gmap string Task) (s : Store) :
  tasks !! taskId = None ->
  recordUsageOnce dp now taskId observed tasks s = (None, (tasks, s)).
Proof.
  intros Habs. unfold recordUsageOnce. rewrite Habs.
  destruct (truthy_str taskId); reflexivity.
Qed.

Lemma getUsage_normalized (b : option string) (s : Store) :
  getUsage (Some (normalizeBaseId b)) s = getUsage b s.
Proof.
  unfold getUsage. rewrite JsFacts.normalizeBaseId_idempotent. reflexivity.
Qed.

(** The usage total after [recordUsage] is the one before plus the resolved
    minutes. *)
Lemma recordUsage_count (dp : DefaultPricing) (now : Z) (a : UsageArgs) (s : Store) :
  truthy_str (normalizeBaseId (arg_baseId a)) = true ->
  count (getUsage (arg_baseId a) (recordUsage dp now a s).2)
  = (count (getUsage (arg_baseId a) s) + resolveMinutes a)%Q.
Proof.
  intros Hb. unfold recordUsage. rewrite Hb. cbn [negb snd].
  rewrite getUsage_normalized.
  unfold getUsage at 1. rewrite Hb. cbn [usageMap].
  rewrite lookup_insert_eq. reflexivity.
Qed.

Lemma bridge_run_registered (dp : DefaultPricing) (calls : list BridgeCall)
    (tasks : gmap string Task) (s : Store) :
  registered tasks -> registered (bridge_run dp calls tasks s).1.
Proof.
  revert tasks s. induction calls as [|[id raw d|now id obs] rest IH];
    intros tasks s Hreg; simpl.
  - exact Hreg.
  - apply IH, register_registered, Hreg.
  - apply IH, recordUsageOnce_registered, Hreg.
Qed.

(** The charge of a pending entry as the registration leaves it. *)
Lemma recordUsageOnce_pending (dp : DefaultPricing) (now : Z) (taskId : string)
    (observed : option Q) (tasks : gmap string Task) (s : Store) (t : Task) :
  registered tasks -> tasks !! taskId = Some t -> charged t = false ->
  let call := charge_args (normalizeBaseId (baseId t))
                (billed_duration t observed) in
  recordUsageOnce dp now taskId observed tasks s
  = (Some (recordUsage dp now call s).1,
     (delete taskId tasks, (recordUsage dp now call s).2)).
Proof.
  intros Hreg Hl Hch call. destruct (Hreg taskId t Hl) as [Hid Hten].
  unfold recordUsageOnce. rewrite Hid, Hl, Hch, Hten. cbn [negb].
  assert (Heq : recordUsage dp now
             {| arg_baseId := Some (normalizeBaseId (baseId t));
                arg_units := None; arg_minutes := None;
                arg_durationMs :=
                  match positive_num (durationMs t) with
                  | Some d => Some d
                  | None => positive_num observed
                  end;
                arg_occurredAt := None |} s = recordUsage dp now call s).
  { unfold call, billed_duration.
    destruct (positive_num (durationMs t)); [reflexivity|].
    apply recordUsage_duration_filtered. }
  rewrite Heq. destruct (recordUsage dp now call s). reflexivity.
Qed.

(** Whatever the pending map holds, a call that returns [null] leaves the
    billing store alone, and a second call for the same task id returns
    [null] and changes nothing. *)
Lemma recordUsageOnce_again (dp : DefaultPricing) (now now2 : Z)
    (taskId : string) (observed observed2 : option Q)
    (tasks : gmap string Task) (s : Store) :
  ((recordUsageOnce dp now taskId observed tasks s).1 = None ->
     (recordUsageOnce dp now taskId observed tasks s).2.2 = s)
  /\ recordUsageOnce dp now2 taskId observed2
       (recordUsageOnce dp now taskId observed tasks s).2.1
       (recordUsageOnce dp now taskId observed tasks s).2.2
     = (None, (recordUsageOnce dp now taskId observed tasks s).2).
Proof.
  unfold recordUsageOnce at 1 2 4 5 6.
  destruct (truthy_str taskId) eqn:Hid; cbn [negb].
  - destruct (tasks !! taskId) as [cached|] eqn:Hl.
    + destruct (charged cached) eqn:Hch.
      * split; [reflexivity|]. cbn [fst snd].
        unfold recordUsageOnce. rewrite Hid, Hl, Hch. reflexivity.
      * destruct (truthy_str (normalizeBaseId (baseId cached))); cbn [negb].
        -- destruct (recordUsage dp now _ s) as [r s']. cbn [fst snd].
           split; [discriminate|].
           apply recordUsageOnce_absent, lookup_delete_eq.
        -- split; [reflexivity|]. cbn [fst snd].
           apply recordUsageOnce_absent, lookup_delete_eq.
    + split; [reflexivity|]. cbn [fst snd].
      apply recordUsageOnce_absent, Hl.
  - split; [reflexivity|]. cbn [fst snd].
    unfold recordUsageOnce. rewrite Hid. reflexivity.
Qed.

(** C2. The bridge bills a task id at most once: on any pending map a
    second call for the same task id returns [null] and changes nothing, and
    a call that returns [null] leaves the usage totals and daily usage as
    they are.  After any sequence of registrations and charges: a task id
    that is not in the pending map makes the call return [null] with the
    pending map and the billing store unchanged; a registered, uncharged
    task is removed from the pending map and billed by one call of
    [recordUsage], for the registered duration when it is present and
    positive and for the observed duration otherwise, so that the usage total
    grows by the minutes of that one call; a second call with the same task
    id returns [null]. *)
Theorem recordUsageOnce_bills_once
    (dp : DefaultPricing) (calls : list BridgeCall) (s0 : Store)
    (now now2 : Z) (taskId : string) (observed observed2 : option Q) :
  let tasks := (bridge_run dp calls ∅ s0).1 in
  let s := (bridge_run dp calls ∅ s0).2 in
  (forall (anyTasks : gmap string Task) (anyStore : Store),
     ((recordUsageOnce dp now taskId observed anyTasks anyStore).1 = None ->
        (recordUsageOnce dp now taskId observed anyTasks anyStore).2.2
        = anyStore)
     /\ recordUsageOnce dp now2 taskId observed2
          (recordUsageOnce dp now taskId observed anyTasks anyStore).2.1
          (recordUsageOnce dp now taskId observed anyTasks anyStore).2.2
        = (None, (recordUsageOnce dp now taskId observed anyTasks anyStore).2))
  /\ (tasks !! taskId = None ->
       recordUsageOnce dp now taskId observed tasks s = (None, (tasks, s)))
  /\ (forall t, tasks !! taskId = Some t -> charged t = false ->
        let tenant := normalizeBaseId (baseId t) in
        let call := charge_args tenant (billed_duration t observed) in
        let billed := recordUsage dp now call s in
        recordUsageOnce dp now taskId observed tasks s
        = (Some billed.1, (delete taskId tasks, billed.2))
        /\ billed.1 <> NoTenant
        /\ count (getUsage (Some tenant) billed.2)
           = (count (getUsage (Some tenant) s) + resolveMinutes call)%Q
        /\ recordUsageOnce dp now2 taskId observed2 (delete taskId tasks) billed.2
           = (None, (delete taskId tasks, billed.2))).
Proof.
  intros tasks s. split; [|split].
  - intros anyTasks anyStore. apply recordUsageOnce_again.
  - apply recordUsageOnce_absent.
  - intros t Hl Hch tenant call billed.
    assert (Hreg : registered tasks)
      by apply bridge_run_registered, empty_registered.
    destruct (Hreg taskId t Hl) as [Hid Hten].
    assert (Hcall : truthy_str (normalizeBaseId (arg_baseId call)) = true).
    { unfold call, charge_args. cbn [arg_baseId]. unfold tenant.
      rewrite JsFacts.normalizeBaseId_idempotent. exact Hten. }
    split; [|split; [|split]].
    + apply recordUsageOnce_pending; assumption.
    + unfold billed, recordUsage. rewrite Hcall. discriminate.
    + apply (recordUsage_count dp now call s Hcall).
    + apply recordUsageOnce_absent, lookup_delete_eq.
Qed.

Lemma recordUsageOnce_bills_once_witness :
  recordUsageOnce test_pricing 0 "task-1" (Some (60000 # 1)%Q)
    (bridge_run test_pricing test_calls ∅ empty_store).1 empty_store
  = (Some (Recorded (2 # 1) (10000 # 10000) (2 # 1) (10000 # 10000) (5 # 10)
             "minute"),
     (delete "task-1" (bridge_run test_pricing test_calls ∅ empty_store).1,
      (recordUsage test_pricing 0
         (charge_args "base-1" (Some (120000 # 1)%Q)) empty_store).2)).
Proof.
  refine (eq_trans
            (proj1 (proj2 (proj2 (recordUsageOnce_bills_once test_pricing
                                    test_calls empty_store 0 0 "task-1"
                                    (Some (60000 # 1)%Q) None))
                      test_task eq_refl eq_refl)) _).
  reflexivity.
Defined.

End BillingFacts.

(** ** The subscription store *)

Module SubscriptionFacts.
Import Js Subscription.

(** *** Reading the paid-until back *)


Lemma parseInt_String_small (n : Z) :
  Z.abs n < 10 ^ 21 -> parseInt_String n = n.
Proof.
  intros H. unfold parseInt_String.
  destruct (Z.abs n <? 10 ^ 21) eqn:E; [reflexivity|].
  apply Z.ltb_ge in E. lia.
Qed.


Lemma getPaidUntil_setPaidUntil (tenant : string) (until : Z) (s : Store) :
  truthy_str tenant = true ->
  getPaidUntil tenant (setPaidUntil tenant until s) = parseInt_String until.
Proof.
  intros H. unfold setPaidUntil, getPaidUntil. rewrite H. cbn [paidUntilMap].
  rewrite lookup_insert_eq. reflexivity.
Qed.

Lemma getPaidUntil_setPaidUntil_small (tenant : string) (until : Z) (s : Store) :
  truthy_str tenant = true -> Z.abs until < 10 ^ 21 ->
  getPaidUntil tenant (setPaidUntil tenant until s) = until.
Proof.
  intros H Hsmall. rewrite getPaidUntil_setPaidUntil by exact H.
  apply parseInt_String_small, Hsmall.
Qed.

Lemma getPaidUntil_setPaidUntil_other (tenant other : string) (until : Z) (s : Store) :
  other <> tenant ->
  getPaidUntil other (setPaidUntil tenant until s) = getPaidUntil other s.
Proof.
  intros H. unfold setPaidUntil, getPaidUntil.
  destruct (truthy_str tenant); cbn [paidUntilMap]; [|reflexivity].
  rewrite lookup_insert_ne by congruence. reflexivity.
Qed.

(** What an accepted call computes. *)
Lemma activatePlan_accepted (now : Z) (raw : option string) (D : Z)
    (paidAt : option Z) (s : Store) :
  truthy_str (normalizeBaseId raw) = true -> D <> 0 ->
  let tenant := normalizeBaseId raw in
  let start := Z.max (Z.max now (if truthy_optZ paidAt then default now paidAt else now))
                 (getPaidUntil tenant s) in
  activatePlan now raw (Some D) paidAt s
  = (Some (start + D), setPaidUntil tenant (start + D) s).
Proof.
  intros Hb HD tenant start. unfold start, tenant, activatePlan. rewrite Hb.
  unfold truthy_Z. destruct (D =? 0) eqn:E; [apply Z.eqb_eq in E; contradiction|].
  reflexivity.
Qed.

Lemma activatePlan_rejected (now : Z) (raw : option string) (d paidAt : option Z)
    (s : Store) :
  truthy_str (normalizeBaseId raw) = false \/ truthy_optZ d = false ->
  activatePlan now raw d paidAt s = (None, s).
Proof.
  intros H. unfold activatePlan. destruct d as [D|]; [|reflexivity].
  destruct H as [-> | H]; [reflexivity|]. simpl in H. rewrite H.
  rewrite andb_false_r. reflexivity.
Qed.

Lemma paidAt_or_now (now p : Z) :
  p <> 0 \/ 0 <= now ->
  Z.max now (if truthy_optZ (Some p) then default now (Some p) else now)
  = Z.max now p.
Proof.
  intros H. unfold truthy_optZ, truthy_Z. simpl.
  destruct (p =? 0) eqn:E; simpl; [|reflexivity].
  apply Z.eqb_eq in E. subst p. lia.
Qed.

Lemma paidAt_now (now : Z) :
  (if truthy_optZ (Some now) then default now (Some now) else now) = now.
Proof. destruct (truthy_optZ (Some now)); reflexivity. Qed.

(** For a positive duration, with the new paid-until below [1e21]: the
    call sets the tenant's paid-until to, and returns,
    [max(now, paidAt, currentPaidUntil) + durationMs]; a [paidAt] of zero
    stands for the clock reading. *)
Lemma activatePlan_positive_extends (now : Z) (raw : option string) (D p : Z)
    (s : Store) :
  truthy_str (normalizeBaseId raw) = true -> 0 < D ->
  p <> 0 \/ 0 <= now ->
  let tenant := normalizeBaseId raw in
  let next := Z.max (Z.max now p) (getPaidUntil tenant s) + D in
  Z.abs next < 10 ^ 21 ->
  (activatePlan now raw (Some D) (Some p) s).1 = Some next
  /\ getPaidUntil tenant (activatePlan now raw (Some D) (Some p) s).2 = next.
Proof.
  intros Hb HD Hp tenant next Hsmall.
  assert (HD0 : D <> 0) by lia.
  pose proof (activatePlan_accepted now raw D (Some p) s Hb HD0) as H.
  cbv zeta in H. rewrite (paidAt_or_now now p Hp) in H.
  fold tenant in H. fold next in H. rewrite H. cbn [fst snd].
  split; [reflexivity|].
  apply getPaidUntil_setPaidUntil_small; [exact Hb|exact Hsmall].
Qed.

(** Stacking while the first period runs: a second purchase made before the
    first one has expired, at any later clock reading, ends later than the
    first by exactly its own duration. *)
Lemma activatePlan_stacks_while_unexpired (now1 now2 : Z) (raw : option string)
    (D1 D2 : Z) (p1 p2 : option Z) (s : Store) (first : Z) (s1 : Store) :
  truthy_str (normalizeBaseId raw) = true -> 0 < D1 -> 0 < D2 ->
  activatePlan now1 raw (Some D1) p1 s = (Some first, s1) ->
  Z.abs first < 10 ^ 21 ->
  now2 <= first -> default now2 p2 <= first ->
  (activatePlan now2 raw (Some D2) p2 s1).1 = Some (first + D2).
Proof.
  intros Hb HD1 HD2 H1 Hsmall Hnow Hp.
  assert (HD10 : D1 <> 0) by lia. assert (HD20 : D2 <> 0) by lia.
  pose proof (activatePlan_accepted now1 raw D1 p1 s Hb HD10) as Ha.
  cbv zeta in Ha. rewrite Ha in H1. injection H1 as Hfirst Hs1.
  pose proof (activatePlan_accepted now2 raw D2 p2 s1 Hb HD20) as Hb2.
  cbv zeta in Hb2. rewrite Hb2. cbn [fst].
  assert (Hcur : getPaidUntil (normalizeBaseId raw) s1 = first).
  { rewrite <- Hs1, Hfirst.
    apply getPaidUntil_setPaidUntil_small; [exact Hb|exact Hsmall]. }
  rewrite Hcur. f_equal.
  destruct (truthy_optZ p2); lia.
Qed.

Lemma activatePlan_stacks (now : Z) (raw : option string) (D : Z) (s : Store) :
  truthy_str (normalizeBaseId raw) = true -> 0 < D ->
  Z.abs (Z.max now (getPaidUntil (normalizeBaseId raw) s) + D) < 10 ^ 21 ->
  stacks_by now raw D s.
Proof.
  intros Hb HD Hsmall.
  assert (HD0 : D <> 0) by lia.
  pose proof (activatePlan_accepted now raw D (Some now) s Hb HD0) as H1.
  cbv zeta in H1. rewrite paidAt_now, Z.max_id in H1.
  set (tenant := normalizeBaseId raw) in *.
  set (first := Z.max now (getPaidUntil tenant s) + D) in *.
  set (s1 := setPaidUntil tenant first s) in *.
  pose proof (activatePlan_stacks_while_unexpired now now raw D D (Some now)
                (Some now) s first s1 Hb HD HD H1 Hsmall) as H2.
  assert (Hle : now <= first) by (unfold first; lia).
  specialize (H2 Hle Hle).
  destruct (activatePlan now raw (Some D) (Some now) s1) as [r s2] eqn:E2.
  cbn [fst] in H2. subst r.
  exists first, (first + D), s1, s2.
  split; [exact H1|]. split; [exact E2|]. split; lia.
Qed.

(** C3 at the failing input.  On a store without paid periods, at the clock
    reading 100, [activatePlan] with [durationMs = -10] is not answered with
    [null]: the guard [!durationMs] lets the negative number through, and
    the call stores and returns [max(100, 100, 0) + (-10) = 90].  The second
    call in succession returns 90 again, which is neither later than the
    first nor off from it by the duration. *)
Theorem activatePlan_negative_duration_does_not_stack :
  activatePlan 100 (Some "t") (Some (-10)) (Some 100) fresh_store
  = (Some 90, setPaidUntil "t" 90 fresh_store)
  /\ getPaidUntil "t" (setPaidUntil "t" 90 fresh_store) = 90
  /\ activatePlan 100 (Some "t") (Some (-10)) (Some 100)
       (setPaidUntil "t" 90 fresh_store)
     = (Some 90, setPaidUntil "t" 90 (setPaidUntil "t" 90 fresh_store))
  /\ ~ stacks_by 100 (Some "t") (-10) fresh_store.
Proof.
  split; [reflexivity|]. split; [reflexivity|]. split; [reflexivity|].
  intros (first & second & s1 & s2 & H1 & H2 & Heq & Hlt). lia.
Qed.

(** C4 at the failing input: the tenant holds a paid-until of 2000, and an
    activation with [durationMs = -500] at the clock reading 1000 is accepted
    and stores 1500. *)
Lemma activatePlan_negative_duration_moves_back :
  getPaidUntil "t" paid_store = 2000
  /\ (activatePlan 1000 (Some "t") (Some (-500)) (Some 1000) paid_store).1
     = Some 1500
  /\ getPaidUntil "t"
       (activatePlan 1000 (Some "t") (Some (-500)) (Some 1000) paid_store).2
     = 1500
  /\ getPaidUntil "t"
       (activatePlan 1000 (Some "t") (Some (-500)) (Some 1000) paid_store).2
     < getPaidUntil "t" paid_store.
Proof.
  repeat split; reflexivity.
Qed.

(** For a positive duration and a new paid-until below [1e21] the stored
    paid-until moves forward, and the paid-until of every other tenant
    stays. *)
Lemma activatePlan_positive_moves_forward (now : Z) (raw : option string)
    (D : Z) (paidAt : option Z) (s : Store) (next : Z) :
  truthy_str (normalizeBaseId raw) = true -> 0 < D ->
  (activatePlan now raw (Some D) paidAt s).1 = Some next ->
  Z.abs next < 10 ^ 21 ->
  let s' := (activatePlan now raw (Some D) paidAt s).2 in
  getPaidUntil (normalizeBaseId raw) s < getPaidUntil (normalizeBaseId raw) s'
  /\ forall other, other <> normalizeBaseId raw ->
       getPaidUntil other s' = getPaidUntil other s.
Proof.
  intros Hb HD Hnext Hsmall s'. assert (HD0 : D <> 0) by lia.
  pose proof (activatePlan_accepted now raw D paidAt s Hb HD0) as H.
  cbv zeta in H. unfold s'. rewrite H in *. cbn [fst snd] in *.
  injection Hnext as Hnext. rewrite Hnext. split.
  - rewrite getPaidUntil_setPaidUntil_small by assumption. lia.
  - intros other Hne. apply getPaidUntil_setPaidUntil_other, Hne.
Qed.

(** *** The trial counter *)

Lemma uncovered_not_paid (cfg : Config) (now : Z) (tenant : string) (s : Store) :
  uncovered cfg now tenant s -> paid (isPaidInfo cfg now tenant s) = false.
Proof.
  intros (_ & Hadm & Hpaid & Hexp). unfold isPaidInfo.
  destruct (decide (tenant ∈ adminSet s)); [contradiction|].
  destruct (decide (tenant ∈ paidBaseIds cfg)); [contradiction|].
  unfold truthy_Z. destruct (getPaidUntil tenant s =? 0) eqn:E0; [reflexivity|].
  cbn [negb]. destruct (now <=? getPaidUntil tenant s) eqn:E; [|reflexivity].
  exfalso. apply Hexp. split; [apply Z.eqb_neq, E0 | apply Z.leb_le, E].
Qed.

(** The trial branch of [consume] with a use left. *)
Lemma consume_trial_allowed (cfg : Config) (now : Z) (raw : option string) (s : Store) :
  let tenant := normalizeBaseId raw in
  truthy_str tenant = true -> uncovered cfg now tenant s ->
  0 < getFreeRemaining cfg tenant s ->
  let s' := {| usage := <[tenant := default 0 (usage s !! tenant) + 1]> (usage s);
               paidUntilMap := paidUntilMap s; adminSet := adminSet s;
               redeemList := redeemList s |} in
  consume cfg now raw s
  = (buildStatus tenant false (getFreeRemaining cfg tenant s') true
       (trial_message (getFreeRemaining cfg tenant s'))
       (Some (info_paidUntil (isPaidInfo cfg now tenant s))), s').
Proof.
  intros tenant Hb Hunc Hrem s'. unfold consume. fold tenant. rewrite Hb.
  cbn [negb]. destruct Hunc as (Hby & Hrest) eqn:Hu. rewrite Hby.
  rewrite (uncovered_not_paid cfg now tenant s) by (clear Hu; tauto).
  destruct (getFreeRemaining cfg tenant s <=? 0) eqn:E;
    [apply Z.leb_le in E; lia|]. reflexivity.
Qed.

(** The trial branch of [consume] with no use left. *)
Lemma consume_trial_denied (cfg : Config) (now : Z) (raw : option string) (s : Store) :
  let tenant := normalizeBaseId raw in
  truthy_str tenant = true -> uncovered cfg now tenant s ->
  getFreeRemaining cfg tenant s = 0 ->
  consume cfg now raw s
  = (buildStatus tenant false 0 false MsgTrialUsedUp
       (Some (info_paidUntil (isPaidInfo cfg now tenant s))), s).
Proof.
  intros tenant Hb Hunc Hrem. unfold consume. fold tenant. rewrite Hb.
  cbn [negb]. destruct Hunc as (Hby & Hrest) eqn:Hu. rewrite Hby.
  rewrite (uncovered_not_paid cfg now tenant s) by (clear Hu; tauto).
  rewrite Hrem. reflexivity.
Qed.

Lemma consume_repeat_denied (cfg : Config) (nows : list Z) (raw : option string)
    (s : Store) :
  let tenant := normalizeBaseId raw in
  truthy_str tenant = true ->
  Forall (fun t => uncovered cfg t tenant s) nows ->
  getFreeRemaining cfg tenant s = 0 ->
  (consume_repeat cfg nows raw s).2 = s
  /\ length (consume_repeat cfg nows raw s).1 = length nows
  /\ Forall (fun st => allowed st = false /\ freeRemaining st = 0)
       (consume_repeat cfg nows raw s).1.
Proof.
  intros tenant Hb Hall Hrem. induction Hall as [|now rest Hnow Hrest IH].
  - simpl. repeat split. constructor.
  - simpl. rewrite (consume_trial_denied cfg now raw s Hb Hnow Hrem).
    destruct (consume_repeat cfg rest raw s) as [sts s2] eqn:E.
    simpl in *. destruct IH as (IH1 & IH2 & IH3).
    repeat split; [exact IH1 | congruence |].
    constructor; [split; reflexivity | exact IH3].
Qed.

(** C5. For a tenant that only the trial can let in: with a trial use left,
    [consume] adds exactly one to the tenant's counter, leaves the other
    counters alone, and answers [allowed = true] with the remaining uses
    counted after the increment; with no trial use left it answers
    [allowed = false] and [freeRemaining = 0] and leaves the store as it is,
    however often it is called. *)
Theorem consume_trial_branch (cfg : Config) (now : Z) (raw : option string)
    (s : Store) :
  let tenant := normalizeBaseId raw in
  truthy_str tenant = true -> uncovered cfg now tenant s ->
  (0 < getFreeRemaining cfg tenant s ->
     let r := consume cfg now raw s in
     usage r.2 !! tenant = Some (default 0 (usage s !! tenant) + 1)
     /\ (forall other, other <> tenant -> usage r.2 !! other = usage s !! other)
     /\ allowed r.1 = true
     /\ freeRemaining r.1 = getFreeRemaining cfg tenant r.2
     /\ freeRemaining r.1 = getFreeRemaining cfg tenant s - 1)
  /\ (getFreeRemaining cfg tenant s = 0 ->
       (allowed (consume cfg now raw s).1 = false
        /\ freeRemaining (consume cfg now raw s).1 = 0
        /\ (consume cfg now raw s).2 = s)
       /\ forall nows, Forall (fun t => uncovered cfg t tenant s) nows ->
            (consume_repeat cfg nows raw s).2 = s
            /\ length (consume_repeat cfg nows raw s).1 = length nows
            /\ Forall (fun st => allowed st = false /\ freeRemaining st = 0)
                 (consume_repeat cfg nows raw s).1).
Proof.
  intros tenant Hb Hunc. split.
  - intros Hrem r. unfold r.
    rewrite (consume_trial_allowed cfg now raw s Hb Hunc Hrem). cbn [fst snd].
    fold tenant. cbn [usage allowed freeRemaining].
    split; [apply lookup_insert_eq|].
    split; [intros other Hne; apply lookup_insert_ne; congruence|].
    split; [reflexivity|]. split; [reflexivity|].
    unfold getFreeRemaining in *. cbn [usage]. rewrite lookup_insert_eq.
    cbn [default id]. lia.
  - intros Hrem. split.
    + rewrite (consume_trial_denied cfg now raw s Hb Hunc Hrem).
      repeat split.
    + intros nows Hall. apply consume_repeat_denied; assumption.
Qed.

Lemma fresh_uncovered (now : Z) (tenant : string) (s : Store) :
  adminSet s = ∅ -> paidUntilMap s = ∅ ->
  uncovered trial_config now tenant s.
Proof.
  intros Ha Hp. unfold uncovered, getPaidUntil. rewrite Ha, Hp, lookup_empty.
  cbn [default]. split; [reflexivity|]. split; [set_solver|].
  split; [set_solver|]. intros [H _]. apply H. reflexivity.
Qed.

Lemma consume_trial_branch_witness :
  (allowed (consume trial_config 0 (Some "base-1") fresh_store).1 = true
   /\ freeRemaining (consume trial_config 0 (Some "base-1") fresh_store).1 = 0)
  /\ (allowed (consume trial_config 0 (Some "base-1") used_up_store).1 = false
      /\ freeRemaining (consume trial_config 0 (Some "base-1") used_up_store).1
         = 0
      /\ (consume trial_config 0 (Some "base-1") used_up_store).2
         = used_up_store).
Proof.
  split.
  - assert (Hunc : uncovered trial_config 0 "base-1" fresh_store)
      by (apply fresh_uncovered; reflexivity).
    destruct (proj1 (consume_trial_branch trial_config 0 (Some "base-1")
                       fresh_store eq_refl Hunc) eq_refl)
      as (_ & _ & Hal & _ & Hfr).
    split; [exact Hal | exact Hfr].
  - assert (Hunc : uncovered trial_config 0 "base-1" used_up_store)
      by (apply fresh_uncovered; reflexivity).
    exact (proj1 (proj2 (consume_trial_branch trial_config 0 (Some "base-1")
                           used_up_store eq_refl Hunc) eq_refl)).
Defined.

(** *** Bounds on [freeRemaining] *)

Lemma getFreeRemaining_bounds (cfg : Config) (tenant : string) (s : Store) :
  0 <= trialLimit cfg -> counters_nonneg s ->
  0 <= getFreeRemaining cfg tenant s <= trialLimit cfg.
Proof.
  intros Hlim Hinv. unfold getFreeRemaining.
  assert (0 <= default 0 (usage s !! tenant)).
  { destruct (usage s !! tenant) as [n|] eqn:E; simpl; [|lia].
    exact (map_Forall_lookup_1 _ _ _ _ Hinv E). }
  lia.
Qed.

Lemma getStatus_bounds (cfg : Config) (now : Z) (raw : option string) (s : Store) :
  0 <= trialLimit cfg -> counters_nonneg s ->
  0 <= freeRemaining (getStatus cfg now raw s) <= trialLimit cfg.
Proof.
  intros Hlim Hinv. unfold getStatus.
  destruct (truthy_str (normalizeBaseId raw)); cbn [negb freeRemaining]; [|lia].
  destruct (allowBypass cfg); cbn [freeRemaining]; [lia|].
  destruct (paid (isPaidInfo cfg now (normalizeBaseId raw) s));
    cbn [freeRemaining]; [lia|].
  apply getFreeRemaining_bounds; assumption.
Qed.

Lemma consume_counters (cfg : Config) (now : Z) (raw : option string) (s : Store) :
  counters_nonneg s -> counters_nonneg (consume cfg now raw s).2.
Proof.
  intros Hinv. unfold consume.
  destruct (truthy_str (normalizeBaseId raw)); cbn [negb snd]; [|exact Hinv].
  destruct (allowBypass cfg); cbn [snd]; [exact Hinv|].
  destruct (paid (isPaidInfo cfg now (normalizeBaseId raw) s));
    cbn [snd]; [exact Hinv|].
  destruct (getFreeRemaining cfg (normalizeBaseId raw) s <=? 0);
    cbn [snd]; [exact Hinv|].
  unfold counters_nonneg. cbn [usage]. apply map_Forall_insert_2; [|exact Hinv].
  destruct (usage s !! normalizeBaseId raw) as [n|] eqn:E; simpl; [|lia].
  pose proof (map_Forall_lookup_1 _ _ _ _ Hinv E). simpl in *. lia.
Qed.

Lemma consume_bounds (cfg : Config) (now : Z) (raw : option string) (s : Store) :
  0 <= trialLimit cfg -> counters_nonneg s ->
  0 <= freeRemaining (consume cfg now raw s).1 <= trialLimit cfg.
Proof.
  intros Hlim Hinv. pose proof (consume_counters cfg now raw s Hinv) as Hinv'.
  revert Hinv'. unfold consume.
  destruct (truthy_str (normalizeBaseId raw)); cbn [negb fst snd freeRemaining];
    [|lia].
  destruct (allowBypass cfg); cbn [fst snd freeRemaining]; [lia|].
  destruct (paid (isPaidInfo cfg now (normalizeBaseId raw) s));
    cbn [fst snd freeRemaining]; [lia|].
  destruct (getFreeRemaining cfg (normalizeBaseId raw) s <=? 0);
    cbn [fst snd freeRemaining]; [lia|].
  intros Hinv'. apply getFreeRemaining_bounds; assumption.
Qed.

Lemma activatePlan_usage (now : Z) (b : option string) (d p : option Z) (s : Store) :
  usage (activatePlan now b d p s).2 = usage s.
Proof.
  unfold activatePlan. destruct d as [D|]; [|reflexivity].
  destruct (truthy_str (normalizeBaseId b) && truthy_Z D) eqn:E; [|reflexivity].
  cbn [snd]. unfold setPaidUntil.
  destruct (truthy_str (normalizeBaseId b)); reflexivity.
Qed.

Lemma redeem_usage (hashCode : string -> string) (now : Z) (b : option string)
    (code : string) (s : Store) :
  usage (redeem hashCode now b code s).2 = usage s.
Proof.
  unfold redeem.
  destruct (truthy_str (normalizeBaseId b) && truthy_str code); cbn [negb];
    [|reflexivity].
  destruct (find_code _ _) as [[i item]|]; [|reflexivity].
  destruct (is_used item); [reflexivity|].
  pose proof (activatePlan_usage now (Some (normalizeBaseId b))
                (durationMs item) (Some now) s) as H.
  destruct (activatePlan _ _ _ _ _) as [r s1]. exact H.
Qed.

Lemma step_counters (hashCode : string -> string) (cfg : Config) (now : Z)
    (op : Op) (s : Store) :
  counters_nonneg s -> counters_nonneg (step hashCode cfg now op s).2.
Proof.
  intros Hinv. destruct op as [raw|raw|b d p|b e|c d|b c]; unfold step.
  - exact Hinv.
  - pose proof (consume_counters cfg now raw s Hinv) as H.
    destruct (consume cfg now raw s). exact H.
  - unfold counters_nonneg. pose proof (activatePlan_usage now b d p s) as H.
    destruct (activatePlan now b d p s). cbn [snd] in *. rewrite H. exact Hinv.
  - unfold setAdmin. destruct (truthy_str (normalizeBaseId b)); exact Hinv.
  - unfold addRedeemCode. destruct (truthy_str c && truthy_optZ d); exact Hinv.
  - unfold counters_nonneg. pose proof (redeem_usage hashCode now b c s) as H.
    destruct (redeem hashCode now b c s). cbn [snd] in *. rewrite H. exact Hinv.
Qed.

Lemma step_status_bounds (hashCode : string -> string) (cfg : Config) (now : Z)
    (op : Op) (s : Store) (st : Status) :
  0 <= trialLimit cfg -> counters_nonneg s ->
  (step hashCode cfg now op s).1 = ReplyStatus st ->
  0 <= freeRemaining st <= trialLimit cfg.
Proof.
  intros Hlim Hinv. destruct op as [raw|raw|b d p|b e|c d|b c]; unfold step.
  - intros [= <-]. apply getStatus_bounds; assumption.
  - pose proof (consume_bounds cfg now raw s Hlim Hinv) as H.
    destruct (consume cfg now raw s). intros [= <-]. exact H.
  - destruct (activatePlan now b d p s). discriminate.
  - destruct (setAdmin b e s). discriminate.
  - destruct (addRedeemCode hashCode c d s). discriminate.
  - destruct (redeem hashCode now b c s). discriminate.
Qed.

Lemma run_status_bounds (hashCode : string -> string) (cfg : Config)
    (ops : list (Z * Op)) (s : Store) (st : Status) :
  0 <= trialLimit cfg -> counters_nonneg s ->
  ReplyStatus st ∈ (run hashCode cfg ops s).1 ->
  0 <= freeRemaining st <= trialLimit cfg.
Proof.
  intros Hlim. revert s. induction ops as [|[now op] rest IH]; intros s Hinv.
  - simpl. intros H. apply elem_of_nil in H. contradiction.
  - simpl. pose proof (step_counters hashCode cfg now op s Hinv) as Hinv1.
    pose proof (step_status_bounds hashCode cfg now op s st Hlim Hinv) as Hst.
    destruct (step hashCode cfg now op s) as [r s1]. cbn [fst snd] in *.
    specialize (IH s1 Hinv1).
    destruct (run hashCode cfg rest s1) as [rs s2]. cbn [fst] in *.
    intros [E | Hin]%elem_of_cons; [apply Hst; congruence | apply IH, Hin].
Qed.

(** What [consume] reports on each branch: the full trial limit on the
    bypass, administrator and paid branches; on the trial branch
    [max(0, trialLimit - used)], where [used] is the tenant's counter when
    the call returns, the use it has just counted included. *)
Lemma consume_freeRemaining (cfg : Config) (now : Z) (raw : option string)
    (s : Store) :
  truthy_str (normalizeBaseId raw) = true ->
  freeRemaining (consume cfg now raw s).1
  = if allowBypass cfg || paid (isPaidInfo cfg now (normalizeBaseId raw) s)
    then trialLimit cfg
    else Z.max 0 (trialLimit cfg
                  - default 0 (usage (consume cfg now raw s).2
                               !! normalizeBaseId raw)).
Proof.
  intros Hb. unfold consume. rewrite Hb. cbn [negb].
  destruct (allowBypass cfg); [reflexivity|]. cbn [orb].
  destruct (paid (isPaidInfo cfg now (normalizeBaseId raw) s)); [reflexivity|].
  destruct (getFreeRemaining cfg (normalizeBaseId raw) s <=? 0) eqn:E;
    cbn [fst snd freeRemaining].
  - apply Z.leb_le in E. unfold getFreeRemaining in E. lia.
  - reflexivity.
Qed.

(** The counter that the trial branch of [consume] reports against: the
    call adds one when a use is left and leaves the counter otherwise. *)
Lemma consume_trial_counter (cfg : Config) (now : Z) (raw : option string)
    (s : Store) :
  truthy_str (normalizeBaseId raw) = true ->
  allowBypass cfg || paid (isPaidInfo cfg now (normalizeBaseId raw) s) = false ->
  default 0 (usage (consume cfg now raw s).2 !! normalizeBaseId raw)
  = if 0 <? getFreeRemaining cfg (normalizeBaseId raw) s
    then default 0 (usage s !! normalizeBaseId raw) + 1
    else default 0 (usage s !! normalizeBaseId raw).
Proof.
  intros Hb Hcov. apply orb_false_iff in Hcov as [Hby Hpaid].
  unfold consume. rewrite Hb, Hby, Hpaid. cbn [negb].
  destruct (getFreeRemaining cfg (normalizeBaseId raw) s <=? 0) eqn:E;
    cbn [snd usage].
  - apply Z.leb_le in E.
    assert (H : (0 <? getFreeRemaining cfg (normalizeBaseId raw) s) = false)
      by (apply Z.ltb_ge; exact E).
    rewrite H. reflexivity.
  - apply Z.leb_gt in E.
    assert (H : (0 <? getFreeRemaining cfg (normalizeBaseId raw) s) = true)
      by (apply Z.ltb_lt; exact E).
    rewrite H, lookup_insert_eq. reflexivity.
Qed.

(** C7. With a trial limit that is a nonnegative integer, every status that
    [getStatus] or [consume] returns in a run of store calls has
    [0 <= freeRemaining <= trialLimit].  For a tenant key both calls report
    the full trial limit on the bypass, administrator and paid branches and
    [max(0, trialLimit - used)] on the trial branch: [getStatus] with the
    tenant's counter as it stands, [consume] with the counter as the call
    leaves it, which is one more than before when a use was left and the
    same otherwise.  For a blank tenant key both report 0. *)
Theorem freeRemaining_within_trial_limit
    (hashCode : string -> string) (cfg : Config) (adminBaseIds : gset string)
    (paidUntilByBaseId : gmap string Z) (redeemCodes : list RedeemCode) :
  0 <= trialLimit cfg ->
  (forall ops st,
     ReplyStatus st ∈
       (run hashCode cfg ops
          (createSubscriptionStore adminBaseIds paidUntilByBaseId redeemCodes)).1 ->
     0 <= freeRemaining st <= trialLimit cfg)
  /\ (forall now raw s,
        truthy_str (normalizeBaseId raw) = true ->
        freeRemaining (getStatus cfg now raw s)
        = if allowBypass cfg || paid (isPaidInfo cfg now (normalizeBaseId raw) s)
          then trialLimit cfg
          else Z.max 0 (trialLimit cfg
                        - default 0 (usage s !! normalizeBaseId raw)))
  /\ (forall now raw s,
        truthy_str (normalizeBaseId raw) = true ->
        freeRemaining (consume cfg now raw s).1
        = (if allowBypass cfg || paid (isPaidInfo cfg now (normalizeBaseId raw) s)
           then trialLimit cfg
           else Z.max 0 (trialLimit cfg
                         - default 0 (usage (consume cfg now raw s).2
                                      !! normalizeBaseId raw)))
        /\ (allowBypass cfg || paid (isPaidInfo cfg now (normalizeBaseId raw) s)
            = false ->
            default 0 (usage (consume cfg now raw s).2 !! normalizeBaseId raw)
            = if 0 <? getFreeRemaining cfg (normalizeBaseId raw) s
              then default 0 (usage s !! normalizeBaseId raw) + 1
              else default 0 (usage s !! normalizeBaseId raw)))
  /\ (forall now raw s,
        truthy_str (normalizeBaseId raw) = false ->
        freeRemaining (getStatus cfg now raw s) = 0
        /\ freeRemaining (consume cfg now raw s).1 = 0).
Proof.
  intros Hlim. split; [|split; [|split]].
  - intros ops st. apply run_status_bounds; [exact Hlim|].
    unfold counters_nonneg, createSubscriptionStore. cbn [usage].
    apply map_Forall_empty.
  - intros now raw s Hb. unfold getStatus. rewrite Hb. cbn [negb].
    destruct (allowBypass cfg); [reflexivity|]. cbn [orb].
    destruct (paid (isPaidInfo cfg now (normalizeBaseId raw) s)); reflexivity.
  - intros now raw s Hb. split.
    + apply consume_freeRemaining, Hb.
    + apply consume_trial_counter, Hb.
  - intros now raw s Hb. unfold getStatus, consume. rewrite Hb.
    split; reflexivity.
Qed.

Lemma freeRemaining_within_trial_limit_witness :
  0 <= trialLimit trial_config
  /\ (ReplyStatus used_up_status ∈
        (run plain_hash trial_config trial_run (createSubscriptionStore ∅ ∅ [])).1
      /\ 0 <= freeRemaining used_up_status <= trialLimit trial_config)
  /\ freeRemaining (consume trial_config 1500 (Some "t") paid_store).1
     = trialLimit trial_config
  /\ freeRemaining (consume trial_config 0 (Some "base-1") fresh_store).1
     = Z.max 0 (trialLimit trial_config - 1).
Proof.
  assert (Hin : ReplyStatus used_up_status ∈
    (run plain_hash trial_config trial_run (createSubscriptionStore ∅ ∅ [])).1).
  { apply elem_of_cons. left. reflexivity. }
  assert (Hlim : 0 <= trialLimit trial_config) by (simpl; lia).
  split; [exact Hlim|]. split; [split; [exact Hin|]|split].
  - exact (proj1 (freeRemaining_within_trial_limit plain_hash trial_config
                    ∅ ∅ [] Hlim) trial_run used_up_status Hin).
  - exact (proj1 (proj1 (proj2 (proj2 (freeRemaining_within_trial_limit
                                         plain_hash trial_config ∅ ∅ [] Hlim)))
                    1500 (Some "t") paid_store eq_refl)).
  - exact (proj1 (proj1 (proj2 (proj2 (freeRemaining_within_trial_limit
                                         plain_hash trial_config ∅ ∅ [] Hlim)))
                    0 (Some "base-1") fresh_store eq_refl)).
Defined.

(** *** Redeem codes *)

Lemma find_code_hash (h : string) (l : list RedeemCode) (i : nat) (x : RedeemCode) :
  find_code h l = Some (i, x) -> l !! i = Some x /\ codeHash x = h.
Proof.
  unfold find_code. intros (Hl & Hh & _)%list_find_Some. auto.
Qed.

(** [push] keeps the earliest record of a digest. *)
Lemma find_code_push (h : string) (l : list RedeemCode) (y : RedeemCode)
    (i : nat) (x : RedeemCode) :
  find_code h l = Some (i, x) -> find_code h (l ++ [y]) = Some (i, x).
Proof. unfold find_code. apply list_find_app_l. Qed.

(** Assigning to the fields [usedAt] and [usedBy] of the record found for a
    digest leaves it the earliest record of that digest. *)
Lemma find_code_mark (h : string) (l : list RedeemCode) (i : nat)
    (x y : RedeemCode) :
  find_code h l = Some (i, x) -> codeHash y = h ->
  find_code h (<[i := y]> l) = Some (i, y).
Proof.
  unfold find_code. intros (Hl & Hh & Hmin)%list_find_Some Hy.
  apply list_find_Some. split; [|split].
  - apply list_lookup_insert_eq. eapply lookup_lt_Some, Hl.
  - exact Hy.
  - intros j z Hj Hlt. rewrite list_lookup_insert_ne in Hj by lia.
    exact (Hmin j z Hj Hlt).
Qed.

(** ... and does not change what is found for another digest. *)
Lemma find_code_mark_other (h h' : string) (l : list RedeemCode) (i j : nat)
    (x y z : RedeemCode) :
  find_code h' l = Some (i, x) -> codeHash y = h' -> h' <> h ->
  find_code h l = Some (j, z) ->
  find_code h (<[i := y]> l) = Some (j, z).
Proof.
  unfold find_code.
  intros (Hl & Hh & _)%list_find_Some Hy Hne (Hl2 & Hh2 & Hmin)%list_find_Some.
  assert (Hij : i <> j) by (intros ->; congruence).
  apply list_find_Some. split; [|split].
  - rewrite list_lookup_insert_ne by exact Hij. exact Hl2.
  - exact Hh2.
  - intros k w Hk Hlt. destruct (decide (i = k)) as [<-|Hik].
    + rewrite list_lookup_insert_eq in Hk by (eapply lookup_lt_Some, Hl).
      injection Hk as <-. congruence.
    + rewrite list_lookup_insert_ne in Hk by exact Hik. exact (Hmin k w Hk Hlt).
Qed.

Lemma activatePlan_redeemList (now : Z) (b : option string) (d p : option Z)
    (s : Store) :
  redeemList (activatePlan now b d p s).2 = redeemList s.
Proof.
  unfold activatePlan. destruct d as [D|]; [|reflexivity].
  destruct (truthy_str (normalizeBaseId b) && truthy_Z D); [|reflexivity].
  cbn [snd]. unfold setPaidUntil.
  destruct (truthy_str (normalizeBaseId b)); reflexivity.
Qed.

(** What a redemption that passes the checks does. *)
Lemma redeem_accepted (hashCode : string -> string) (now : Z)
    (b : option string) (code : string) (s : Store) (i : nat) (item : RedeemCode) :
  truthy_str (normalizeBaseId b) = true -> truthy_str code = true ->
  find_code (hashCode code) (redeemList s) = Some (i, item) ->
  is_used item = false ->
  let act := activatePlan now (Some (normalizeBaseId b)) (durationMs item)
               (Some now) s in
  redeem hashCode now b code s
  = (RedeemOk act.1,
     {| usage := usage act.2; paidUntilMap := paidUntilMap act.2;
        adminSet := adminSet act.2;
        redeemList :=
          <[i := mkCode (codeHash item) (durationMs item) now
                   (normalizeBaseId b)]> (redeemList s) |}).
Proof.
  intros Hb Hc Hf Hu act. unfold redeem. rewrite Hb, Hc, Hf, Hu. cbn [andb negb].
  pose proof (activatePlan_redeemList now (Some (normalizeBaseId b))
                (durationMs item) (Some now) s) as Hl.
  fold act in Hl |- *. destruct act as [r s1]. cbn [fst snd] in *.
  rewrite Hl. reflexivity.
Qed.

(** A redemption that succeeds went through the checks. *)
Lemma redeem_ok_inv (hashCode : string -> string) (now : Z)
    (b : option string) (code : string) (s s1 : Store) (p : option Z) :
  redeem hashCode now b code s = (RedeemOk p, s1) ->
  truthy_str (normalizeBaseId b) = true /\ truthy_str code = true /\
  exists i item, find_code (hashCode code) (redeemList s) = Some (i, item) /\
                 is_used item = false.
Proof.
  unfold redeem.
  destruct (truthy_str (normalizeBaseId b)); cbn [andb negb]; [|discriminate].
  destruct (truthy_str code); cbn [negb]; [|discriminate].
  destruct (find_code _ _) as [[i item]|] eqn:Hf; [|discriminate].
  destruct (is_used item) eqn:Hu; [discriminate|].
  intros _. split; [reflexivity|]. split; [reflexivity|]. eauto.
Qed.

Lemma redeem_marks_used (hashCode : string -> string) (now : Z)
    (b : option string) (code : string) (s s1 : Store) (p : option Z) :
  now <> 0 ->
  redeem hashCode now b code s = (RedeemOk p, s1) ->
  first_used (hashCode code) s1.
Proof.
  intros Hnow H.
  destruct (redeem_ok_inv _ _ _ _ _ _ _ H) as (Hb & Hc & i & item & Hf & Hu).
  rewrite (redeem_accepted hashCode now b code s i item Hb Hc Hf Hu) in H.
  injection H as _ <-. unfold first_used. cbn [redeemList].
  exists i, (mkCode (codeHash item) (durationMs item) now (normalizeBaseId b)).
  split.
  - apply (find_code_mark _ _ _ item); [exact Hf|].
    cbn [codeHash]. apply (find_code_hash _ _ _ _ Hf).
  - unfold is_used, truthy_Z. cbn [usedAt usedBy]. rewrite Hb.
    destruct (now =? 0) eqn:E; [apply Z.eqb_eq in E; contradiction|reflexivity].
Qed.

(** Once the earliest record of a digest is used, a redemption of a code
    with that digest is refused and the store stays as it is. *)
Lemma redeem_refused (hashCode : string -> string) (now : Z)
    (b : option string) (code : string) (s : Store) :
  first_used (hashCode code) s ->
  truthy_str (normalizeBaseId b) = true -> truthy_str code = true ->
  redeem hashCode now b code s = (RedeemFailed CodeAlreadyUsed, s).
Proof.
  intros (i & item & Hf & Hu) Hb Hc. unfold redeem.
  rewrite Hb, Hc, Hf, Hu. reflexivity.
Qed.

Lemma step_first_used (hashCode : string -> string) (cfg : Config) (now : Z)
    (op : Op) (h : string) (s : Store) :
  first_used h s -> first_used h (step hashCode cfg now op s).2.
Proof.
  intros Hfu. destruct op as [raw|raw|b d p|b e|c d|b c]; unfold step.
  - exact Hfu.
  - assert (Hl : redeemList (consume cfg now raw s).2 = redeemList s).
    { unfold consume.
      repeat match goal with
             | |- context [if ?c then _ else _] => destruct c
             end; reflexivity. }
    destruct (consume cfg now raw s) as [r s']. cbn [snd] in *.
    unfold first_used. rewrite Hl. exact Hfu.
  - pose proof (activatePlan_redeemList now b d p s) as Hl.
    destruct (activatePlan now b d p s) as [r s']. cbn [snd] in *.
    unfold first_used. rewrite Hl. exact Hfu.
  - unfold setAdmin. destruct (truthy_str (normalizeBaseId b)); exact Hfu.
  - unfold addRedeemCode. destruct (truthy_str c && truthy_optZ d); [|exact Hfu].
    cbn [snd]. destruct Hfu as (i & item & Hf & Hu).
    exists i, item. split; [|exact Hu]. cbn [redeemList].
    apply find_code_push, Hf.
  - destruct (redeem hashCode now b c s) as [r s'] eqn:Hr. cbn [snd].
    destruct r as [e|p].
    + assert (s' = s); [|subst; exact Hfu].
      revert Hr. unfold redeem.
      destruct (negb _); [congruence|].
      destruct (find_code _ _) as [[i item]|]; [|congruence].
      destruct (is_used item); [congruence|].
      destruct (activatePlan _ _ _ _ _). discriminate.
    + destruct (redeem_ok_inv _ _ _ _ _ _ _ Hr) as (Hb & Hc & i & item & Hf & Hu).
      rewrite (redeem_accepted hashCode now b c s i item Hb Hc Hf Hu) in Hr.
      injection Hr as _ <-. destruct Hfu as (j & z & Hfz & Huz).
      exists j, z. split; [|exact Huz]. cbn [redeemList].
      apply (find_code_mark_other h (hashCode c) _ i j item); try assumption.
      * cbn [codeHash]. apply (find_code_hash _ _ _ _ Hf).
      * intros Heq. rewrite Heq in Hf. congruence.
Qed.

Lemma run_first_used (hashCode : string -> string) (cfg : Config)
    (ops : list (Z * Op)) (h : string) (s : Store) :
  first_used h s -> first_used h (run hashCode cfg ops s).2.
Proof.
  revert s. induction ops as [|[now op] rest IH]; intros s Hfu; [exact Hfu|].
  simpl. pose proof (step_first_used hashCode cfg now op h s Hfu) as H1.
  destruct (step hashCode cfg now op s) as [r s1]. cbn [snd] in H1.
  specialize (IH s1 H1). destruct (run hashCode cfg rest s1) as [rs s2].
  exact IH.
Qed.

(** C9. [redeem] consults the earliest record of the digest.  Once that
    record is marked used, every later redemption of the plaintext, by any
    tenant and after any further store calls (more codes with the same
    plaintext among them), is refused as already used and leaves the store,
    later duplicates included, as it is.  A redemption that succeeds marks
    the earliest record used, so the plaintext is redeemed at most once. *)
Theorem redeem_at_most_once
    (hashCode : string -> string) (cfg : Config) (code : string) (s : Store) :
  (forall i item,
     find_code (hashCode code) (redeemList s) = Some (i, item) ->
     redeemList s !! i = Some item /\
     forall j other, redeemList s !! j = Some other -> (j < i)%nat ->
                     codeHash other <> hashCode code)
  /\ (first_used (hashCode code) s -> truthy_str code = true ->
      forall ops now b, truthy_str (normalizeBaseId b) = true ->
        first_used (hashCode code) (run hashCode cfg ops s).2
        /\ redeem hashCode now b code (run hashCode cfg ops s).2
           = (RedeemFailed CodeAlreadyUsed, (run hashCode cfg ops s).2))
  /\ (forall now b p s1,
        now <> 0 -> redeem hashCode now b code s = (RedeemOk p, s1) ->
        first_used (hashCode code) s1
        /\ forall ops now2 b2, truthy_str (normalizeBaseId b2) = true ->
             redeem hashCode now2 b2 code (run hashCode cfg ops s1).2
             = (RedeemFailed CodeAlreadyUsed, (run hashCode cfg ops s1).2)).
Proof.
  split; [|split].
  - intros i item (Hl & _ & Hmin)%list_find_Some. split; [exact Hl|].
    intros j other Hj Hlt. exact (Hmin j other Hj Hlt).
  - intros Hfu Hc ops now b Hb.
    pose proof (run_first_used hashCode cfg ops _ s Hfu) as H.
    split; [exact H|]. apply redeem_refused; assumption.
  - intros now b p s1 Hnow Hr.
    pose proof (redeem_marks_used _ _ _ _ _ _ _ Hnow Hr) as Hfu.
    destruct (redeem_ok_inv _ _ _ _ _ _ _ Hr) as (_ & Hc & _).
    split; [exact Hfu|]. intros ops now2 b2 Hb2.
    apply redeem_refused; [|exact Hb2|exact Hc].
    apply run_first_used, Hfu.
Qed.

Lemma redeem_at_most_once_witness :
  redeem plain_hash 5 (Some "a") "PROMO" promo_store
  = (RedeemOk (Some 1005), promo_redeemed)
  /\ redeem plain_hash 9 (Some "b") "PROMO"
       (run plain_hash trial_config
          [(6, OpAddRedeemCode "PROMO" (Some 1000)); (7, OpConsume (Some "b"))]
          promo_redeemed).2
     = (RedeemFailed CodeAlreadyUsed,
        (run plain_hash trial_config
           [(6, OpAddRedeemCode "PROMO" (Some 1000)); (7, OpConsume (Some "b"))]
           promo_redeemed).2).
Proof.
  assert (Hr : redeem plain_hash 5 (Some "a") "PROMO" promo_store
               = (RedeemOk (Some 1005), promo_redeemed)) by reflexivity.
  split; [exact Hr|].
  assert (Hnow : 5 <> 0) by lia.
  apply (proj2 (proj2 (proj2 (redeem_at_most_once plain_hash trial_config
                                "PROMO" promo_store))
                  5 (Some "a") (Some 1005) promo_redeemed Hnow Hr)).
  reflexivity.
Defined.

Lemma map_set_values_mem (k : string) (v : RedeemCode)
    (m : list (string * RedeemCode)) (r : RedeemCode) :
  r ∈ (map_set k v m).*2 -> r = v \/ r ∈ m.*2.
Proof.
  induction m as [|[k' v'] m IH]; simpl.
  - intros [->|H]%elem_of_cons; [left; reflexivity | right; exact H].
  - destruct (String.eqb k' k); simpl.
    + intros [->|H]%elem_of_cons; [left; reflexivity|].
      right. apply elem_of_cons. right. exact H.
    + intros [->|H]%elem_of_cons.
      * right. apply elem_of_cons. left. reflexivity.
      * destruct (IH H) as [->|H']; [left; reflexivity|].
        right. apply elem_of_cons. right. exact H'.
Qed.

(** [mergeRedeemCodes] passes records through as they are: every record of
    the result is a record of one of the two lists, with the [durationMs]
    it had there. *)
Lemma mergeRedeemCodes_passes_through (baseList extraList : list RedeemCode)
    (r : RedeemCode) :
  r ∈ mergeRedeemCodes baseList extraList -> r ∈ baseList ++ extraList.
Proof.
  unfold mergeRedeemCodes.
  assert (Hgen : forall l m,
            r ∈ (foldl (fun m item =>
                          if truthy_str (codeHash item)
                          then map_set (codeHash item)
                                 {| codeHash := codeHash item;
                                    durationMs := durationMs item;
                                    usedAt := usedAt item;
                                    usedBy := usedBy item |} m
                          else m) m l).*2 ->
            r ∈ m.*2 \/ r ∈ l).
  { induction l as [|x l IH]; intros m; simpl; [auto|].
    intros H. destruct (IH _ H) as [Hm|Hl].
    - destruct (truthy_str (codeHash x)); [|auto].
      destruct (map_set_values_mem _ _ _ _ Hm) as [->|Hm'].
      + right. destruct x. apply elem_of_cons. left. reflexivity.
      + left. exact Hm'.
    - right. apply elem_of_cons. right. exact Hl. }
  intros H. destruct (Hgen _ _ H) as [Hm|Hl]; [|exact Hl].
  simpl in Hm. apply elem_of_nil in Hm. contradiction.
Qed.

(** C10. When the record found for the code is unused and its [durationMs]
    is missing or zero, [redeem] answers [{ ok: true, paidUntil: null }],
    sets [usedAt] and [usedBy] of the record, and leaves the paid-until map
    as it was.  Such a record can come from the persisted snapshot:
    [mergeRedeemCodes] keeps a record with its [durationMs] as it is. *)
Theorem redeem_without_duration_consumes_code
    (hashCode : string -> string) (now : Z) (b : option string) (code : string)
    (s : Store) (i : nat) (item : RedeemCode) :
  truthy_str (normalizeBaseId b) = true -> truthy_str code = true ->
  find_code (hashCode code) (redeemList s) = Some (i, item) ->
  is_used item = false ->
  truthy_optZ (durationMs item) = false ->
  let marked := mkCode (codeHash item) (durationMs item) now (normalizeBaseId b) in
  let r := redeem hashCode now b code s in
  r.1 = RedeemOk None
  /\ paidUntilMap r.2 = paidUntilMap s
  /\ usage r.2 = usage s /\ adminSet r.2 = adminSet s
  /\ redeemList r.2 = <[i := marked]> (redeemList s)
  /\ redeemList r.2 !! i = Some marked
  /\ (forall rec, truthy_str (codeHash rec) = true ->
        mergeRedeemCodes [rec] [] = [rec]).
Proof.
  intros Hb Hc Hf Hu Hd marked r. unfold r.
  rewrite (redeem_accepted hashCode now b code s i item Hb Hc Hf Hu).
  rewrite (activatePlan_rejected now (Some (normalizeBaseId b))
             (durationMs item) (Some now) s (or_intror Hd)).
  cbn [fst snd usage paidUntilMap adminSet redeemList].
  repeat split.
  - apply list_lookup_insert_eq. eapply lookup_lt_Some.
    apply (find_code_hash _ _ _ _ Hf).
  - intros rec Hrec. unfold mergeRedeemCodes. simpl. rewrite Hrec.
    destruct rec. reflexivity.
Qed.

Lemma redeem_without_duration_consumes_code_witness :
  redeem plain_hash 7 (Some "a") "GIFT" gift_store
  = (RedeemOk None,
     createSubscriptionStore ∅ ∅ [mkCode "GIFT" None 7 "a"]).
Proof.
  pose proof (redeem_without_duration_consumes_code plain_hash 7 (Some "a")
                "GIFT" gift_store 0%nat gift_record
                eq_refl eq_refl eq_refl eq_refl eq_refl) as H.
  cbv zeta in H. destruct H as (H1 & H2 & H3 & H4 & H5 & _).
  destruct (redeem plain_hash 7 (Some "a") "GIFT" gift_store) as [r s'].
  cbn [fst snd] in *. subst r. destruct s'. cbn in *. subst.
  reflexivity.
Defined.

End SubscriptionFacts.

(** ** The persistence sink *)

Module PersistFacts.
Import Js Persist.

Lemma readStore_complete (parsed : option Snapshot) : complete (readStore parsed).
Proof.
  destruct parsed; unfold complete, readStore; cbn; repeat split; eauto.
Qed.

Lemma merge_complete (data c : Snapshot) : complete (merge data c).
Proof. unfold complete, merge; cbn; repeat split; eauto. Qed.

Lemma coalesce_field {A} (d c : option A) (dflt : A) :
  is_Some c -> field_merged d c (Some (coalesce d c dflt)).
Proof.
  intros [v ->]. destruct d; reflexivity.
Qed.

Lemma merge_fieldwise (data c : Snapshot) :
  complete c -> merged_fieldwise data c (merge data c).
Proof.
  intros (H1 & H2 & H3 & H4 & H5 & H6). unfold merged_fieldwise, merge. cbn.
  repeat split; apply coalesce_field; assumption.
Qed.

Lemma writeStore_complete (stringify : Snapshot -> string) (storePath : string)
    (data : Snapshot) (k : Sink) :
  complete (cache k) -> complete (cache (writeStore stringify storePath data k)).
Proof.
  intros H. unfold writeStore. destruct (truthy_str storePath); cbn; [|exact H].
  apply merge_complete.
Qed.

Lemma sink_after_complete (stringify : Snapshot -> string) (storePath : string)
    (parsed : option Snapshot) (writes : list Snapshot) :
  complete (cache (sink_after stringify storePath parsed writes)).
Proof.
  unfold sink_after.
  induction writes as [|data writes IH] using rev_ind.
  - cbn. apply readStore_complete.
  - rewrite foldl_app. cbn. apply writeStore_complete, IH.
Qed.

(** C8, as the code has it.  When the sink was created with a store path,
    every call of the write function leaves each of the six cache fields
    equal to the snapshot's value where the snapshot has the field and equal
    to the cached value where it has not, and queues for the durable write
    the serialization of exactly that merged cache. *)
Theorem writeStore_merges_fieldwise
    (stringify : Snapshot -> string) (storePath : string)
    (parsed : option Snapshot) (writes : list Snapshot) (data : Snapshot) :
  truthy_str storePath = true ->
  let k := sink_after stringify storePath parsed writes in
  let k' := writeStore stringify storePath data k in
  merged_fieldwise data (cache k) (cache k')
  /\ pendingWrite k' = pendingWrite k ++ [(storePath, stringify (cache k'))]
  /\ k' = sink_after stringify storePath parsed (writes ++ [data]).
Proof.
  intros Hpath k k'. unfold k', writeStore. rewrite Hpath. cbn [negb cache pendingWrite].
  split; [|split].
  - apply merge_fieldwise, sink_after_complete.
  - reflexivity.
  - unfold k, sink_after. rewrite foldl_app. cbn [foldl].
    unfold writeStore. rewrite Hpath. reflexivity.
Qed.

Lemma writeStore_merges_fieldwise_witness :
  write_merges count_admins "store.json" admin_snapshot
    (sink_after count_admins "store.json" None []).
Proof.
  destruct (writeStore_merges_fieldwise count_admins "store.json" None []
              admin_snapshot eq_refl) as (H1 & H2 & _).
  split; [exact H1 | exact H2].
Defined.

(** C8 as stated fails when the sink was created without a store path (the
    value of [SUBSCRIPTION_STORE_PATH] when it is not set): the write
    function returns at once, the administrator list of the snapshot does
    not reach the cache, and nothing is queued. *)
Lemma writeStore_without_path_keeps_cache :
  writeStore count_admins no_path admin_snapshot
    (sink_after count_admins no_path None [])
  = sink_after count_admins no_path None []
  /\ adminBaseIdList
       (cache (writeStore count_admins no_path admin_snapshot
                 (sink_after count_admins no_path None [])))
     = Some []
  /\ ~ write_merges count_admins no_path admin_snapshot
         (sink_after count_admins no_path None []).
Proof.
  split; [reflexivity|]. split; [reflexivity|].
  intros [(_ & Hadmin & _) _]. cbn in Hadmin. discriminate Hadmin.
Qed.

End PersistFacts.

(** * Further properties *)

(** ** Tenant keys and the static paid list *)

Module KeysFacts.
Import Js Subscription SubscriptionMore.

Lemma rev_drop_space_no_trailing (l : list ascii) :
  no_leading_space (rev (rev (drop_space (rev l)))).
Proof. rewrite rev_involutive. apply JsFacts.drop_space_no_leading. Qed.

(** X1. [normalizeBaseId] gives a canonical key: normalizing its result
    again changes nothing, and the result neither starts nor ends with a
    white-space character. *)
Theorem normalizeBaseId_canonical (v : option string) :
  normalizeBaseId (Some (normalizeBaseId v)) = normalizeBaseId v
  /\ no_leading_space (list_ascii_of_string (normalizeBaseId v))
  /\ no_leading_space (rev (list_ascii_of_string (normalizeBaseId v))).
Proof.
  split; [apply JsFacts.normalizeBaseId_idempotent|].
  destruct v as [v|]; cbn [normalizeBaseId]; [|split; exact I].
  unfold trim. rewrite list_ascii_of_string_of_list_ascii. split.
  - apply JsFacts.strip_end_no_leading, JsFacts.drop_space_no_leading.
  - apply rev_drop_space_no_trailing.
Qed.

Lemma split_comma_nonempty (s : string) : split_comma s <> [].
Proof.
  induction s as [|c r IH]; simpl; [discriminate|].
  destruct (Ascii.eqb c ","); [discriminate|].
  destruct (split_comma r); discriminate.
Qed.

Lemma split_comma_piece (x : string) :
  comma_free x = true -> split_comma x = [x].
Proof.
  induction x as [|c r IH]; simpl; [reflexivity|].
  intros [Hc Hr]%andb_prop. apply negb_true_iff in Hc. rewrite Hc.
  rewrite (IH Hr). reflexivity.
Qed.

Lemma split_comma_cons (x rest : string) :
  comma_free x = true ->
  split_comma (append x (String "," rest)) = x :: split_comma rest.
Proof.
  induction x as [|c r IH]; simpl; [reflexivity|].
  intros [Hc Hr]%andb_prop. apply negb_true_iff in Hc. rewrite Hc.
  rewrite (IH Hr). reflexivity.
Qed.

Lemma split_join_comma (xs : list string) :
  xs <> [] -> Forall (fun x => comma_free x = true) xs ->
  split_comma (join_comma xs) = xs.
Proof.
  induction xs as [|x rest IH]; [congruence|].
  intros _ Hall. inversion Hall as [|? ? Hx Hrest]; subst.
  destruct rest as [|y rest'].
  - simpl. apply split_comma_piece, Hx.
  - change (join_comma (x :: y :: rest'))
      with (append x (String "," (join_comma (y :: rest')))).
    rewrite (split_comma_cons _ _ Hx). f_equal. apply IH; [discriminate|exact Hrest].
Qed.

(** X2. Every member of the set that [parsePaidBaseIds] builds is a tenant
    key in canonical form: it is not empty and [normalizeBaseId] maps it to
    itself, so a lookup with a normalized id can find it. *)
Theorem parsePaidBaseIds_members (value x : string) :
  x ∈ parsePaidBaseIds value ->
  x <> EmptyString /\ normalizeBaseId (Some x) = x.
Proof.
  unfold parsePaidBaseIds. rewrite elem_of_list_to_set, list_elem_of_In.
  intros [Hin Ht]%filter_In. apply in_map_iff in Hin as (piece & <- & _).
  split.
  - apply JsFacts.truthy_str_nonempty, Ht.
  - cbn [normalizeBaseId]. apply JsFacts.trim_idempotent.
Qed.

Lemma parsePaidBaseIds_members_witness :
  "b" ∈ parsePaidBaseIds "a, b ,c" /\ normalizeBaseId (Some "b") = "b".
Proof.
  assert (Hin : "b" ∈ parsePaidBaseIds "a, b ,c").
  { unfold parsePaidBaseIds. apply elem_of_list_to_set.
    apply elem_of_cons. right. apply elem_of_cons. left. reflexivity. }
  split; [exact Hin|].
  exact (proj2 (parsePaidBaseIds_members "a, b ,c" "b" Hin)).
Defined.

(** X3. Round trip of the static paid list: for tenant keys without a
    comma, parsing their comma-separated text gives exactly the set of these
    keys; the empty text gives the empty set. *)
Theorem parsePaidBaseIds_join (keys : list string) :
  Forall (fun x => tenant_key x /\ comma_free x = true) keys ->
  parsePaidBaseIds (join_comma keys) = list_to_set keys.
Proof.
  intros Hall. unfold parsePaidBaseIds.
  destruct keys as [|k rest]; [reflexivity|].
  rewrite split_join_comma;
    [|discriminate|eapply Forall_impl; [exact Hall|]; intros ? [_ H]; exact H].
  f_equal. induction Hall as [|x l [[Hne Htrim] _] _ IH]; [reflexivity|].
  cbn [List.map List.filter]. rewrite Htrim.
  apply JsFacts.truthy_str_nonempty in Hne. rewrite Hne. f_equal. exact IH.
Qed.

Lemma parsePaidBaseIds_join_witness :
  parsePaidBaseIds (join_comma ["base-1"; "base-2"])
  = list_to_set ["base-1"; "base-2"].
Proof.
  apply parsePaidBaseIds_join.
  repeat constructor; discriminate.
Defined.

End KeysFacts.

(** ** More of the subscription store *)

Module SubscriptionMoreFacts.
Import Js Subscription SubscriptionMore.

(** *** Admission *)

Lemma consume_agrees_with_getStatus_paid
    (cfg : Config) (now : Z) (raw : option string) (s : Store) :
  isPaid (getStatus cfg now raw s) = true ->
  consume cfg now raw s = (getStatus cfg now raw s, s).
Proof.
  unfold consume, getStatus.
  destruct (truthy_str (normalizeBaseId raw)); cbn [negb]; [|discriminate].
  destruct (allowBypass cfg); [reflexivity|].
  destruct (paid (isPaidInfo cfg now (normalizeBaseId raw) s));
    [reflexivity|discriminate].
Qed.

(** X4. [consume] lets a call through exactly when [getStatus] reports
    [allowed] for the same store and clock; both report the same [isPaid]
    and [paidUntil]; [consume] never touches the paid-until map, the
    administrator set or the code list, and for a tenant that is reported
    paid it returns the status of [getStatus] and leaves the whole store as
    it is. *)
Theorem consume_agrees_with_getStatus
    (cfg : Config) (now : Z) (raw : option string) (s : Store) :
  allowed (consume cfg now raw s).1 = allowed (getStatus cfg now raw s)
  /\ isPaid (consume cfg now raw s).1 = isPaid (getStatus cfg now raw s)
  /\ paidUntil (consume cfg now raw s).1 = paidUntil (getStatus cfg now raw s)
  /\ paidUntilMap (consume cfg now raw s).2 = paidUntilMap s
  /\ adminSet (consume cfg now raw s).2 = adminSet s
  /\ redeemList (consume cfg now raw s).2 = redeemList s
  /\ (isPaid (getStatus cfg now raw s) = true ->
      consume cfg now raw s = (getStatus cfg now raw s, s)).
Proof.
  unfold consume, getStatus.
  destruct (truthy_str (normalizeBaseId raw)); cbn [negb].
  2: { cbn. repeat split; discriminate. }
  destruct (allowBypass cfg); [cbn; repeat split|].
  destruct (paid (isPaidInfo cfg now (normalizeBaseId raw) s));
    [cbn; repeat split|].
  destruct (getFreeRemaining cfg (normalizeBaseId raw) s <=? 0) eqn:E.
  - apply Z.leb_le in E. cbn.
    assert (H : (0 <? getFreeRemaining cfg (normalizeBaseId raw) s) = false)
      by (apply Z.ltb_ge; exact E).
    rewrite H. repeat split; discriminate.
  - apply Z.leb_gt in E. cbn.
    assert (H : (0 <? getFreeRemaining cfg (normalizeBaseId raw) s) = true)
      by (apply Z.ltb_lt; exact E).
    rewrite H. repeat split; discriminate.
Qed.

Lemma isPaidInfo_admin (cfg : Config) (now : Z) (tenant : string) (s : Store) :
  tenant ∈ adminSet s ->
  isPaidInfo cfg now tenant s = mkPaidInfo true MAX_SAFE_INTEGER true.
Proof.
  intros H. unfold isPaidInfo. destruct (decide (tenant ∈ adminSet s)); tauto.
Qed.

(** X5. Granting and revoking the administrator flag.  After
    [setAdmin(baseId, true)] for a non-blank tenant, [getStatus] and
    [consume] let the tenant through at every clock reading, whatever its
    trial counter and paid period are, and [consume] counts no trial use;
    granting a second time changes nothing; revoking afterwards leaves the
    administrator set without this tenant and with every other member it had
    before the grant. *)
Theorem setAdmin_grants (cfg : Config) (raw : option string) (s : Store) :
  truthy_str (normalizeBaseId raw) = true ->
  (forall now,
      allowed (getStatus cfg now raw (setAdmin raw true s).2) = true
      /\ isPaid (getStatus cfg now raw (setAdmin raw true s).2) = true
      /\ consume cfg now raw (setAdmin raw true s).2
         = (getStatus cfg now raw (setAdmin raw true s).2,
            (setAdmin raw true s).2))
  /\ setAdmin raw true (setAdmin raw true s).2
     = (true, (setAdmin raw true s).2)
  /\ adminSet (setAdmin raw false (setAdmin raw true s).2).2
     = adminSet s ∖ {[normalizeBaseId raw]}.
Proof.
  intros Hb. unfold setAdmin. rewrite Hb. cbn [fst snd].
  set (s1 := {| usage := usage s; paidUntilMap := paidUntilMap s;
                adminSet := {[normalizeBaseId raw]} ∪ adminSet s;
                redeemList := redeemList s |}).
  assert (Hin : normalizeBaseId raw ∈ adminSet s1) by (cbn; set_solver).
  split; [|split].
  - intros now.
    assert (Hst : getStatus cfg now raw s1
                  = buildStatus (normalizeBaseId raw) true (trialLimit cfg) true
                      (if allowBypass cfg then MsgBypass else MsgAdmin)
                      (Some MAX_SAFE_INTEGER)).
    { unfold getStatus. rewrite Hb. cbn [negb].
      destruct (allowBypass cfg); [reflexivity|].
      rewrite (isPaidInfo_admin cfg now _ s1 Hin). reflexivity. }
    rewrite Hst. cbn [allowed isPaid]. split; [reflexivity|].
    split; [reflexivity|]. rewrite <- Hst.
    apply consume_agrees_with_getStatus_paid. rewrite Hst. reflexivity.
  - unfold s1. cbn [usage paidUntilMap adminSet redeemList].
    f_equal. f_equal. clear. set_solver.
  - cbn [snd adminSet]. clear. set_solver.
Qed.

Lemma setAdmin_grants_witness :
  truthy_str (normalizeBaseId (Some " base-1 ")) = true
  /\ allowed (getStatus trial_config 7 (Some " base-1 ")
               (setAdmin (Some " base-1 ") true used_up_store).2) = true.
Proof.
  split; [reflexivity|].
  exact (proj1 (proj1 (setAdmin_grants trial_config (Some " base-1 ")
                         used_up_store eq_refl) 7)).
Defined.

(** *** The trial *)

Lemma uncovered_frame (cfg : Config) (now : Z) (tenant : string) (s s' : Store) :
  adminSet s' = adminSet s -> paidUntilMap s' = paidUntilMap s ->
  uncovered cfg now tenant s -> uncovered cfg now tenant s'.
Proof.
  intros Ha Hp (Hb & Hadm & Hpaid & Hun). unfold uncovered, getPaidUntil in *.
  rewrite Ha, Hp. auto.
Qed.

Lemma getFreeRemaining_after_use (cfg : Config) (tenant : string) (s : Store) :
  0 < getFreeRemaining cfg tenant s ->
  getFreeRemaining cfg tenant
    {| usage := <[tenant := default 0 (usage s !! tenant) + 1]> (usage s);
       paidUntilMap := paidUntilMap s; adminSet := adminSet s;
       redeemList := redeemList s |}
  = getFreeRemaining cfg tenant s - 1.
Proof.
  unfold getFreeRemaining. cbn [usage]. rewrite lookup_insert_eq.
  change (default 0 (Some (default 0 (usage s !! tenant) + 1)))
    with (default 0 (usage s !! tenant) + 1).
  generalize (default 0 (usage s !! tenant)). intros used. lia.
Qed.

(** X6. The trial lets a tenant through exactly as often as it has free
    uses left: of [n] successive [consume] calls by a tenant that only the
    trial can let in, the first [min n freeRemaining] are allowed and the
    others are refused, and the free uses left afterwards are fewer by the
    number of allowed calls. *)
Theorem trial_allows_exactly_free_remaining
    (cfg : Config) (nows : list Z) (raw : option string) (s : Store) :
  truthy_str (normalizeBaseId raw) = true ->
  Forall (fun t => uncovered cfg t (normalizeBaseId raw) s) nows ->
  allowed_count (consume_repeat cfg nows raw s).1
  = Nat.min (length nows)
      (Z.to_nat (getFreeRemaining cfg (normalizeBaseId raw) s))
  /\ List.map allowed (consume_repeat cfg nows raw s).1
     = repeat true (allowed_count (consume_repeat cfg nows raw s).1)
       ++ repeat false
            (length nows - allowed_count (consume_repeat cfg nows raw s).1)
  /\ getFreeRemaining cfg (normalizeBaseId raw) (consume_repeat cfg nows raw s).2
     = getFreeRemaining cfg (normalizeBaseId raw) s
       - Z.of_nat (allowed_count (consume_repeat cfg nows raw s).1).
Proof.
  intros Hb. revert s. induction nows as [|now rest IH]; intros s Hall.
  - cbn. split; [reflexivity|]. split; [reflexivity|]. lia.
  - inversion Hall as [|? ? Hnow Hrest]; subst.
    assert (Hge : 0 <= getFreeRemaining cfg (normalizeBaseId raw) s)
      by (unfold getFreeRemaining; lia).
    cbn [consume_repeat].
    destruct (Z.eq_dec (getFreeRemaining cfg (normalizeBaseId raw) s) 0) as [E|E].
    + rewrite (SubscriptionFacts.consume_trial_denied cfg now raw s Hb Hnow E).
      destruct (SubscriptionFacts.consume_repeat_denied cfg rest raw s Hb Hrest E)
        as (Hs & Hlen & Hden).
      destruct (consume_repeat cfg rest raw s) as [sts s2] eqn:Er.
      cbn [fst snd] in *. subst s2.
      assert (Hmap : List.map allowed sts = repeat false (length rest)).
      { rewrite <- Hlen. clear -Hden.
        induction Hden as [|st l [Ha _] _ IHl]; [reflexivity|].
        cbn. rewrite Ha, IHl. reflexivity. }
      assert (Hcount : allowed_count sts = 0%nat).
      { unfold allowed_count. clear -Hden.
        induction Hden as [|st l [Ha _] _ IHl]; [reflexivity|].
        cbn. rewrite Ha. exact IHl. }
      unfold allowed_count in *. cbn [List.filter allowed List.map length].
      rewrite Hcount, E, Hmap. cbn [repeat app]. rewrite Nat.sub_0_r.
      split; [lia|]. split; [reflexivity|]. lia.
    + assert (Hpos : 0 < getFreeRemaining cfg (normalizeBaseId raw) s) by lia.
      rewrite (SubscriptionFacts.consume_trial_allowed cfg now raw s Hb Hnow Hpos).
      set (s' := {| usage := _; paidUntilMap := _; adminSet := _;
                    redeemList := _ |}).
      assert (Hrest' : Forall (fun t => uncovered cfg t (normalizeBaseId raw) s')
                         rest).
      { eapply Forall_impl; [exact Hrest|]. intros t Ht.
        apply (uncovered_frame cfg t _ s s'); [reflexivity|reflexivity|exact Ht]. }
      destruct (IH s' Hrest') as (Hc & Hm & Hf).
      assert (Hfree : getFreeRemaining cfg (normalizeBaseId raw) s'
                      = getFreeRemaining cfg (normalizeBaseId raw) s - 1)
        by (apply getFreeRemaining_after_use; exact Hpos).
      destruct (consume_repeat cfg rest raw s') as [sts s2] eqn:Er.
      cbn [fst snd] in *.
      unfold allowed_count in *. cbn [List.filter allowed List.map length].
      rewrite Hm, Hf, Hc, Hfree. cbn [repeat app Nat.sub].
      split; [lia|]. split; [reflexivity|]. lia.
Qed.

Lemma trial_allows_exactly_free_remaining_witness :
  Forall (fun t => uncovered trial_config3 t (normalizeBaseId (Some "base-1"))
                     fresh_store) [1; 2; 3; 4; 5]
  /\ allowed_count
       (consume_repeat trial_config3 [1; 2; 3; 4; 5] (Some "base-1")
          fresh_store).1 = 3%nat.
Proof.
  assert (H : Forall (fun t => uncovered trial_config3 t
                                 (normalizeBaseId (Some "base-1")) fresh_store)
                [1; 2; 3; 4; 5]).
  { repeat constructor; cbn; try set_solver; intros [H _]; apply H; reflexivity. }
  split; [exact H|].
  exact (proj1 (trial_allows_exactly_free_remaining trial_config3 [1; 2; 3; 4; 5]
                  (Some "base-1") fresh_store eq_refl H)).
Defined.

(** *** Paid periods *)

Lemma getStatus_trial_or_period (cfg : Config) (t : Z) (raw : option string)
    (s : Store) :
  truthy_str (normalizeBaseId raw) = true ->
  allowBypass cfg = false ->
  (normalizeBaseId raw ∉ adminSet s) ->
  (normalizeBaseId raw ∉ paidBaseIds cfg) ->
  getPaidUntil (normalizeBaseId raw) s <> 0 ->
  getStatus cfg t raw s
  = if t <=? getPaidUntil (normalizeBaseId raw) s
    then buildStatus (normalizeBaseId raw) true (trialLimit cfg) true MsgPaid
           (Some (getPaidUntil (normalizeBaseId raw) s))
    else buildStatus (normalizeBaseId raw) false
           (getFreeRemaining cfg (normalizeBaseId raw) s)
           (0 <? getFreeRemaining cfg (normalizeBaseId raw) s)
           (trial_message (getFreeRemaining cfg (normalizeBaseId raw) s))
           (Some (getPaidUntil (normalizeBaseId raw) s)).
Proof.
  intros Hb Hby Hadm Hpaid Hne. unfold getStatus, isPaidInfo.
  rewrite Hb, Hby. cbn [negb].
  destruct (decide (normalizeBaseId raw ∈ adminSet s)); [tauto|].
  destruct (decide (normalizeBaseId raw ∈ paidBaseIds cfg)); [tauto|].
  assert (Ht : truthy_Z (getPaidUntil (normalizeBaseId raw) s) = true).
  { unfold truthy_Z. apply negb_true_iff, Z.eqb_neq, Hne. }
  rewrite Ht. cbn [negb].
  destruct (t <=? getPaidUntil (normalizeBaseId raw) s); reflexivity.
Qed.

(** X7. A purchase covers the tenant until the returned instant and no
    longer.  When [activatePlan] with a positive duration returns [until]
    (the clock not being before the epoch, [until] below [1e21]), the period
    ends at least the bought duration after the clock reading; [getStatus]
    lets the tenant through at every clock reading up to [until]; and for a
    tenant that is not an administrator and not on the static paid list,
    without bypass, [getStatus] at a clock reading after [until] reports it
    unpaid, with the expired [until] as [paidUntil], and decides by the
    trial alone. *)
Theorem activatePlan_covers_until_expiry
    (cfg : Config) (now D : Z) (raw : option string) (paidAt : option Z)
    (s s' : Store) (until : Z) :
  truthy_str (normalizeBaseId raw) = true -> 0 < D -> 0 <= now ->
  activatePlan now raw (Some D) paidAt s = (Some until, s') ->
  until < 10 ^ 21 ->
  now + D <= until
  /\ (forall t, t <= until -> allowed (getStatus cfg t raw s') = true)
  /\ (allowBypass cfg = false ->
      (normalizeBaseId raw ∉ adminSet s) ->
      (normalizeBaseId raw ∉ paidBaseIds cfg) ->
      forall t, until < t ->
        getStatus cfg t raw s'
        = buildStatus (normalizeBaseId raw) false
            (getFreeRemaining cfg (normalizeBaseId raw) s)
            (0 <? getFreeRemaining cfg (normalizeBaseId raw) s)
            (trial_message (getFreeRemaining cfg (normalizeBaseId raw) s))
            (Some until)).
Proof.
  intros Hb HD Hnow Hcall Hsmall.
  assert (HD0 : D <> 0) by lia.
  pose proof (SubscriptionFacts.activatePlan_accepted now raw D paidAt s Hb HD0)
    as Hact. cbn zeta in Hact. rewrite Hact in Hcall.
  injection Hcall as Huntil Hs'.
  assert (Hle : now + D <= until) by (rewrite <- Huntil; lia).
  assert (Hget : getPaidUntil (normalizeBaseId raw) s' = until).
  { rewrite <- Hs', Huntil.
    apply SubscriptionFacts.getPaidUntil_setPaidUntil_small; [exact Hb|lia]. }
  assert (Hadm : adminSet s' = adminSet s)
    by (rewrite <- Hs'; unfold setPaidUntil; rewrite Hb; reflexivity).
  assert (Huse : usage s' = usage s)
    by (rewrite <- Hs'; unfold setPaidUntil; rewrite Hb; reflexivity).
  split; [exact Hle|]. split.
  - intros t Ht. unfold getStatus. rewrite Hb. cbn [negb].
    destruct (allowBypass cfg); [reflexivity|].
    unfold isPaidInfo.
    destruct (decide (_ ∈ adminSet _)); [reflexivity|].
    destruct (decide (_ ∈ paidBaseIds _)); [reflexivity|].
    rewrite Hget.
    assert (Htr : truthy_Z until = true)
      by (unfold truthy_Z; apply negb_true_iff, Z.eqb_neq; lia).
    rewrite Htr. cbn [negb].
    assert (Hleb : (t <=? until) = true) by (apply Z.leb_le; exact Ht).
    rewrite Hleb. reflexivity.
  - intros Hby Hnadm Hnpaid t Ht.
    rewrite getStatus_trial_or_period;
      [|exact Hb|exact Hby|rewrite Hadm; exact Hnadm|exact Hnpaid
       |rewrite Hget; lia].
    rewrite Hget.
    assert (Hleb : (t <=? until) = false) by (apply Z.leb_gt; exact Ht).
    rewrite Hleb. unfold getFreeRemaining. rewrite Huse. reflexivity.
Qed.

Lemma activatePlan_covers_until_expiry_witness :
  (activatePlan 1000 (Some "t") (Some 1000) (Some 1000) fresh_store
   = (Some 2000, paid_store)
   /\ 2000 < 10 ^ 21)
  /\ allowed (getStatus trial_config 2000 (Some "t") paid_store) = true.
Proof.
  assert (Hcall : activatePlan 1000 (Some "t") (Some 1000) (Some 1000) fresh_store
                  = (Some 2000, paid_store)) by reflexivity.
  assert (Hsmall : 2000 < 10 ^ 21) by reflexivity.
  split; [split; [exact Hcall|exact Hsmall]|].
  apply (proj1 (proj2 (activatePlan_covers_until_expiry trial_config 1000 1000
                         (Some "t") (Some 1000) fresh_store paid_store 2000
                         eq_refl ltac:(lia) ltac:(lia) Hcall Hsmall))).
  lia.
Defined.



(** *** Redeem codes *)




(** *** Refusals and counters over any run *)

(** X10. A refused call leaves the store untouched: whenever a store call
    answers with a status that is not allowed, with [null], with [false] or
    with [ok: false], the store after the call is the store before it. *)
Theorem refused_call_changes_nothing
    (hashCode : string -> string) (cfg : Config) (now : Z) (op : Op) (s : Store) :
  reply_failed (step hashCode cfg now op s).1 = true ->
  (step hashCode cfg now op s).2 = s.
Proof.
  destruct op as [raw|raw|b d p|b e|c d|b c]; cbn [step].
  - reflexivity.
  - unfold consume.
    destruct (truthy_str (normalizeBaseId raw)); cbn [negb]; [|reflexivity].
    destruct (allowBypass cfg); [cbn; discriminate|].
    destruct (paid _); [cbn; discriminate|].
    destruct (_ <=? 0); [reflexivity|cbn; discriminate].
  - unfold activatePlan. destruct d as [d|]; [|reflexivity].
    destruct (_ && _); [cbn; discriminate|reflexivity].
  - unfold setAdmin. destruct (truthy_str _); [cbn; discriminate|reflexivity].
  - unfold addRedeemCode. destruct (_ && _); [cbn; discriminate|reflexivity].
  - unfold redeem. destruct (negb _); [reflexivity|].
    destruct (find_code _ _) as [[i item]|]; [|reflexivity].
    destruct (is_used item); [reflexivity|].
    destruct (activatePlan _ _ _ _ _) as [r s1]. cbn. discriminate.
Qed.

Lemma refused_call_changes_nothing_witness :
  reply_failed (step plain_hash trial_config 3 (OpConsume (Some "base-1"))
                  used_up_store).1 = true
  /\ (step plain_hash trial_config 3 (OpConsume (Some "base-1"))
        used_up_store).2 = used_up_store.
Proof.
  split; [reflexivity|].
  exact (refused_call_changes_nothing plain_hash trial_config 3
           (OpConsume (Some "base-1")) used_up_store eq_refl).
Defined.

Lemma step_usage (hashCode : string -> string) (cfg : Config) (now : Z)
    (op : Op) (s : Store) :
  usage (step hashCode cfg now op s).2 = usage s
  \/ exists tenant,
       0 < getFreeRemaining cfg tenant s
       /\ usage (step hashCode cfg now op s).2
          = <[tenant := default 0 (usage s !! tenant) + 1]> (usage s).
Proof.
  destruct op as [raw|raw|b d p|b e|c d|b c]; cbn [step].
  - left; reflexivity.
  - unfold consume.
    destruct (truthy_str (normalizeBaseId raw)); cbn [negb]; [|left; reflexivity].
    destruct (allowBypass cfg); [left; reflexivity|].
    destruct (paid _); [left; reflexivity|].
    destruct (_ <=? 0) eqn:E; [left; reflexivity|].
    right. exists (normalizeBaseId raw). apply Z.leb_gt in E.
    split; [exact E|reflexivity].
  - left. pose proof (SubscriptionFacts.activatePlan_usage now b d p s) as H.
    destruct (activatePlan now b d p s); exact H.
  - left. unfold setAdmin. destruct (truthy_str _); reflexivity.
  - left. unfold addRedeemCode. destruct (_ && _); reflexivity.
  - left. pose proof (SubscriptionFacts.redeem_usage hashCode now b c s) as H.
    destruct (redeem hashCode now b c s); exact H.
Qed.

(** X11. Over any run of store calls the trial counters only grow and
    never pass the trial limit: every tenant's count of used trial calls
    after the run is at least its count before, and when no stored counter
    exceeded [trialLimit] before the run, none does after it. *)
Theorem trial_counters_grow_within_limit
    (hashCode : string -> string) (cfg : Config) (ops : list (Z * Op))
    (s : Store) :
  map_Forall (fun _ n => n <= trialLimit cfg) (usage s) ->
  map_Forall (fun _ n => n <= trialLimit cfg) (usage (run hashCode cfg ops s).2)
  /\ forall tenant,
       default 0 (usage s !! tenant)
       <= default 0 (usage (run hashCode cfg ops s).2 !! tenant).
Proof.
  revert s. induction ops as [|[now op] rest IH]; intros s Hlim.
  - cbn. split; [exact Hlim|]. intros; lia.
  - cbn [run].
    pose proof (step_usage hashCode cfg now op s) as Hstep.
    destruct (step hashCode cfg now op s) as [r s1]. cbn [snd] in Hstep.
    assert (H1 : map_Forall (fun _ n => n <= trialLimit cfg) (usage s1)
                 /\ forall tenant, default 0 (usage s !! tenant)
                                   <= default 0 (usage s1 !! tenant)).
    { destruct Hstep as [E|(t & Hfree & E)]; rewrite E.
      - split; [exact Hlim|]. intros; lia.
      - unfold getFreeRemaining in Hfree. split.
        + apply map_Forall_insert_2; [lia|exact Hlim].
        + intros tenant. destruct (decide (tenant = t)) as [->|Hne].
          * rewrite lookup_insert_eq.
            change (default 0 (Some (default 0 (usage s !! t) + 1)))
              with (default 0 (usage s !! t) + 1). lia.
          * rewrite lookup_insert_ne by congruence. lia. }
    destruct H1 as [Hlim1 Hmono1].
    destruct (IH s1 Hlim1) as [Hlim2 Hmono2].
    destruct (run hashCode cfg rest s1) as [rs s2]. cbn [snd] in *.
    split; [exact Hlim2|]. intros tenant.
    specialize (Hmono1 tenant). specialize (Hmono2 tenant). lia.
Qed.

Lemma trial_counters_grow_within_limit_witness :
  map_Forall (fun _ n => n <= trialLimit trial_config) (usage fresh_store)
  /\ map_Forall (fun _ n => n <= trialLimit trial_config)
       (usage (run plain_hash trial_config trial_run fresh_store).2).
Proof.
  assert (H : map_Forall (fun _ n => n <= trialLimit trial_config)
                (usage fresh_store)) by apply map_Forall_empty.
  split; [exact H|].
  exact (proj1 (trial_counters_grow_within_limit plain_hash trial_config
                  trial_run fresh_store H)).
Defined.

End SubscriptionMoreFacts.

(** ** Merging code records ([mergeRedeemCodes]) *)

Module MergeFacts.
Import Js Subscription SubscriptionMore.

Lemma alookup_map_set_eq (k : string) (v : RedeemCode)
    (m : list (string * RedeemCode)) :
  alookup k (map_set k v m) = Some v.
Proof.
  induction m as [|[k' v'] r IH]; cbn.
  - rewrite String.eqb_refl. reflexivity.
  - destruct (String.eqb k' k) eqn:E; cbn; rewrite E; [reflexivity|exact IH].
Qed.

Lemma alookup_map_set_ne (k k0 : string) (v : RedeemCode)
    (m : list (string * RedeemCode)) :
  k0 <> k -> alookup k0 (map_set k v m) = alookup k0 m.
Proof.
  intros Hne. induction m as [|[k' v'] r IH]; cbn.
  - destruct (String.eqb k k0) eqn:E; [|reflexivity].
    apply String.eqb_eq in E. congruence.
  - destruct (String.eqb k' k) eqn:E; cbn.
    + apply String.eqb_eq in E. subst k'.
      destruct (String.eqb k k0) eqn:E0; [|reflexivity].
      apply String.eqb_eq in E0. congruence.
    + rewrite IH. reflexivity.
Qed.

Lemma map_set_keys (k k0 : string) (v : RedeemCode)
    (m : list (string * RedeemCode)) :
  k0 ∈ (map_set k v m).*1 <-> k0 = k \/ k0 ∈ m.*1.
Proof.
  induction m as [|[k' v'] r IH]; cbn.
  - rewrite elem_of_cons. reflexivity.
  - destruct (String.eqb k' k) eqn:E; cbn.
    + apply String.eqb_eq in E. subst k'. rewrite elem_of_cons. tauto.
    + rewrite !elem_of_cons, IH. tauto.
Qed.

Lemma map_set_well_keyed (v : RedeemCode) (m : list (string * RedeemCode)) :
  truthy_str (codeHash v) = true ->
  well_keyed m -> well_keyed (map_set (codeHash v) v m).
Proof.
  intros Ht [Hnd Hall]. induction m as [|[k' v'] r IH].
  - split; cbn; repeat constructor; [apply not_elem_of_nil|exact Ht].
  - inversion Hall as [|? ? [Hk Hkt] Hall']; subst.
    cbn in Hnd. apply NoDup_cons in Hnd as [Hnin Hnd'].
    cbn [map_set]. destruct (String.eqb k' (codeHash v)) eqn:E.
    + apply String.eqb_eq in E. subst k'. split.
      * cbn. apply NoDup_cons; split; assumption.
      * constructor; [split; [reflexivity|exact Ht]|exact Hall'].
    + destruct (IH Hnd' Hall') as [Hnd2 Hall2]. split.
      * cbn. apply NoDup_cons. split; [|exact Hnd2].
        intros [->|Hin]%map_set_keys; [|exact (Hnin Hin)].
        rewrite String.eqb_refl in E. discriminate.
      * constructor; [split; assumption|exact Hall2].
Qed.

Lemma merge_step_well_keyed (m : list (string * RedeemCode)) (x : RedeemCode) :
  well_keyed m -> well_keyed (merge_step m x).
Proof.
  intros Hm. unfold merge_step. destruct (truthy_str (codeHash x)) eqn:Ht;
    [|exact Hm].
  apply (map_set_well_keyed
           {| codeHash := codeHash x; durationMs := durationMs x;
              usedAt := usedAt x; usedBy := usedBy x |} m Ht Hm).
Qed.

Lemma foldl_merge_step_well_keyed (l : list RedeemCode)
    (m : list (string * RedeemCode)) :
  well_keyed m -> well_keyed (foldl merge_step m l).
Proof.
  revert m. induction l as [|x r IH]; intros m Hm; [exact Hm|].
  cbn [foldl]. apply IH, merge_step_well_keyed, Hm.
Qed.

Lemma well_keyed_nil : well_keyed [].
Proof. split; constructor. Qed.

Lemma well_keyed_hashes (m : list (string * RedeemCode)) :
  well_keyed m -> hashes m.*2 = m.*1.
Proof.
  intros [_ Hall]. induction Hall as [|[k v] r [Hk _] _ IH]; [reflexivity|].
  cbn in *. rewrite Hk. f_equal. exact IH.
Qed.

Lemma alookup_mem (k : string) (v : RedeemCode)
    (m : list (string * RedeemCode)) :
  alookup k m = Some v -> v ∈ m.*2.
Proof.
  induction m as [|[k' v'] r IH]; cbn; [discriminate|].
  destruct (String.eqb k' k).
  - intros [= ->]. apply elem_of_cons. left. reflexivity.
  - intros H. apply elem_of_cons. right. exact (IH H).
Qed.

Lemma well_keyed_alookup (m : list (string * RedeemCode)) (v : RedeemCode) :
  well_keyed m -> v ∈ m.*2 -> alookup (codeHash v) m = Some v.
Proof.
  intros [Hnd Hall]. induction m as [|[k' v'] r IH]; cbn.
  - intros H. apply elem_of_nil in H. contradiction.
  - inversion Hall as [|? ? [Hk _] Hall']; subst. cbn in Hk, Hnd.
    apply NoDup_cons in Hnd as [Hnin Hnd'].
    intros [->|Hin]%elem_of_cons.
    + rewrite Hk, String.eqb_refl. reflexivity.
    + destruct (String.eqb k' (codeHash v)) eqn:E; [|exact (IH Hnd' Hall' Hin)].
      apply String.eqb_eq in E. exfalso. apply Hnin. rewrite E.
      rewrite <- (well_keyed_hashes r) by (split; assumption).
      unfold hashes. apply list_elem_of_In, in_map, list_elem_of_In, Hin.
Qed.

Lemma well_keyed_truthy (m : list (string * RedeemCode)) (v : RedeemCode) :
  well_keyed m -> v ∈ m.*2 -> truthy_str (codeHash v) = true.
Proof.
  intros [_ Hall]. induction Hall as [|[k x] r [Hk Ht] _ IH]; cbn.
  - intros H. apply elem_of_nil in H. contradiction.
  - intros [->|Hin]%elem_of_cons; [|exact (IH Hin)].
    cbn in Hk, Ht. rewrite Hk. exact Ht.
Qed.

Lemma record_eta (x : RedeemCode) :
  {| codeHash := codeHash x; durationMs := durationMs x;
     usedAt := usedAt x; usedBy := usedBy x |} = x.
Proof. destruct x; reflexivity. Qed.

Lemma alookup_merge_step_eq (m : list (string * RedeemCode)) (x : RedeemCode) :
  truthy_str (codeHash x) = true ->
  alookup (codeHash x) (merge_step m x) = Some x.
Proof.
  intros Ht. unfold merge_step. rewrite Ht, alookup_map_set_eq, record_eta.
  reflexivity.
Qed.

Lemma alookup_merge_step_ne (m : list (string * RedeemCode)) (x : RedeemCode)
    (h : string) :
  codeHash x <> h -> alookup h (merge_step m x) = alookup h m.
Proof.
  intros Hne. unfold merge_step. destruct (truthy_str (codeHash x)); [|reflexivity].
  apply alookup_map_set_ne. congruence.
Qed.

Lemma alookup_foldl_ne (l : list RedeemCode) (m : list (string * RedeemCode))
    (h : string) :
  Forall (fun x => codeHash x <> h) l ->
  alookup h (foldl merge_step m l) = alookup h m.
Proof.
  intros Hall. revert m. induction Hall as [|x r Hx _ IH]; intros m; [reflexivity|].
  cbn [foldl]. rewrite IH. apply alookup_merge_step_ne, Hx.
Qed.

Lemma mergeRedeemCodes_fold (baseList extraList : list RedeemCode) :
  mergeRedeemCodes baseList extraList
  = (foldl merge_step [] (baseList ++ extraList)).*2.
Proof. reflexivity. Qed.

Lemma merged_well_keyed (l : list RedeemCode) :
  well_keyed (foldl merge_step [] l).
Proof. apply foldl_merge_step_well_keyed, well_keyed_nil. Qed.

Lemma merged_last (before after : list RedeemCode) (r : RedeemCode) :
  truthy_str (codeHash r) = true ->
  Forall (fun x => codeHash x <> codeHash r) after ->
  alookup (codeHash r) (foldl merge_step [] (before ++ r :: after)) = Some r.
Proof.
  intros Ht Hafter. rewrite foldl_app. cbn [foldl].
  rewrite (alookup_foldl_ne after _ _ Hafter).
  apply alookup_merge_step_eq, Ht.
Qed.

Lemma last_occurrence (h : string) (l : list RedeemCode) :
  h ∈ hashes l ->
  exists before r after,
    l = before ++ r :: after /\ codeHash r = h
    /\ Forall (fun x => codeHash x <> h) after.
Proof.
  induction l as [|x l IH]; cbn.
  - intros H. apply elem_of_nil in H. contradiction.
  - intros Hin. destruct (decide (h ∈ hashes l)) as [Hl|Hl].
    + destruct (IH Hl) as (before & r & after & -> & Hr & Hafter).
      exists (x :: before), r, after. split; [reflexivity|]. split; assumption.
    + apply elem_of_cons in Hin as [Hx|Hin]; [|contradiction].
      exists [], x, l. split; [reflexivity|]. split; [congruence|].
      apply Forall_forall. intros y Hy Heq. apply Hl. rewrite <- Heq.
      unfold hashes. apply list_elem_of_In, in_map, list_elem_of_In, Hy.
Qed.

(** X12. [mergeRedeemCodes] keeps one record per digest, the last one:
    the merged list has no two records with the same digest and none with
    an empty digest; every merged record is a record of the two lists; and
    a record with a non-empty digest that no later record of the two lists
    repeats is in the merged list, where it is the only record with its
    digest. *)
Theorem mergeRedeemCodes_last_record_wins (baseList extraList : list RedeemCode) :
  NoDup (hashes (mergeRedeemCodes baseList extraList))
  /\ (forall r, r ∈ mergeRedeemCodes baseList extraList ->
        truthy_str (codeHash r) = true /\ r ∈ baseList ++ extraList)
  /\ (forall r, truthy_str (codeHash r) = true ->
        last_with_hash r (baseList ++ extraList) ->
        r ∈ mergeRedeemCodes baseList extraList
        /\ forall r', r' ∈ mergeRedeemCodes baseList extraList ->
             codeHash r' = codeHash r -> r' = r).
Proof.
  pose proof (merged_well_keyed (baseList ++ extraList)) as Hwk.
  rewrite mergeRedeemCodes_fold. split; [|split].
  - rewrite (well_keyed_hashes _ Hwk). exact (proj1 Hwk).
  - intros r Hr. split; [exact (well_keyed_truthy _ r Hwk Hr)|].
    apply SubscriptionFacts.mergeRedeemCodes_passes_through. exact Hr.
  - intros r Ht (before & after & Heq & Hafter).
    assert (Hlook : alookup (codeHash r)
                      (foldl merge_step [] (baseList ++ extraList)) = Some r)
      by (rewrite Heq; apply merged_last; assumption).
    split; [exact (alookup_mem _ _ _ Hlook)|].
    intros r' Hr' Hh. apply (well_keyed_alookup _ r' Hwk) in Hr'.
    rewrite Hh, Hlook in Hr'. congruence.
Qed.

Lemma mergeRedeemCodes_last_record_wins_witness :
  (truthy_str (codeHash fresh_seed) = true
   /\ last_with_hash fresh_seed ([used_seed] ++ [fresh_seed]))
  /\ fresh_seed ∈ mergeRedeemCodes [used_seed] [fresh_seed].
Proof.
  assert (Hl : last_with_hash fresh_seed ([used_seed] ++ [fresh_seed])).
  { exists [used_seed], []. split; [reflexivity|constructor]. }
  split; [split; [reflexivity|exact Hl]|].
  exact (proj1 (proj2 (proj2 (mergeRedeemCodes_last_record_wins [used_seed]
                                [fresh_seed])) fresh_seed eq_refl Hl)).
Defined.

(** X13. The second list overrides the first: a merged record whose
    digest occurs in [extraList] is a record of [extraList], whatever
    [baseList] holds under that digest. *)
Theorem mergeRedeemCodes_extra_overrides
    (baseList extraList : list RedeemCode) (r : RedeemCode) :
  r ∈ mergeRedeemCodes baseList extraList ->
  codeHash r ∈ hashes extraList ->
  r ∈ extraList.
Proof.
  intros Hr Hin.
  pose proof (merged_well_keyed (baseList ++ extraList)) as Hwk.
  rewrite mergeRedeemCodes_fold in Hr.
  pose proof (well_keyed_truthy _ r Hwk Hr) as Ht.
  apply (well_keyed_alookup _ r Hwk) in Hr.
  destruct (last_occurrence _ _ Hin) as (before & r' & after & -> & Hr' & Hafter).
  rewrite app_assoc in Hr. rewrite <- Hr' in Hr, Hafter.
  rewrite merged_last in Hr; [|rewrite Hr'; exact Ht|exact Hafter].
  injection Hr as ->. apply elem_of_app. right. apply elem_of_cons. left.
  reflexivity.
Qed.

Lemma mergeRedeemCodes_extra_overrides_witness :
  (fresh_seed ∈ mergeRedeemCodes [used_seed] [fresh_seed]
   /\ codeHash fresh_seed ∈ hashes [fresh_seed])
  /\ fresh_seed ∈ [fresh_seed].
Proof.
  assert (H1 : fresh_seed ∈ mergeRedeemCodes [used_seed] [fresh_seed])
    by (apply elem_of_cons; left; reflexivity).
  assert (H2 : codeHash fresh_seed ∈ hashes [fresh_seed])
    by (apply elem_of_cons; left; reflexivity).
  split; [split; assumption|].
  exact (mergeRedeemCodes_extra_overrides [used_seed] [fresh_seed] fresh_seed
           H1 H2).
Defined.

End MergeFacts.

(** ** Start-up, orders and the code handler *)

Module ServicesFacts.
Import Js Subscription SubscriptionMore.

Lemma find_code_unique (l : list RedeemCode) (r : RedeemCode) :
  NoDup (hashes l) -> r ∈ l ->
  exists i, find_code (codeHash r) l = Some (i, r).
Proof.
  unfold find_code. induction l as [|x l IH]; cbn [hashes List.map].
  - intros _ H. apply elem_of_nil in H. contradiction.
  - intros [Hnin Hnd]%NoDup_cons [->|Hin]%elem_of_cons.
    + exists 0%nat. cbn [list_find].
      destruct (decide (codeHash x = codeHash x)); [reflexivity|congruence].
    + destruct (IH Hnd Hin) as [i Hi]. exists (S i). cbn [list_find].
      destruct (decide (codeHash x = codeHash r)) as [E|E].
      * exfalso. apply Hnin. rewrite E.
        apply list_elem_of_In, in_map, list_elem_of_In, Hin.
      * rewrite Hi. reflexivity.
Qed.

Lemma seed_record (hashCode : string -> string) (r : RedeemCode) :
  r ∈ Services.seedRedeemCodes hashCode ->
  r = mkCode (codeHash r) (Some 2592000000) 0 EmptyString.
Proof.
  intros Hin. apply list_elem_of_In, in_map_iff in Hin as (c & <- & _).
  reflexivity.
Qed.

Lemma seed_code_nonempty (code : string) :
  code ∈ Services.seedRedeemCodeList -> truthy_str code = true.
Proof.
  unfold Services.seedRedeemCodeList.
  rewrite !elem_of_cons. intros [->|[->|[->|H]]]; try reflexivity.
  apply elem_of_nil in H. contradiction.
Qed.

(** X14. Every start re-arms the seed codes.  [initStores] merges the
    stored code records with the seed records, the seed records last, so
    whatever the store file says about a seed code (used, by whom), the
    store that comes up holds the code unused: a non-blank tenant redeems it
    with success and is given [max(now, paidUntil) + 30 days]. *)
Theorem initStores_rearms_seed_codes
    (hashCode : string -> string) (e : Services.Env)
    (parsed : option Persist.Snapshot) (code : string) (now : Z)
    (raw : option string) :
  code ∈ Services.seedRedeemCodeList ->
  truthy_str (hashCode code) = true ->
  truthy_str (normalizeBaseId raw) = true ->
  (redeem hashCode now raw code
     (Services.subscriptionStore (Services.initStores hashCode e parsed))).1
  = RedeemOk
      (Some (Z.max now
               (getPaidUntil (normalizeBaseId raw)
                  (Services.subscriptionStore
                     (Services.initStores hashCode e parsed)))
             + 2592000000)).
Proof.
  intros Hseed Hh Hb.
  set (s0 := Services.subscriptionStore (Services.initStores hashCode e parsed)).
  set (stored := default []
                   (Persist.redeemCodes
                      (Persist.readStore
                         (if truthy_str (Services.subscription_store_path e)
                          then parsed else None)))).
  assert (Hlist : redeemList s0
                  = mergeRedeemCodes stored (Services.seedRedeemCodes hashCode))
    by reflexivity.
  assert (Hin : hashCode code ∈ hashes (Services.seedRedeemCodes hashCode)).
  { unfold hashes, Services.seedRedeemCodes. rewrite List.map_map. cbn [codeHash].
    apply list_elem_of_In, in_map, list_elem_of_In, Hseed. }
  destruct (MergeFacts.last_occurrence _ _ Hin)
    as (before & r & after & Hsplit & Hr & Hafter).
  assert (Hrseed : r ∈ Services.seedRedeemCodes hashCode).
  { rewrite Hsplit. apply elem_of_app. right. apply elem_of_cons. left.
    reflexivity. }
  apply seed_record in Hrseed. rewrite Hr in Hrseed.
  pose proof (MergeFacts.merged_well_keyed
                (stored ++ Services.seedRedeemCodes hashCode)) as Hwk.
  assert (Hlook : alookup (hashCode code)
                    (foldl merge_step []
                       (stored ++ Services.seedRedeemCodes hashCode)) = Some r).
  { rewrite Hsplit, app_assoc, <- Hr. apply MergeFacts.merged_last.
    - rewrite Hr. exact Hh.
    - rewrite Hr. exact Hafter. }
  apply MergeFacts.alookup_mem in Hlook.
  assert (Hnd : NoDup (hashes (redeemList s0))).
  { rewrite Hlist, MergeFacts.mergeRedeemCodes_fold.
    rewrite (MergeFacts.well_keyed_hashes _ Hwk). exact (proj1 Hwk). }
  assert (Hmem : r ∈ redeemList s0)
    by (rewrite Hlist, MergeFacts.mergeRedeemCodes_fold; exact Hlook).
  destruct (find_code_unique _ _ Hnd Hmem) as [i Hfind]. rewrite Hr in Hfind.
  assert (Hunused : is_used r = false) by (rewrite Hrseed; reflexivity).
  rewrite (SubscriptionFacts.redeem_accepted hashCode now raw code s0 i r
             Hb (seed_code_nonempty code Hseed) Hfind Hunused).
  cbn [fst].
  assert (Hdur : durationMs r = Some 2592000000) by (rewrite Hrseed; reflexivity).
  rewrite Hdur.
  assert (Hnn : normalizeBaseId (Some (normalizeBaseId raw)) = normalizeBaseId raw)
    by apply JsFacts.normalizeBaseId_idempotent.
  assert (Hb' : truthy_str (normalizeBaseId (Some (normalizeBaseId raw))) = true)
    by (rewrite Hnn; exact Hb).
  pose proof (SubscriptionFacts.activatePlan_accepted now
                (Some (normalizeBaseId raw)) 2592000000 (Some now) s0 Hb'
                ltac:(lia)) as Hact.
  cbn zeta in Hact. rewrite SubscriptionFacts.paidAt_now in Hact.
  rewrite Z.max_id, Hnn in Hact. rewrite Hact. reflexivity.
Qed.

Lemma initStores_rearms_seed_codes_witness :
  ("FREE-1M-H0K4-3N8Q" ∈ Services.seedRedeemCodeList
   /\ truthy_str (plain_hash "FREE-1M-H0K4-3N8Q") = true
   /\ truthy_str (normalizeBaseId (Some "b")) = true)
  /\ (redeem plain_hash 9 (Some "b") "FREE-1M-H0K4-3N8Q"
        (Services.subscriptionStore
           (Services.initStores plain_hash Services.test_env
              (Some Services.used_seed_snapshot)))).1
     = RedeemOk (Some 2592000009).
Proof.
  assert (Hin : "FREE-1M-H0K4-3N8Q" ∈ Services.seedRedeemCodeList)
    by (apply elem_of_cons; left; reflexivity).
  split; [split; [exact Hin|split; reflexivity]|].
  exact (initStores_rearms_seed_codes plain_hash Services.test_env
           (Some Services.used_seed_snapshot) "FREE-1M-H0K4-3N8Q" 9 (Some "b")
           Hin eq_refl eq_refl).
Defined.

(** *** Plans and orders *)

Lemma find_plan_cases (planId : string) (plan : Services.Plan) :
  Services.find_plan planId = Some plan ->
  Services.plan_id plan = planId
  /\ plan ∈ Services.billingPlans
  /\ 0 < Services.plan_durationMs plan < 10 ^ 11.
Proof.
  unfold Services.find_plan. intros H.
  apply List.find_some in H as [Hin Heq].
  apply String.eqb_eq in Heq. split; [exact Heq|].
  split; [apply list_elem_of_In, Hin|].
  unfold Services.billingPlans in Hin. cbn [In] in Hin.
  destruct Hin as [<-|[<-|[<-|[]]]]; cbn; split; reflexivity.
Qed.

Lemma find_plan_listed (plan : Services.Plan) :
  plan ∈ Services.billingPlans ->
  Services.find_plan (Services.plan_id plan) = Some plan.
Proof.
  unfold Services.billingPlans. rewrite !elem_of_cons.
  intros [->|[->|[->|H]]]; try reflexivity.
  apply elem_of_nil in H. contradiction.
Qed.

(** X15. The plan that [resolvePlan] gives for an id is the entry with
    that id in the list of [getPlansForBaseId] for the same tenant, so the
    price an order is opened with is the price the list shows; an id that
    is not listed gives [null].  A pricing profile can change a plan's
    price, never its duration. *)
Theorem resolvePlan_agrees_with_getPlansForBaseId
    (defaultPricing : Billing.DefaultPricing) (tenant planId : string)
    (billingStore : Billing.Store) :
  (forall plan,
      Services.resolvePlan defaultPricing tenant planId billingStore = Some plan
      <-> plan ∈ Services.getPlansForBaseId defaultPricing tenant billingStore
          /\ Services.plan_id plan = planId)
  /\ (Services.resolvePlan defaultPricing tenant planId billingStore = None
      <-> forall plan,
            plan ∈ Services.getPlansForBaseId defaultPricing tenant billingStore ->
            Services.plan_id plan <> planId)
  /\ (forall plan,
        plan ∈ Services.getPlansForBaseId defaultPricing tenant billingStore ->
        exists listed,
          listed ∈ Services.billingPlans
          /\ Services.plan_id plan = Services.plan_id listed
          /\ Services.plan_durationMs plan = Services.plan_durationMs listed).
Proof.
  set (pricing := Billing.getPricing defaultPricing tenant billingStore).
  assert (Hmem : forall plan,
             plan ∈ Services.getPlansForBaseId defaultPricing tenant billingStore
             <-> exists listed, listed ∈ Services.billingPlans
                                /\ plan = Services.priced pricing listed).
  { intros plan. unfold Services.getPlansForBaseId. fold pricing.
    rewrite list_elem_of_In, in_map_iff. split.
    - intros (l & <- & Hl). exists l. split; [apply list_elem_of_In, Hl|reflexivity].
    - intros (l & Hl & ->). exists l. split; [reflexivity|apply list_elem_of_In, Hl]. }
  split; [|split].
  - intros plan. unfold Services.resolvePlan. fold pricing. split.
    + destruct (Services.find_plan planId) as [listed|] eqn:E; [|discriminate].
      intros [= <-]. apply find_plan_cases in E as (Hid & Hin & _).
      split; [|exact Hid]. apply Hmem. exists listed. split; [exact Hin|reflexivity].
    + intros [(listed & Hin & ->)%Hmem Hid]. cbn [Services.priced Services.plan_id] in Hid.
      rewrite <- Hid, (find_plan_listed listed Hin). reflexivity.
  - unfold Services.resolvePlan. fold pricing. split.
    + destruct (Services.find_plan planId) as [listed|] eqn:E; [discriminate|].
      intros _ plan (listed & Hin & ->)%Hmem Hid.
      cbn [Services.priced Services.plan_id] in Hid.
      rewrite <- Hid, (find_plan_listed listed Hin) in E. discriminate.
    + intros Hnone.
      destruct (Services.find_plan planId) as [listed|] eqn:E; [|reflexivity].
      apply find_plan_cases in E as (Hid & Hin & _). exfalso.
      apply (Hnone (Services.priced pricing listed)); [|exact Hid].
      apply Hmem. exists listed. split; [exact Hin|reflexivity].
  - intros plan (listed & Hin & ->)%Hmem. exists listed.
    split; [exact Hin|]. split; reflexivity.
Qed.

(** X16. An order opened by [checkout] and then reported paid buys the
    plan's duration.  [checkout] answers with an order only for a non-blank
    tenant and a listed plan; for such an order [finalizePaidOrder] always
    succeeds, gives the tenant
    [max(now, paidAt, currentPaidUntil) + plan.durationMs] with the plan's
    own positive duration, and marks the order paid.  For an order id that
    was never opened it answers 404 and changes nothing. *)
Theorem checkout_then_finalizePaidOrder
    (defaultPricing : Billing.DefaultPricing) (uuid : string) (created : Z)
    (raw : option string) (rawPlanId : string) (billingStore : Billing.Store)
    (orders orders1 : gmap string Services.Order) (oid : string) :
  Services.checkout defaultPricing uuid created raw rawPlanId billingStore orders
  = (Services.CheckoutOk oid, orders1) ->
  exists plan,
    Services.find_plan rawPlanId = Some plan
    /\ 0 < Services.plan_durationMs plan
    /\ truthy_str (normalizeBaseId raw) = true
    /\ forall now paidAt s,
         let at_ := if truthy_optZ paidAt then default now paidAt else now in
         let until :=
           Z.max (Z.max now at_) (getPaidUntil (normalizeBaseId raw) s)
           + Services.plan_durationMs plan in
         exists order',
           Services.finalizePaidOrder now oid paidAt orders1 s
           = (Services.FinalizeOk (Some until), <[oid := order']> orders1,
              setPaidUntil (normalizeBaseId raw) until s)
           /\ Services.status order' = Services.Paid
           /\ Services.paidUntil order' = Some until
           /\ Services.baseId order' = normalizeBaseId raw
           /\ forall missing, orders1 !! missing = None ->
                Services.finalizePaidOrder now missing paidAt orders1 s
                = (Services.FinalizeFailed 404, orders1, s).
Proof.
  unfold Services.checkout. intros Hc.
  destruct (truthy_str (normalizeBaseId raw)) eqn:Hb; cbn [negb] in Hc;
    [|discriminate].
  unfold Services.resolvePlan in Hc.
  destruct (Services.find_plan rawPlanId) as [plan|] eqn:Hfind; [|discriminate].
  injection Hc as <- <-. exists plan.
  pose proof (find_plan_cases _ _ Hfind) as (Hid & Hin & Hdur & _).
  split; [reflexivity|]. split; [exact Hdur|]. split; [reflexivity|].
  intros now paidAt s.
  set (at_ := if truthy_optZ paidAt then default now paidAt else now).
  set (until := Z.max (Z.max now at_) (getPaidUntil (normalizeBaseId raw) s)
                + Services.plan_durationMs plan).
  assert (Hnn : normalizeBaseId (Some (normalizeBaseId raw)) = normalizeBaseId raw)
    by apply JsFacts.normalizeBaseId_idempotent.
  assert (Hb' : truthy_str (normalizeBaseId (Some (normalizeBaseId raw))) = true)
    by (rewrite Hnn; exact Hb).
  unfold Services.finalizePaidOrder. rewrite lookup_insert_eq.
  cbn [Services.planId Services.priced Services.plan_id Services.baseId].
  rewrite Hid, Hfind. cbn zeta. fold at_.
  pose proof (SubscriptionFacts.activatePlan_accepted now
                (Some (normalizeBaseId raw)) (Services.plan_durationMs plan)
                (Some at_) s Hb' ltac:(lia)) as Hact.
  cbn zeta in Hact. rewrite Hnn in Hact.
  assert (Hat : (if truthy_optZ (Some at_) then default now (Some at_) else now)
                = at_).
  { destruct (truthy_optZ (Some at_)) eqn:E; [reflexivity|].
    unfold at_ in *. destruct paidAt as [p|]; [|reflexivity].
    destruct (truthy_optZ (Some p)) eqn:Ep; [|reflexivity].
    change (default now (Some p)) with p in E. congruence. }
  rewrite Hat in Hact. fold until in Hact. rewrite Hact.
  eexists. split; [reflexivity|]. cbn.
  split; [reflexivity|]. split; [reflexivity|]. split; [reflexivity|].
  intros missing Hmiss. rewrite Hmiss. reflexivity.
Qed.

Lemma checkout_then_finalizePaidOrder_witness :
  Services.checkout Billing.test_pricing "o-1" 1000 (Some " base-1 ") "monthly"
    Billing.empty_store ∅
  = (Services.CheckoutOk "o-1", {[ "o-1" := Services.monthly_order ]})
  /\ exists plan,
       Services.find_plan "monthly" = Some plan
       /\ 0 < Services.plan_durationMs plan.
Proof.
  assert (Hc : Services.checkout Billing.test_pricing "o-1" 1000 (Some " base-1 ")
                 "monthly" Billing.empty_store ∅
               = (Services.CheckoutOk "o-1",
                  {[ "o-1" := Services.monthly_order ]})) by reflexivity.
  split; [exact Hc|].
  destruct (checkout_then_finalizePaidOrder _ _ _ _ _ _ _ _ _ Hc)
    as (plan & Hfind & Hdur & _).
  exists plan. split; [exact Hfind|exact Hdur].
Defined.

(** X17. [finalizePaidOrder] does not look at the order's status: when the
    payment of one order is reported a second time while the period it
    bought still runs, the tenant's paid period is extended by the plan's
    duration once more. *)
Theorem finalizePaidOrder_twice_extends_twice
    (now1 now2 : Z) (oid : string) (paidAt1 paidAt2 : option Z)
    (orders orders1 : gmap string Services.Order) (s s1 : Store)
    (order : Services.Order) (plan : Services.Plan) (until1 : Z) :
  orders !! oid = Some order ->
  Services.find_plan (Services.planId order) = Some plan ->
  truthy_str (normalizeBaseId (Some (Services.baseId order))) = true ->
  Services.finalizePaidOrder now1 oid paidAt1 orders s
  = (Services.FinalizeOk (Some until1), orders1, s1) ->
  Z.abs until1 < 10 ^ 21 ->
  now2 <= until1 -> default now2 paidAt2 <= until1 ->
  Services.status <$> (orders1 !! oid) = Some Services.Paid
  /\ (Services.finalizePaidOrder now2 oid paidAt2 orders1 s1).1.1
     = Services.FinalizeOk (Some (until1 + Services.plan_durationMs plan)).
Proof.
  intros Hord Hplan Hb H1 Hsmall Hnow Hp.
  pose proof (find_plan_cases _ _ Hplan) as (_ & _ & Hdur & _).
  unfold Services.finalizePaidOrder in H1. rewrite Hord, Hplan in H1.
  cbn zeta in H1.
  destruct (activatePlan now1 (Some (Services.baseId order))
              (Some (Services.plan_durationMs plan)) _ s) as [r1 sa] eqn:Ea.
  injection H1 as Hr1 Horders Hs1. subst r1 sa.
  rewrite <- Horders. rewrite lookup_insert_eq. cbn [fmap option_fmap option_map
                                                     Services.status].
  split; [reflexivity|].
  unfold Services.finalizePaidOrder. rewrite lookup_insert_eq.
  cbn [Services.planId Services.baseId]. rewrite Hplan. cbn zeta.
  set (at2 := if truthy_optZ paidAt2 then default now2 paidAt2 else now2).
  pose proof (SubscriptionFacts.activatePlan_stacks_while_unexpired now1 now2
                (Some (Services.baseId order)) (Services.plan_durationMs plan)
                (Services.plan_durationMs plan) _ (Some at2) s until1 s1 Hb Hdur
                Hdur Ea Hsmall Hnow) as H2.
  assert (Hat : default now2 (Some at2) <= until1).
  { cbn [default]. unfold at2. destruct (truthy_optZ paidAt2); [exact Hp|exact Hnow]. }
  specialize (H2 Hat).
  destruct (activatePlan now2 (Some (Services.baseId order))
              (Some (Services.plan_durationMs plan)) (Some at2) s1) as [r2 sb].
  cbn [fst] in *. rewrite H2. reflexivity.
Qed.

Lemma finalizePaidOrder_twice_extends_twice_witness :
  (Services.finalizePaidOrder 2000 "o-1" None
     {[ "o-1" := Services.monthly_order ]} fresh_store).1.1
  = Services.FinalizeOk (Some 2592002000)
  /\ (Services.finalizePaidOrder 3000 "o-1" None
        (Services.finalizePaidOrder 2000 "o-1" None
           {[ "o-1" := Services.monthly_order ]} fresh_store).1.2
        (Services.finalizePaidOrder 2000 "o-1" None
           {[ "o-1" := Services.monthly_order ]} fresh_store).2).1.1
     = Services.FinalizeOk (Some (2592002000 + 2592000000)).
Proof.
  split; [reflexivity|].
  refine (proj2 (finalizePaidOrder_twice_extends_twice 2000 3000 "o-1" None None
                   {[ "o-1" := Services.monthly_order ]} _ fresh_store _
                   Services.monthly_order
                   (Services.mkPlan "monthly" (99 # 10) 2592000000
                      Services.NoteSeparate)
                   2592002000 eq_refl eq_refl eq_refl eq_refl eq_refl _ _)).
  - cbn. lia.
  - cbn. lia.
Defined.

(** X18. Codes added through the HTTP handler always carry a positive
    duration.  The handler answers 200 only when the caller is authorized,
    the code is not empty and the parsed number of days is positive, and it
    then appends one unused record of [days * 86400000] milliseconds; with
    any other answer the store is as before. *)
Theorem addRedeemCodeHandler_positive_duration
    (hashCode : string -> string) (authorized : bool) (code : string)
    (parsedDays : option Z) (s s' : Store) (httpStatus : Z) :
  Services.addRedeemCodeHandler hashCode authorized code parsedDays s
  = (httpStatus, s') ->
  (httpStatus = 200 ->
   authorized = true /\ truthy_str code = true
   /\ exists days,
        parsedDays = Some days /\ 0 < days
        /\ redeemList s'
           = redeemList s
             ++ [mkCode (hashCode code) (Some (days * 86400000)) 0 EmptyString])
  /\ (httpStatus <> 200 -> s' = s).
Proof.
  unfold Services.addRedeemCodeHandler.
  destruct authorized; cbn [negb];
    [|intros [= <- <-]; split; [discriminate|reflexivity]].
  destruct parsedDays as [days|];
    [|intros [= <- <-]; split; [discriminate|reflexivity]].
  destruct (days <=? 0) eqn:E;
    [intros [= <- <-]; split; [discriminate|reflexivity]|].
  apply Z.leb_gt in E. unfold addRedeemCode.
  destruct (truthy_str code) eqn:Hc; cbn [andb].
  - assert (Ht : truthy_optZ (Some (days * 24 * 60 * 60 * 1000)) = true).
    { unfold truthy_optZ, truthy_Z. apply negb_true_iff, Z.eqb_neq. lia. }
    rewrite Ht. intros [= <- <-]. cbn [redeemList]. split; [|congruence].
    intros _. split; [reflexivity|]. split; [reflexivity|].
    exists days. split; [reflexivity|]. split; [exact E|].
    do 4 f_equal. lia.
  - intros [= <- <-]. split; [discriminate|reflexivity].
Qed.

Lemma addRedeemCodeHandler_positive_duration_witness :
  Services.addRedeemCodeHandler plain_hash true "GIFT" (Some 30) fresh_store
  = (200,
     (addRedeemCode plain_hash "GIFT" (Some 2592000000) fresh_store).2)
  /\ exists days,
       Some 30 = Some days /\ 0 < days
       /\ redeemList (addRedeemCode plain_hash "GIFT" (Some 2592000000)
                        fresh_store).2
          = redeemList fresh_store
            ++ [mkCode (plain_hash "GIFT") (Some (days * 86400000)) 0
                  EmptyString].
Proof.
  assert (H : Services.addRedeemCodeHandler plain_hash true "GIFT" (Some 30)
                fresh_store
              = (200,
                 (addRedeemCode plain_hash "GIFT" (Some 2592000000)
                    fresh_store).2)) by reflexivity.
  split; [exact H|].
  exact (proj2 (proj2 (proj1 (addRedeemCodeHandler_positive_duration plain_hash
                                true "GIFT" (Some 30) fresh_store _ 200 H)
                         eq_refl))).
Defined.

End ServicesFacts.

(** ** Pricing profiles and charges *)

Module BillingMoreFacts.
Import Js Billing BillingMore.

Lemma tier_cmp_le_boundary (a b : Tier) :
  tier_cmp_le a b = boundary_leb (upToMinutes a) (upToMinutes b).
Proof.
  unfold tier_cmp_le, boundary_leb.
  destruct (upToMinutes a), (upToMinutes b); reflexivity.
Qed.

Lemma tier_cmp_le_total (a b : Tier) :
  tier_cmp_le a b = false -> tier_cmp_le b a = true.
Proof.
  unfold tier_cmp_le. destruct (upToMinutes a) as [x|], (upToMinutes b) as [y|];
    try discriminate; try reflexivity.
  unfold Qleb. intros H. apply BillingFacts.Qle_bool_false in H.
  apply Qle_bool_iff, Qlt_le_weak, H.
Qed.

Lemma tier_cmp_le_trans (a b c : Tier) :
  tier_cmp_le a b = true -> tier_cmp_le b c = true -> tier_cmp_le a c = true.
Proof.
  unfold tier_cmp_le.
  destruct (upToMinutes a) as [x|], (upToMinutes b) as [y|],
    (upToMinutes c) as [z|]; try discriminate; try reflexivity.
  unfold Qleb. rewrite !Qle_bool_iff. apply Qle_trans.
Qed.

Lemma tiers_ascending_cons (a : Tier) (l : list Tier) :
  tiers_ascending (a :: l)
  = match l with
    | [] => true
    | b :: _ => tier_cmp_le a b
    end && tiers_ascending l.
Proof.
  destruct l as [|b l]; [reflexivity|].
  cbn [tiers_ascending]. rewrite tier_cmp_le_boundary. reflexivity.
Qed.

Lemma insert_tier_ascending (t : Tier) (l : list Tier) :
  tiers_ascending l = true -> tiers_ascending (insert_tier t l) = true.
Proof.
  induction l as [|h r IH]; intros Hl; [reflexivity|].
  cbn [insert_tier]. rewrite tiers_ascending_cons in Hl.
  apply andb_prop in Hl as [Hhr Hr].
  destruct (tier_cmp_le h t) eqn:E.
  - rewrite tiers_ascending_cons, (IH Hr), andb_true_r.
    destruct r as [|r0 r']; cbn [insert_tier]; [exact E|].
    destruct (tier_cmp_le r0 t); [exact Hhr|exact E].
  - rewrite tiers_ascending_cons, (tier_cmp_le_total _ _ E).
    rewrite tiers_ascending_cons, Hhr, Hr. reflexivity.
Qed.

Lemma insert_tier_perm (t : Tier) (l : list Tier) :
  insert_tier t l ≡ₚ t :: l.
Proof.
  induction l as [|h r IH]; [reflexivity|]. cbn [insert_tier].
  destruct (tier_cmp_le h t); [|reflexivity].
  rewrite IH. apply Permutation_swap.
Qed.

Lemma foldl_insert_ascending (l acc : list Tier) :
  tiers_ascending acc = true ->
  tiers_ascending (foldl (fun acc t => insert_tier t acc) acc l) = true.
Proof.
  revert acc. induction l as [|t l IH]; intros acc Hacc; [exact Hacc|].
  cbn [foldl]. apply IH, insert_tier_ascending, Hacc.
Qed.

Lemma foldl_insert_perm (l acc : list Tier) :
  foldl (fun acc t => insert_tier t acc) acc l ≡ₚ acc ++ l.
Proof.
  revert acc. induction l as [|t l IH]; intros acc.
  - rewrite app_nil_r. reflexivity.
  - cbn [foldl]. rewrite IH, insert_tier_perm.
    rewrite (Permutation_middle acc l t). reflexivity.
Qed.

Lemma sort_tiers_ascending (l : list Tier) : tiers_ascending (sort_tiers l) = true.
Proof. apply foldl_insert_ascending. reflexivity. Qed.

Lemma sort_tiers_perm (l : list Tier) : sort_tiers l ≡ₚ l.
Proof. unfold sort_tiers. rewrite foldl_insert_perm. reflexivity. Qed.

Lemma normalize_tier_nonneg (fallbackPrice : Q) (item : option RawTier) (t : Tier) :
  normalize_tier fallbackPrice item = Some t -> (0 <= unitPrice t)%Q.
Proof.
  unfold normalize_tier. destruct item as [it|]; [|discriminate].
  cbv zeta. destruct (Qgtb 0 _) eqn:E; [discriminate|].
  intros [= <-]. cbn [unitPrice]. unfold Qgtb in E.
  apply negb_false_iff, Qle_bool_iff in E. exact E.
Qed.

Lemma normalizeTieredPrices_nonneg
    (tiered : option (list (option RawTier))) (fallbackPrice : Q) :
  prices_nonneg (normalizeTieredPrices tiered fallbackPrice).
Proof.
  unfold normalizeTieredPrices, prices_nonneg.
  destruct tiered as [items|]; [|constructor].
  rewrite sort_tiers_perm. apply Forall_forall. intros t Ht.
  apply list_elem_of_omap in Ht as (item & _ & Hn).
  exact (normalize_tier_nonneg _ _ _ Hn).
Qed.

(** X19. Whatever is stored for a tenant, the schedule that [getPricing]
    hands out is in order and can be billed: the boundaries ascend, with
    the unbounded tier last, no unit price is negative, and the schedule
    holds exactly the stored tier items that have a usable price, each
    once. *)
Theorem getPricing_tiers_ascending
    (defaultPricing : DefaultPricing) (tenant : string) (s : Store) :
  tiers_ascending (tieredPrices (getPricing defaultPricing tenant s)) = true
  /\ prices_nonneg (tieredPrices (getPricing defaultPricing tenant s))
  /\ forall tiered fallbackPrice,
       normalizeTieredPrices (Some tiered) fallbackPrice
       ≡ₚ omap (normalize_tier fallbackPrice) tiered.
Proof.
  assert (H : forall raw,
             tiers_ascending (tieredPrices (normalizePricing defaultPricing raw))
             = true
             /\ prices_nonneg (tieredPrices (normalizePricing defaultPricing raw))).
  { intros raw. unfold normalizePricing. cbn [tieredPrices]. split.
    - unfold normalizeTieredPrices.
      destruct (match raw_tieredPrices raw with
                | Some l => Some l
                | None => def_tieredPrices defaultPricing
                end); [apply sort_tiers_ascending|reflexivity].
    - apply normalizeTieredPrices_nonneg. }
  split; [|split].
  - unfold getPricing. destruct (truthy_str tenant); apply H.
  - unfold getPricing. destruct (truthy_str tenant); apply H.
  - intros tiered fallbackPrice. apply sort_tiers_perm.
Qed.

(** *** Charges *)

Lemma band_overlap_split (below : Lower) (upTo : option Q) (lo mid hi hi' : Q) :
  (lo <= mid)%Q -> (mid <= hi)%Q -> (hi' == hi)%Q ->
  (band_overlap below upTo lo hi
   == band_overlap below upTo lo mid + band_overlap below upTo mid hi')%Q.
Proof.
  intros H1 H2 H3. unfold band_overlap, band_top, band_bottom.
  destruct below as [|[b|]], upTo as [u|]; revert H1 H2 H3;
    BillingFacts.qminmax.
Qed.

Lemma band_cost_split (tiers : list Tier) (below : Lower) (lo mid hi hi' : Q) :
  (lo <= mid)%Q -> (mid <= hi)%Q -> (hi' == hi)%Q ->
  (band_cost tiers below lo hi
   == band_cost tiers below lo mid + band_cost tiers below mid hi')%Q.
Proof.
  intros H1 H2 H3. revert below. induction tiers as [|t rest IH]; intros below.
  - cbn [band_cost]. lra.
  - cbn [band_cost].
    rewrite (band_overlap_split below (upToMinutes t) lo mid hi hi' H1 H2 H3).
    rewrite (IH (LowerAt (upToMinutes t))). lra.
Qed.

(** X20. Billing a day's minutes in parts costs the same as billing them
    in one piece: on an ascending schedule the cost of [a + b] minutes from
    the cursor [prev] is the cost of [a] minutes from [prev] plus the cost
    of [b] minutes from [prev + a] (before rounding to four decimals). *)
Theorem calculateTieredCost_additive
    (tiers : list Tier) (prev a b fallback : Q) :
  tiers_ascending tiers = true -> (0 < a)%Q -> (0 < b)%Q ->
  (calculateTieredCost tiers prev (a + b) fallback
   == calculateTieredCost tiers prev a fallback
      + calculateTieredCost tiers (prev + a) b fallback)%Q.
Proof.
  intros Hasc Ha Hb.
  rewrite (BillingFacts.calculateTieredCost_by_band tiers prev (a + b) fallback
             Hasc) by lra.
  rewrite (BillingFacts.calculateTieredCost_by_band tiers prev a fallback Hasc Ha).
  rewrite (BillingFacts.calculateTieredCost_by_band tiers (prev + a) b fallback
             Hasc Hb).
  unfold cost_by_band.
  rewrite (band_cost_split tiers NoLower prev (prev + a) (prev + (a + b))
             (prev + a + b)) by lra.
  rewrite (band_overlap_split (last_lower NoLower tiers) None prev (prev + a)
             (prev + (a + b)) (prev + a + b)) by lra.
  lra.
Qed.

Lemma calculateTieredCost_additive_witness :
  (tiers_ascending example_tiers = true /\ (0 < 1)%Q /\ (0 < 3)%Q)
  /\ (calculateTieredCost example_tiers 1 (1 + 3) (1 # 10)
      == calculateTieredCost example_tiers 1 1 (1 # 10)
         + calculateTieredCost example_tiers (1 + 1) 3 (1 # 10))%Q.
Proof.
  split; [split; [reflexivity|split; reflexivity]|].
  apply calculateTieredCost_additive; reflexivity.
Defined.

Lemma Qleb_false_lt (x y : Q) : Qleb x y = false -> (y < x)%Q.
Proof. apply BillingFacts.Qle_bool_false. Qed.

Lemma tier_loop_bounds (cap : Q) (tiers : list Tier) (w : Walk) :
  prices_nonneg tiers -> prices_at_most cap tiers -> (0 <= remaining w)%Q ->
  (0 <= remaining (tier_loop tiers w))%Q
  /\ (cost w <= cost (tier_loop tiers w))%Q
  /\ (cost (tier_loop tiers w) + remaining (tier_loop tiers w) * cap
      <= cost w + remaining w * cap)%Q.
Proof.
  intros Hnn Hcap. revert w.
  induction tiers as [|t rest IH]; intros w Hrem.
  - cbn [tier_loop]. split; [exact Hrem|]. split; lra.
  - inversion Hnn as [|? ? Hp Hnn']; subst.
    inversion Hcap as [|? ? Hc Hcap']; subst.
    cbn [tier_loop].
    destruct (Qleb (remaining w) 0) eqn:E0; [split; [exact Hrem|split; lra]|].
    apply Qleb_false_lt in E0.
    set (available := match upToMinutes t with
                      | Some limit => Qmax 0 (limit - cursor w)
                      | None => remaining w
                      end).
    destruct (Qleb available 0) eqn:E1; [apply (IH Hnn' Hcap' w Hrem)|].
    apply Qleb_false_lt in E1.
    set (used := Qmin (remaining w) available).
    assert (Hused : (0 < used)%Q /\ (used <= remaining w)%Q)
      by (unfold used; revert E0 E1; generalize available; intros av;
          BillingFacts.qminmax).
    destruct Hused as [Hu0 Hu1].
    destruct (IH Hnn' Hcap'
                {| remaining := remaining w - used;
                   cost := cost w + used * unitPrice t;
                   cursor := cursor w + used |}) as (I1 & I2 & I3).
    { cbn [remaining]. lra. }
    cbn [remaining cost] in I2, I3.
    assert (Hlow : (0 <= used * unitPrice t)%Q)
      by (apply Qmult_le_0_compat; [apply Qlt_le_weak, Hu0|exact Hp]).
    assert (Hup : (used * unitPrice t <= used * cap)%Q).
    { rewrite (Qmult_comm used (unitPrice t)), (Qmult_comm used cap).
      apply Qmult_le_compat_r; [exact Hc|apply Qlt_le_weak, Hu0]. }
    split; [exact I1|]. split; [lra|].
    assert (Hexp : ((remaining w - used) * cap
                    == remaining w * cap - used * cap)%Q) by ring.
    rewrite Hexp in I3. lra.
Qed.

(** X21. A charge is never negative and never above the dearest price:
    when no tier price and not the fallback price is negative and none is
    above [cap], the cost of [add >= 0] minutes lies between 0 and
    [add * cap], whatever the order of the tiers and wherever the cursor
    stands. *)
Theorem calculateTieredCost_bounds
    (tiers : list Tier) (prev add fallback cap : Q) :
  prices_nonneg tiers -> prices_at_most cap tiers ->
  (0 <= fallback)%Q -> (fallback <= cap)%Q -> (0 <= add)%Q ->
  (0 <= calculateTieredCost tiers prev add fallback)%Q
  /\ (calculateTieredCost tiers prev add fallback <= add * cap)%Q.
Proof.
  intros Hnn Hcap Hf0 Hf1 Hadd. unfold calculateTieredCost.
  destruct tiers as [|t rest].
  - split.
    + apply Qmult_le_0_compat; assumption.
    + rewrite (Qmult_comm add fallback), (Qmult_comm add cap).
      apply Qmult_le_compat_r; assumption.
  - destruct (tier_loop_bounds cap (t :: rest)
                {| remaining := add; cost := 0; cursor := prev |} Hnn Hcap Hadd)
      as (I1 & I2 & I3).
    cbn [remaining cost] in I2, I3.
    set (w := tier_loop (t :: rest)
                {| remaining := add; cost := 0; cursor := prev |}) in *.
    assert (Hlow : (0 <= remaining w * fallback)%Q)
      by (apply Qmult_le_0_compat; assumption).
    assert (Hup : (remaining w * fallback <= remaining w * cap)%Q).
    { rewrite (Qmult_comm (remaining w) fallback),
        (Qmult_comm (remaining w) cap).
      apply Qmult_le_compat_r; assumption. }
    assert (Hcap0 : (0 <= remaining w * cap)%Q).
    { apply Qmult_le_0_compat; [exact I1|]. apply (Qle_trans _ fallback); assumption. }
    destruct (Qgtb (remaining w) 0); split; lra.
Qed.

Lemma calculateTieredCost_bounds_witness :
  (prices_nonneg example_tiers /\ prices_at_most (2 # 10) example_tiers)
  /\ (0 <= calculateTieredCost example_tiers 1 3 (5 # 100))%Q
  /\ (calculateTieredCost example_tiers 1 3 (5 # 100) <= 3 * (2 # 10))%Q.
Proof.
  assert (H1 : prices_nonneg example_tiers)
    by (repeat constructor; discriminate).
  assert (H2 : prices_at_most (2 # 10) example_tiers)
    by (repeat constructor; discriminate).
  split; [split; assumption|].
  apply calculateTieredCost_bounds; try assumption; discriminate.
Defined.

(** *** Recording usage *)

Lemma positive_num_pos (x : option Q) (v : Q) :
  positive_num x = Some v -> (0 < v)%Q.
Proof.
  unfold positive_num. destruct x as [y|]; [|discriminate].
  destruct (Qgtb y 0) eqn:E; [|discriminate]. intros [= <-].
  unfold Qgtb in E. apply negb_true_iff, BillingFacts.Qle_bool_false in E.
  exact E.
Qed.

Lemma resolveMinutes_pos (a : UsageArgs) : (0 < resolveMinutes a)%Q.
Proof.
  unfold resolveMinutes.
  destruct (positive_num (arg_minutes a)) as [m|] eqn:Em;
    [exact (positive_num_pos _ _ Em)|].
  destruct (positive_num (arg_durationMs a)) as [d|] eqn:Ed.
  - BillingFacts.qminmax.
  - destruct (positive_num (arg_units a)) as [u|] eqn:Eu;
      [exact (positive_num_pos _ _ Eu)|reflexivity].
Qed.

Lemma getDailyUsage_normalized (b : option string) (d : Z) (s : Store) :
  getDailyUsage (Some (normalizeBaseId b)) d s = getDailyUsage b d s.
Proof.
  unfold getDailyUsage. rewrite JsFacts.normalizeBaseId_idempotent. reflexivity.
Qed.

(** X22. What one [recordUsage] call adds and what it leaves alone.  For
    a non-blank tenant the call adds the resolved minutes, which are always
    positive, to the tenant's total and to the tenant's total of the day of
    the charge; the tenant's other days, the totals and days of every other
    tenant and the pricing profiles stay as they were. *)
Theorem recordUsage_adds_to_tenant_and_day
    (defaultPricing : DefaultPricing) (now : Z) (a : UsageArgs) (s : Store) :
  truthy_str (normalizeBaseId (arg_baseId a)) = true ->
  (0 < resolveMinutes a)%Q
  /\ count (getUsage (arg_baseId a) (recordUsage defaultPricing now a s).2)
     = (count (getUsage (arg_baseId a) s) + resolveMinutes a)%Q
  /\ daily_minutes
       (getDailyUsage (arg_baseId a)
          (getDateKey (default now (arg_occurredAt a)))
          (recordUsage defaultPricing now a s).2)
     = (daily_minutes
          (getDailyUsage (arg_baseId a)
             (getDateKey (default now (arg_occurredAt a))) s)
        + resolveMinutes a)%Q
  /\ (forall day, day <> getDateKey (default now (arg_occurredAt a)) ->
        getDailyUsage (arg_baseId a) day (recordUsage defaultPricing now a s).2
        = getDailyUsage (arg_baseId a) day s)
  /\ (forall other,
        normalizeBaseId other <> normalizeBaseId (arg_baseId a) ->
        getUsage other (recordUsage defaultPricing now a s).2 = getUsage other s
        /\ forall day,
             getDailyUsage other day (recordUsage defaultPricing now a s).2
             = getDailyUsage other day s)
  /\ pricingMap (recordUsage defaultPricing now a s).2 = pricingMap s.
Proof.
  intros Hb. split; [apply resolveMinutes_pos|].
  split; [apply BillingFacts.recordUsage_count, Hb|].
  unfold recordUsage. rewrite Hb. cbn [negb snd].
  rewrite !getDailyUsage_normalized.
  split; [|split; [|split]].
  - unfold getDailyUsage at 1. rewrite Hb. cbn [dailyUsageMap daily_minutes].
    rewrite lookup_insert_eq. cbn [default from_option id].
    rewrite lookup_insert_eq. reflexivity.
  - intros day Hday. unfold getDailyUsage. rewrite Hb. cbn [dailyUsageMap].
    rewrite lookup_insert_eq. cbn [default from_option id].
    rewrite lookup_insert_ne by congruence. reflexivity.
  - intros other Hother. split.
    + unfold getUsage. destruct (truthy_str (normalizeBaseId other));
        [|reflexivity].
      cbn [usageMap]. rewrite lookup_insert_ne by congruence. reflexivity.
    + intros day. unfold getDailyUsage.
      destruct (truthy_str (normalizeBaseId other)); [|reflexivity].
      cbn [dailyUsageMap]. rewrite lookup_insert_ne by congruence. reflexivity.
  - reflexivity.
Qed.

Lemma recordUsage_adds_to_tenant_and_day_witness :
  truthy_str (normalizeBaseId (arg_baseId (minutes_args "base-1" 3 None))) = true
  /\ count (getUsage (Some "base-1")
              (recordUsage flat_test_pricing new_year_2025
                 (minutes_args "base-1" 3 None) flat_test_store).2)
     = (count (getUsage (Some "base-1") flat_test_store)
        + resolveMinutes (minutes_args "base-1" 3 None))%Q.
Proof.
  split; [reflexivity|].
  exact (proj1 (proj2 (recordUsage_adds_to_tenant_and_day flat_test_pricing
                         new_year_2025 (minutes_args "base-1" 3 None)
                         flat_test_store eq_refl))).
Defined.

Lemma Qmax_pick (x y : Q) :
  ((x < y)%Q /\ Qmax x y = y) \/ ((y <= x)%Q /\ Qmax x y = x).
Proof.
  unfold Qmax, GenericMinMax.gmax. destruct (x ?= y)%Q eqn:E.
  - right. split; [|reflexivity]. apply Qeq_alt in E. rewrite E. apply Qle_refl.
  - left. split; [|reflexivity]. apply Qlt_alt, E.
  - right. split; [|reflexivity]. apply Qgt_alt in E. apply Qlt_le_weak, E.
Qed.

(** X23. A charge by duration is a charge by started minutes.  When the
    call names no positive [minutes] and a positive [durationMs], the
    minutes it books are a whole number [n >= 1] with
    [durationMs <= n * 60000], and with [n * 60000 < durationMs + 60000]
    once the duration is more than a minute. *)
Theorem resolveMinutes_rounds_duration_up (a : UsageArgs) (d : Q) :
  positive_num (arg_minutes a) = None ->
  positive_num (arg_durationMs a) = Some d ->
  exists n : Z,
    resolveMinutes a = inject_Z n
    /\ (1 <= n)%Z
    /\ (d <= inject_Z n * 60000)%Q
    /\ ((60000 < d)%Q -> (inject_Z n * 60000 < d + 60000)%Q).
Proof.
  intros Hm Hd. unfold resolveMinutes. rewrite Hm, Hd.
  pose proof (positive_num_pos _ _ Hd) as Hpos.
  pose proof (Qle_ceiling (d / 60000)) as Hup.
  pose proof (Qceiling_lt (d / 60000)) as Hlow.
  assert (Hdiv : (d / 60000 * 60000 == d)%Q) by (field).
  set (c := Qceiling (d / 60000)) in *.
  assert (Hc : (d <= inject_Z c * 60000)%Q).
  { rewrite <- Hdiv at 1. apply Qmult_le_compat_r; [exact Hup|discriminate]. }
  assert (Hc2 : (inject_Z c * 60000 < d + 60000)%Q).
  { assert (Hlow' : (inject_Z c < d / 60000 + 1)%Q).
    { unfold Z.sub in Hlow. rewrite inject_Z_plus in Hlow.
      rewrite inject_Z_opp in Hlow. change (inject_Z 1) with 1%Q in Hlow.
      lra. }
    assert (H : (inject_Z c * 60000 < (d / 60000 + 1) * 60000)%Q)
      by (apply Qmult_lt_compat_r; [reflexivity|exact Hlow']).
    assert (Hexp : ((d / 60000 + 1) * 60000 == d + 60000)%Q) by field.
    rewrite Hexp in H. exact H. }
  destruct (Qmax_pick 1 (inject_Z c)) as [[Hlt ->]|[Hle ->]].
  - exists c. split; [reflexivity|].
    change 1%Q with (inject_Z 1) in Hlt. rewrite <- Zlt_Qlt in Hlt.
    split; [lia|]. split; [exact Hc|intros _; exact Hc2].
  - exists 1%Z. split; [reflexivity|]. split; [lia|].
    assert (Hone : (inject_Z c * 60000 <= 1 * 60000)%Q)
      by (apply Qmult_le_compat_r; [exact Hle|discriminate]).
    split.
    + change (inject_Z 1) with 1%Q. lra.
    + intros Hbig. exfalso. lra.
Qed.

Lemma resolveMinutes_rounds_duration_up_witness :
  (positive_num (arg_minutes (charge_args "base-1" (Some (120001 # 1)%Q))) = None
   /\ positive_num (arg_durationMs (charge_args "base-1" (Some (120001 # 1)%Q)))
      = Some (120001 # 1)%Q)
  /\ exists n : Z,
       resolveMinutes (charge_args "base-1" (Some (120001 # 1)%Q)) = inject_Z n
       /\ (1 <= n)%Z.
Proof.
  split; [split; reflexivity|].
  destruct (resolveMinutes_rounds_duration_up
              (charge_args "base-1" (Some (120001 # 1)%Q)) (120001 # 1)
              eq_refl eq_refl) as (n & Hn & H1 & _).
  exists n. split; [exact Hn|exact H1].
Defined.

(** *** Setting a pricing profile *)

Lemma insert_tier_last (t : Tier) (l : list Tier) :
  Forall (fun h => tier_cmp_le h t = true) l -> insert_tier t l = l ++ [t].
Proof.
  induction 1 as [|h r Hh _ IH]; [reflexivity|].
  cbn [insert_tier]. rewrite Hh, IH. reflexivity.
Qed.

Lemma ascending_head_le (a : Tier) (l : list Tier) :
  tiers_ascending (a :: l) = true -> Forall (fun b => tier_cmp_le a b = true) l.
Proof.
  revert a. induction l as [|b r IH]; intros a H; [constructor|].
  rewrite tiers_ascending_cons in H. apply andb_prop in H as [Hab Hr].
  constructor; [exact Hab|].
  eapply Forall_impl; [apply (IH b Hr)|].
  intros c Hbc. cbn beta in *. exact (tier_cmp_le_trans a b c Hab Hbc).
Qed.

Lemma foldl_insert_sorted (l acc : list Tier) :
  tiers_ascending l = true ->
  Forall (fun h => Forall (fun t => tier_cmp_le h t = true) l) acc ->
  foldl (fun acc t => insert_tier t acc) acc l = acc ++ l.
Proof.
  revert acc. induction l as [|t l IH]; intros acc Hl Hacc.
  - rewrite app_nil_r. reflexivity.
  - cbn [foldl]. rewrite insert_tier_last.
    + rewrite IH.
      * rewrite <- app_assoc. reflexivity.
      * rewrite tiers_ascending_cons in Hl. apply andb_prop in Hl. tauto.
      * apply Forall_app. split.
        -- eapply Forall_impl; [exact Hacc|]. intros h Hh.
           inversion Hh; subst; assumption.
        -- constructor; [|constructor]. apply ascending_head_le, Hl.
    + eapply Forall_impl; [exact Hacc|]. intros h Hh.
      inversion Hh; subst; assumption.
Qed.

Lemma sort_tiers_sorted (l : list Tier) :
  tiers_ascending l = true -> sort_tiers l = l.
Proof.
  intros H. unfold sort_tiers. rewrite foldl_insert_sorted; [reflexivity|exact H|].
  constructor.
Qed.

Lemma normalize_stored_tier (fallbackPrice : Q) (t : Tier) :
  (0 <= unitPrice t)%Q -> normalize_tier fallbackPrice (stored_tier t) = Some t.
Proof.
  intros Hp. unfold normalize_tier, stored_tier.
  cbn [raw_upToMinutes raw_upToHours raw_upTo raw_unitPrice].
  unfold Qgtb. apply Qle_bool_iff in Hp. rewrite Hp. cbn [negb].
  destruct t as [[u|] p]; reflexivity.
Qed.

Lemma omap_stored_tiers (fallbackPrice : Q) (l : list Tier) :
  prices_nonneg l ->
  omap (normalize_tier fallbackPrice) (List.map stored_tier l) = l.
Proof.
  induction 1 as [|t r Ht _ IH]; [reflexivity|].
  cbn [List.map omap list_omap]. rewrite (normalize_stored_tier _ _ Ht).
  f_equal. exact IH.
Qed.

Lemma normalizePricing_stored (defaultPricing : DefaultPricing) (raw : RawPricing) :
  normalizePricing defaultPricing
    (stored_pricing (normalizePricing defaultPricing raw))
  = normalizePricing defaultPricing raw.
Proof.
  set (p := normalizePricing defaultPricing raw).
  assert (Hasc : tiers_ascending (tieredPrices p) = true).
  { unfold p, normalizePricing. cbn [tieredPrices]. unfold normalizeTieredPrices.
    destruct (match raw_tieredPrices raw with
              | Some l => Some l
              | None => def_tieredPrices defaultPricing
              end); [apply sort_tiers_ascending|reflexivity]. }
  assert (Hnn : prices_nonneg (tieredPrices p))
    by apply normalizeTieredPrices_nonneg.
  unfold normalizePricing at 1. unfold stored_pricing.
  cbn [raw_planPriceById raw_modelUnitPrice raw_modelUnitLabel raw_tieredPrices].
  unfold normalizeTieredPrices.
  rewrite (omap_stored_tiers _ _ Hnn), (sort_tiers_sorted _ Hasc).
  assert (Hlabel : (if truthy_str (modelUnitLabel p) then modelUnitLabel p
                    else def_modelUnitLabel defaultPricing) = modelUnitLabel p).
  { destruct (truthy_str (modelUnitLabel p)) eqn:E; [reflexivity|].
    unfold p, normalizePricing in *. cbn [modelUnitLabel] in *.
    destruct (truthy_str (raw_modelUnitLabel raw)) eqn:E2; [congruence|].
    reflexivity. }
  rewrite Hlabel. destruct p; reflexivity.
Qed.

(** X24. A pricing profile that is set is the profile that is read.  For
    a non-blank tenant [setPricing] answers [true] and [getPricing] then
    gives the normalized form of what was passed in: normalizing the stored
    profile a second time changes neither the prices nor the order of the
    tiers.  The profiles of the other tenants and all usage totals stay as
    they were. *)
Theorem setPricing_then_getPricing
    (defaultPricing : DefaultPricing) (raw : option string)
    (nextPricing : option RawPricing) (s : Store) :
  truthy_str (normalizeBaseId raw) = true ->
  (setPricing defaultPricing raw nextPricing s).1 = true
  /\ getPricing defaultPricing (normalizeBaseId raw)
       (setPricing defaultPricing raw nextPricing s).2
     = normalizePricing defaultPricing (default empty_pricing nextPricing)
  /\ (forall other, other <> normalizeBaseId raw ->
        getPricing defaultPricing other
          (setPricing defaultPricing raw nextPricing s).2
        = getPricing defaultPricing other s)
  /\ usageMap (setPricing defaultPricing raw nextPricing s).2 = usageMap s
  /\ dailyUsageMap (setPricing defaultPricing raw nextPricing s).2
     = dailyUsageMap s.
Proof.
  intros Hb. unfold setPricing. rewrite Hb. cbn [negb fst snd].
  split; [reflexivity|]. split; [|split; [|split; reflexivity]].
  - unfold getPricing. rewrite Hb. cbn [pricingMap].
    rewrite lookup_insert_eq. cbn [default]. apply normalizePricing_stored.
  - intros other Hother. unfold getPricing.
    destruct (truthy_str other); [|reflexivity].
    cbn [pricingMap]. rewrite lookup_insert_ne by congruence. reflexivity.
Qed.

Lemma setPricing_then_getPricing_witness :
  truthy_str (normalizeBaseId (Some " base-1 ")) = true
  /\ tieredPrices
       (getPricing flat_test_pricing (normalizeBaseId (Some " base-1 "))
          (setPricing flat_test_pricing (Some " base-1 ")
             (Some unordered_pricing) empty_store).2)
     = [ mkTier (Some (1 * 60)%Q) (2 # 10)%Q; mkTier None (5 # 100)%Q ].
Proof.
  split; [reflexivity|].
  refine (eq_trans
            (f_equal tieredPrices
               (proj1 (proj2 (setPricing_then_getPricing flat_test_pricing
                                (Some " base-1 ") (Some unordered_pricing)
                                empty_store eq_refl)))) _).
  reflexivity.
Defined.

End BillingMoreFacts.

(** ** The write chain *)

Module WriteChainFacts.
Import Js Persist More.

Lemma foldl_writeStore_field {A} (field : Snapshot -> option A) (dflt : A)
    (stringify : Snapshot -> string) (storePath : string) :
  truthy_str storePath = true ->
  (forall data c, field (merge data c)
                  = Some (coalesce (field data) (field c) dflt)) ->
  forall (writes : list Snapshot) (k : Sink) (v : A),
    field (cache k) = Some v ->
    field (cache (foldl (fun k data => writeStore stringify storePath data k)
                    k writes))
    = Some (last_written field writes v).
Proof.
  intros Hpath Hmerge writes. induction writes as [|w rest IH]; intros k v Hv.
  - exact Hv.
  - cbn [foldl last_written]. apply IH.
    unfold writeStore. rewrite Hpath. cbn [negb cache].
    rewrite Hmerge, Hv. reflexivity.
Qed.

Lemma foldl_writeStore_queue (stringify : Snapshot -> string)
    (storePath : string) :
  truthy_str storePath = true ->
  forall (writes : list Snapshot) (k : Sink),
    length (pendingWrite
              (foldl (fun k data => writeStore stringify storePath data k)
                 k writes))
    = (length (pendingWrite k) + length writes)%nat
    /\ (Forall (fun pw => pw.1 = storePath) (pendingWrite k) ->
        Forall (fun pw => pw.1 = storePath)
          (pendingWrite
             (foldl (fun k data => writeStore stringify storePath data k)
                k writes)))
    /\ (writes <> [] ->
        last (pendingWrite
                (foldl (fun k data => writeStore stringify storePath data k)
                   k writes))
        = Some (storePath,
                stringify
                  (cache
                     (foldl (fun k data => writeStore stringify storePath data k)
                        k writes)))).
Proof.
  intros Hpath writes. induction writes as [|w rest IH]; intros k.
  - cbn [foldl length]. split; [lia|]. split; [auto|congruence].
  - cbn [foldl length].
    set (k1 := writeStore stringify storePath w k).
    assert (Hk1 : pendingWrite k1
                  = pendingWrite k ++ [(storePath, stringify (cache k1))]).
    { unfold k1, writeStore. rewrite Hpath. reflexivity. }
    destruct (IH k1) as (Hlen & Hpaths & Hlast).
    split; [|split].
    + rewrite Hlen, Hk1, length_app. cbn [length]. lia.
    + intros Hall. apply Hpaths. rewrite Hk1. apply Forall_app.
      split; [exact Hall|]. constructor; [reflexivity|constructor].
    + intros _. destruct rest as [|w2 rest'].
      * cbn [foldl]. rewrite Hk1. apply last_snoc.
      * apply Hlast. discriminate.
Qed.

(** X25. Over any run of writes the last writer of each field wins.  With
    a store path, after the sink that [initStores] builds has taken a list
    of snapshots, each of the six fields of the cache holds the value of
    the last snapshot that carried the field, and the value read from the
    store file when none did; one file write is queued per call, each to
    the store path, and the last one carries the serialized cache as it
    stands. *)
Theorem sink_after_last_write_wins
    (stringify : Snapshot -> string) (storePath : string)
    (parsed : option Snapshot) (writes : list Snapshot) :
  truthy_str storePath = true ->
  paidUntilByBaseId (cache (sink_after stringify storePath parsed writes))
  = Some (last_written paidUntilByBaseId writes
            (default ∅ (paidUntilByBaseId (readStore parsed))))
  /\ adminBaseIdList (cache (sink_after stringify storePath parsed writes))
     = Some (last_written adminBaseIdList writes
               (default [] (adminBaseIdList (readStore parsed))))
  /\ redeemCodes (cache (sink_after stringify storePath parsed writes))
     = Some (last_written redeemCodes writes
               (default [] (redeemCodes (readStore parsed))))
  /\ pricingByBaseId (cache (sink_after stringify storePath parsed writes))
     = Some (last_written pricingByBaseId writes
               (default ∅ (pricingByBaseId (readStore parsed))))
  /\ usageByBaseId (cache (sink_after stringify storePath parsed writes))
     = Some (last_written usageByBaseId writes
               (default ∅ (usageByBaseId (readStore parsed))))
  /\ dailyUsageByBaseId (cache (sink_after stringify storePath parsed writes))
     = Some (last_written dailyUsageByBaseId writes
               (default ∅ (dailyUsageByBaseId (readStore parsed))))
  /\ length (pendingWrite (sink_after stringify storePath parsed writes))
     = length writes
  /\ Forall (fun pw => pw.1 = storePath)
       (pendingWrite (sink_after stringify storePath parsed writes))
  /\ (writes <> [] ->
      last (pendingWrite (sink_after stringify storePath parsed writes))
      = Some (storePath,
              stringify (cache (sink_after stringify storePath parsed writes)))).
Proof.
  intros Hpath. unfold sink_after.
  set (k0 := {| cache := readStore parsed; pendingWrite := [] |}).
  destruct (foldl_writeStore_queue stringify storePath Hpath writes k0)
    as (Hlen & Hpaths & Hlast).
  repeat split.
  - apply (foldl_writeStore_field paidUntilByBaseId ∅ stringify storePath Hpath);
      [reflexivity|]. destruct parsed; reflexivity.
  - apply (foldl_writeStore_field adminBaseIdList [] stringify storePath Hpath);
      [reflexivity|]. destruct parsed; reflexivity.
  - apply (foldl_writeStore_field redeemCodes [] stringify storePath Hpath);
      [reflexivity|]. destruct parsed; reflexivity.
  - apply (foldl_writeStore_field pricingByBaseId ∅ stringify storePath Hpath);
      [reflexivity|]. destruct parsed; reflexivity.
  - apply (foldl_writeStore_field usageByBaseId ∅ stringify storePath Hpath);
      [reflexivity|]. destruct parsed; reflexivity.
  - apply (foldl_writeStore_field dailyUsageByBaseId ∅ stringify storePath Hpath);
      [reflexivity|]. destruct parsed; reflexivity.
  - exact Hlen.
  - apply Hpaths. constructor.
  - exact Hlast.
Qed.

Lemma sink_after_last_write_wins_witness :
  truthy_str "store.json" = true
  /\ adminBaseIdList
       (cache (sink_after count_admins "store.json" None purchase_writes))
     = Some [].
Proof.
  split; [reflexivity|].
  exact (proj1 (proj2 (sink_after_last_write_wins count_admins "store.json" None
                         purchase_writes eq_refl))).
Defined.

End WriteChainFacts.

(** ** The duration of a recognition result *)

Module DurationFacts.
Import Js More.

Lemma round_near (x : Q) :
  (x - (1 # 2) < inject_Z (round x))%Q /\ (inject_Z (round x) <= x + (1 # 2))%Q.
Proof.
  unfold round. pose proof (Qfloor_le (x + (1 # 2))) as H1.
  pose proof (Qlt_floor (x + (1 # 2))) as H2.
  rewrite inject_Z_plus in H2. change (inject_Z 1) with 1%Q in H2.
  split; lra.
Qed.

Lemma round_nonneg (x : Q) : (0 <= x)%Q -> 0 <= round x.
Proof.
  intros H. unfold round. change 0 with (Qfloor 0).
  apply Qfloor_resp_le. lra.
Qed.

Lemma max_end_from (items : list (option Q)) (start : Q) :
  let m := foldl (fun max item =>
                    match item with
                    | None => max
                    | Some e => Qmax max e
                    end) start items in
  (start <= m)%Q
  /\ (forall e, Some e ∈ items -> (e <= m)%Q)
  /\ (m = start \/ Some m ∈ items).
Proof.
  revert start. induction items as [|item rest IH]; intros start; cbn [foldl].
  - split; [apply Qle_refl|]. split; [|left; reflexivity].
    intros e H. apply elem_of_nil in H. contradiction.
  - destruct item as [e0|].
    + destruct (IH (Qmax start e0)) as (I1 & I2 & I3).
      destruct (BillingMoreFacts.Qmax_pick start e0) as [[Hlt Hm]|[Hle Hm]];
        rewrite Hm in *.
      * split; [lra|]. split.
        -- intros e [[= ->]|Hin]%elem_of_cons; [exact I1|exact (I2 e Hin)].
        -- right. destruct I3 as [->|Hin]; apply elem_of_cons; [left|right];
             [reflexivity|exact Hin].
      * split; [exact I1|]. split.
        -- intros e [[= ->]|Hin]%elem_of_cons; [lra|exact (I2 e Hin)].
        -- destruct I3 as [->|Hin]; [left; reflexivity|].
           right. apply elem_of_cons. right. exact Hin.
    + destruct (IH start) as (I1 & I2 & I3).
      split; [exact I1|]. split.
      * intros e [[=]|Hin]%elem_of_cons. exact (I2 e Hin).
      * destruct I3 as [->|Hin]; [left; reflexivity|].
        right. apply elem_of_cons. right. exact Hin.
Qed.

(** X26. The duration read off a recognition result.  It is never
    negative.  A positive [duration] wins: from 1000 on it is taken as
    milliseconds, below 1000 as seconds, and rounded to the nearest
    millisecond.  Without one, the result is the latest [end_time] of the
    utterances, rounded: no utterance ends more than half a millisecond
    after it, and when it is not 0 some utterance ends within half a
    millisecond of it. *)
Theorem extractDurationMs_reads_duration_or_latest_end (r : AsrResult) :
  0 <= extractDurationMs (Some r)
  /\ (forall d, Billing.positive_num (duration r) = Some d ->
        (1000 <= d)%Q ->
        (d - (1 # 2) < inject_Z (extractDurationMs (Some r)))%Q
        /\ (inject_Z (extractDurationMs (Some r)) <= d + (1 # 2))%Q)
  /\ (forall d, Billing.positive_num (duration r) = Some d ->
        (d < 1000)%Q ->
        (d * 1000 - (1 # 2) < inject_Z (extractDurationMs (Some r)))%Q
        /\ (inject_Z (extractDurationMs (Some r)) <= d * 1000 + (1 # 2))%Q)
  /\ (forall items, Billing.positive_num (duration r) = None ->
        utterances r = Some items ->
        (forall e, Some e ∈ items ->
           (e <= inject_Z (extractDurationMs (Some r)) + (1 # 2))%Q)
        /\ (extractDurationMs (Some r) <> 0 ->
            exists e, Some e ∈ items
              /\ (e - (1 # 2) < inject_Z (extractDurationMs (Some r)))%Q
              /\ (inject_Z (extractDurationMs (Some r)) <= e + (1 # 2))%Q)).
Proof.
  unfold extractDurationMs.
  destruct (Billing.positive_num (duration r)) as [d|] eqn:Ed.
  - pose proof (BillingMoreFacts.positive_num_pos _ _ Ed) as Hpos.
    unfold Qgtb. destruct (Qle_bool 1000 d) eqn:E; cbn [negb].
    + apply Qle_bool_iff in E. split; [apply round_nonneg; lra|].
      split; [intros d' [= <-] _; apply round_near|].
      split; [intros d' [= <-] Hlt; lra|discriminate].
    + apply BillingFacts.Qle_bool_false in E.
      assert (H0 : (0 <= d * 1000)%Q)
        by (apply Qmult_le_0_compat; [lra|discriminate]).
      split; [apply round_nonneg; exact H0|].
      split; [intros d' [= <-] Hge; lra|].
      split; [intros d' [= <-] _; apply round_near|discriminate].
  - destruct (utterances r) as [items|].
    + pose proof (max_end_from items 0) as Hmax. cbn zeta in Hmax.
      fold (max_end items) in Hmax. destruct Hmax as (M1 & M2 & M3).
      unfold Qgtb. destruct (Qle_bool (max_end items) 0) eqn:E; cbn [negb].
      * apply Qle_bool_iff in E. split; [lia|].
        split; [discriminate|]. split; [discriminate|].
        intros items' _ [= <-]. split; [|congruence].
        intros e He. change (inject_Z 0) with 0%Q.
        pose proof (M2 e He). lra.
      * apply BillingFacts.Qle_bool_false in E.
        split; [apply round_nonneg; lra|].
        split; [discriminate|]. split; [discriminate|].
        intros items' _ [= <-].
        destruct (round_near (max_end items)) as [R1 R2]. split.
        -- intros e He. pose proof (M2 e He). lra.
        -- intros _. destruct M3 as [M3|M3]; [rewrite M3 in E; lra|].
           exists (max_end items). split; [exact M3|]. split; assumption.
    + split; [lia|]. split; [discriminate|]. split; discriminate.
Qed.

End DurationFacts.
